(** * Job scheduler: executor, channel processor and scheduler

    A shallow embedding of the Go packages [executor] (process
    supervisor and output limiter) and [jobscheduler] (job types,
    configuration, channel processor, scheduler), with the properties
    of the specification stated over it, and of the web server in
    front of the scheduler: its configuration, the request types of
    its API, the job and statistics handlers and the middleware.

    Conventions.
    - Go [int], [int64] and [time.Duration] values are [Z]; a
      [time.Time] is a [Z] (nanoseconds since the epoch) and every
      call of [time.Now()] is an explicit argument.
    - A Go [string] is a [string]; a [[]byte] is a [list Byte.byte].
    - A Go [map[string]T] is a [gmap string T].
    - A Go [error] is a value of [error]; [nil] is [None].
    - What the operating system and the Go runtime decide (whether a
      process starts, what it writes, which arm of a [select] fires,
      what [Wait], [Signal] and [Kill] return) is an explicit argument
      of the function that observes it. *)

From Stdlib Require Import ZArith String List Lia.
From stdpp Require Import base gmap strings list pretty.

Import ListNotations.
Local Open Scope string_scope.
Local Open Scope list_scope.
Local Open Scope Z_scope.

(** ** Errors *)

(** A terminated process as [os.ProcessState] reports it. *)
Inductive ProcessState :=
| Exited (code : Z)
| Signaled (sig : string).

(** [ProcessState.ExitCode]: the exit code, or -1 when the process was
    ended by a signal. *)
Definition ProcessState_ExitCode (ps : ProcessState) : Z :=
  match ps with
  | Exited c => c
  | Signaled _ => -1
  end.

Definition ProcessState_String (ps : ProcessState) : string :=
  match ps with
  | Exited c => "exit status " +:+ pretty c
  | Signaled sig => "signal: " +:+ sig
  end.

(** The error values the two packages create or receive.  The first
    three are the sentinels of [context] and [io]; [ExitError] is
    [*exec.ExitError]; [PathError] is [*fs.PathError]; [errorString]
    is what [errors.New] and [fmt.Errorf] (without %w) allocate. *)
Inductive error :=
| DeadlineExceeded
| Canceled
| ErrShortWrite
| ExitError (ps : ProcessState)
| PathError (op path : string) (msg : string)
| errorString (s : string).

(** The [Error()] method. *)
Definition Error (e : error) : string :=
  match e with
  | DeadlineExceeded => "context deadline exceeded"
  | Canceled => "context canceled"
  | ErrShortWrite => "short write"
  | ExitError ps => ProcessState_String ps
  | PathError op path msg => op +:+ " " +:+ path +:+ ": " +:+ msg
  | errorString s => s
  end.

(** [fmt.Errorf(prefix + "%v", err)]: a freshly allocated error that
    keeps only the text of [err]. *)
Definition Errorf (prefix : string) (err : error) : error :=
  errorString (prefix +:+ Error err).

(** [err == context.DeadlineExceeded]: interface equality with the
    sentinel.  An allocated [errorString] is never equal to it. *)
Definition is_DeadlineExceeded (e : error) : bool :=
  match e with
  | DeadlineExceeded => true
  | _ => false
  end.

(** Functions of the Go standard library that the packages call and
    whose results are only stored or printed. *)
Class GoLib := {
  filepath_IsAbs : string → bool;
  filepath_Join : string → string → string;
  os_Environ : list string;
  Duration_String : Z → string;          (* %v of a time.Duration *)
  Time_Format : Z → string               (* Format("2006-01-02 15:04:05.000") *)
}.

(** ** Package executor *)

Module executor.

(** *** LimitedWriter *)

(** [LimitedWriter]: [W] is the [bytes.Buffer] behind the pointer,
    [N] the bytes remaining. *)
Record LimitedWriter := mkLimitedWriter {
  W : list Byte.byte;
  N : Z
}.

(** [bytes.Buffer.Write]: appends all of [p], returns [len(p), nil]. *)
Definition Buffer_Write (buf p : list Byte.byte) : list Byte.byte * Z :=
  (buf ++ p, Z.of_nat (length p)).

(** [LimitedWriter.Write]: the writer after the call, [n] and [err]. *)
Definition Write (l : LimitedWriter) (p : list Byte.byte)
  : LimitedWriter * Z * option error :=
  if l.(N) <=? 0 then (l, 0, Some ErrShortWrite)
  else
    let p := if Z.of_nat (length p) >? l.(N)
             then take (Z.to_nat l.(N)) p else p in
    let '(buf, n) := Buffer_Write l.(W) p in
    (mkLimitedWriter buf (l.(N) - n), n, None).

(** A sequence of [Write] calls on one writer; the results of the
    calls are collected in order. *)
Fixpoint write_all (l : LimitedWriter) (ps : list (list Byte.byte))
  : LimitedWriter * list (Z * option error) :=
  match ps with
  | [] => (l, [])
  | p :: ps =>
      let '(l1, n, err) := Write l p in
      let '(l2, rs) := write_all l1 ps in
      (l2, (n, err) :: rs)
  end.

(** The buffer's content after the writes a child issued on a stream
    of [Execute]: through a [LimitedWriter] when [OutputLimit > 0],
    straight into the buffer otherwise. *)
Definition capture (limit : Z) (writes : list (list Byte.byte))
  : list Byte.byte :=
  if limit >? 0 then W (write_all (mkLimitedWriter [] limit) writes).1
  else concat writes.

(** *** Types *)

Module ExecutionResult.
Record t := mk {
  ExitCode : Z;
  Stdout : string;
  Stderr : string;
  StartTime : Z;
  EndTime : Z;
  ExecutionID : string
}.
End ExecutionResult.

Module Config.
Record t := mk {
  Path : string;
  Args : list string;
  WorkingDir : string;
  Env : gmap string string;
  Stdin : option (list Byte.byte);
  OutputLimit : Z;
  KillTimeout : Z
}.
End Config.

(** [exec.Cmd], as far as [Execute] sets it up: [exec.CommandContext]
    puts the name in front of the arguments.  [Process] is non-nil
    once [Start] has succeeded. *)
Module Cmd.
Record t := mk {
  Path : string;
  Args : list string;
  Dir : string;
  Env : list string;
  Stdin : option (list Byte.byte);
  Process : bool
}.
Definition started (c : t) : t :=
  mk c.(Path) c.(Args) c.(Dir) c.(Env) c.(Stdin) true.
End Cmd.

Record Executor := mkExecutor {
  workDir : string;
  processes : gmap string Cmd.t;
  execCounter : Z
}.

Definition set_processes (e : Executor) (m : gmap string Cmd.t) : Executor :=
  mkExecutor e.(workDir) m e.(execCounter).

(** What the clock, the operating system and the scheduler of
    goroutines contribute to one [Execute] call. *)
Record ProcEnv := mkProcEnv {
  now_id : Z;                               (* time.Now() for the ID *)
  now_start : Z;                            (* time.Now() for StartTime *)
  now_end : Z;                              (* time.Now() for EndTime *)
  start_result : option error;              (* cmd.Start() *)
  stdout_writes : list (list Byte.byte);    (* Write calls on cmd.Stdout *)
  stderr_writes : list (list Byte.byte);    (* Write calls on cmd.Stderr *)
  done_first : bool;         (* outer select: <-done (true) or <-ctx.Done() *)
  wait_result : option error;               (* cmd.Wait() sent on done *)
  signal_result : option error;             (* Process.Signal(os.Interrupt) *)
  exit_in_time : bool;       (* inner select: <-done (true) or <-timer.C *)
  rewait_result : option error;             (* cmd.Wait() in handleTimeout *)
  kill_result : option error                (* Process.Kill() *)
}.

(** *** NewExecutor, when [os.MkdirAll] has succeeded (its failure
    is a case of [NewScheduler]). *)
Definition NewExecutor (workDir : string) : Executor :=
  mkExecutor workDir ∅ 0.

(** *** forceKill *)
Definition forceKill (cmd : Cmd.t) (kill : option error) : option error :=
  if negb cmd.(Cmd.Process) then None else kill.

(** *** handleTimeout *)
Definition handleTimeout (cmd : Cmd.t) (env : ProcEnv) : option error :=
  if negb cmd.(Cmd.Process) then None
  else match env.(signal_result) with
       | Some _ => forceKill cmd env.(kill_result)
       | None =>
           if env.(exit_in_time) then env.(rewait_result)
           else forceKill cmd env.(kill_result)
       end.

Section Execute.
Context `{lib : GoLib}.

(** [Execute], lines 70-93: the execution ID and the command. *)
Definition execID_of (e : Executor) (env : ProcEnv) : string :=
  "exec_" +:+ pretty env.(now_id) +:+ "_" +:+ pretty e.(execCounter).

Definition command_of (e : Executor) (cfg : Config.t) : Cmd.t :=
  let dir :=
    if String.eqb cfg.(Config.WorkingDir) "" then ""
    else if negb (filepath_IsAbs cfg.(Config.WorkingDir))
         then filepath_Join e.(workDir) cfg.(Config.WorkingDir)
         else cfg.(Config.WorkingDir) in
  let environ :=
    os_Environ ++
    ((λ kv, kv.1 +:+ "=" +:+ kv.2) <$> map_to_list cfg.(Config.Env)) in
  Cmd.mk cfg.(Config.Path) (cfg.(Config.Path) :: cfg.(Config.Args)) dir
         environ cfg.(Config.Stdin) false.

(** Lines 105-108: track the process. *)
Definition track (e : Executor) (execID : string) (cmd : Cmd.t) : Executor :=
  set_processes e (<[execID := cmd]> e.(processes)).

(** Lines 111-115, the deferred function: remove it from tracking. *)
Definition untrack (e : Executor) (execID : string) : Executor :=
  set_processes e (delete execID e.(processes)).

(** Lines 117-161, run with the process tracked in [e].  The tracked
    command is the one that is started, so a successful [Start] shows
    in the registry entry. *)
Definition Execute_run (e : Executor) (execID : string) (cmd : Cmd.t)
    (cfg : Config.t) (env : ProcEnv)
  : Executor * ExecutionResult.t * option error :=
  let result := ExecutionResult.mk 0 "" "" env.(now_start) 0 execID in
  match env.(start_result) with
  | Some err => (e, result, Some (Errorf "failed to start process: " err))
  | None =>
      let cmd := Cmd.started cmd in
      let e := track e execID cmd in
      let execErr :=
        if env.(done_first) then env.(wait_result)
        else handleTimeout cmd env in
      let stdout := capture cfg.(Config.OutputLimit) env.(stdout_writes) in
      let stderr := capture cfg.(Config.OutputLimit) env.(stderr_writes) in
      let result code :=
        ExecutionResult.mk code (string_of_list_byte stdout)
          (string_of_list_byte stderr) env.(now_start) env.(now_end) execID in
      match execErr with
      | Some err =>
          let code := match err with
                      | ExitError ps => ProcessState_ExitCode ps
                      | _ => -1
                      end in
          (e, result code, Some (Errorf "execution failed: " err))
      | None => (e, result 0, None)
      end
  end.

(** *** Execute *)
Definition Execute (e : Executor) (cfg : Config.t) (env : ProcEnv)
  : Executor * ExecutionResult.t * option error :=
  let execID := execID_of e env in
  let cmd := command_of e cfg in
  let e := track e execID cmd in
  let '(e, result, err) := Execute_run e execID cmd cfg env in
  (untrack e execID, result, err).

End Execute.

(** *** ListProcesses: the keys of the registry, in iteration order. *)
Definition ListProcesses (e : Executor) : list string :=
  (map_to_list e.(processes)).*1.

(** *** KillProcess *)
Definition KillProcess (e : Executor) (execID : string) (kill : option error)
  : Executor * option error :=
  match e.(processes) !! execID with
  | None => (e, Some (errorString ("process " +:+ execID +:+ " not found")))
  | Some cmd => (e, forceKill cmd kill)
  end.

(** *** Cleanup: every entry is killed (the result is only printed)
    and deleted from the map that is being ranged over. *)
Definition Cleanup (e : Executor) : Executor :=
  set_processes e
    (map_fold (λ execID _ acc, delete execID acc) e.(processes) e.(processes)).

(** A history of completed calls on one executor. *)
Inductive call :=
| CallExecute (cfg : Config.t) (env : ProcEnv)
| CallKillProcess (execID : string) (kill : option error)
| CallCleanup.

Definition run_call `{lib : GoLib} (e : Executor) (c : call) : Executor :=
  match c with
  | CallExecute cfg env => (Execute e cfg env).1.1
  | CallKillProcess execID kill => (KillProcess e execID kill).1
  | CallCleanup => Cleanup e
  end.

End executor.

(** ** Package jobscheduler *)

Module jobscheduler.

(** *** Types *)

(** [type JobStatus string] and its six constants. *)
Definition JobStatus := string.
Definition JobStatusPending : JobStatus := "pending".
Definition JobStatusRunning : JobStatus := "running".
Definition JobStatusComplete : JobStatus := "complete".
Definition JobStatusFailed : JobStatus := "failed".
Definition JobStatusTimedOut : JobStatus := "timed_out".
Definition JobStatusCancelled : JobStatus := "cancelled".

Module ApplicationConfig.
Record t := mk {
  Name : string;
  Path : string;
  Args : list string;
  Env : gmap string string;
  WorkingDir : string;
  PassPayload : bool
}.
End ApplicationConfig.

Module JobPayload.
Record t := mk {
  ID : string;
  Channel : string;
  Workers : Z;
  Timeout : Z;
  Body : list Byte.byte;
  Application : option ApplicationConfig.t;
  Status : JobStatus;
  Error : string;
  StartTime : Z;
  EndTime : Z
}.
Definition set_Status (j : t) (s : JobStatus) : t :=
  mk j.(ID) j.(Channel) j.(Workers) j.(Timeout) j.(Body) j.(Application)
     s j.(Error) j.(StartTime) j.(EndTime).
Definition set_Error (j : t) (e : string) : t :=
  mk j.(ID) j.(Channel) j.(Workers) j.(Timeout) j.(Body) j.(Application)
     j.(Status) e j.(StartTime) j.(EndTime).
Definition set_StartTime (j : t) (x : Z) : t :=
  mk j.(ID) j.(Channel) j.(Workers) j.(Timeout) j.(Body) j.(Application)
     j.(Status) j.(Error) x j.(EndTime).
Definition set_EndTime (j : t) (x : Z) : t :=
  mk j.(ID) j.(Channel) j.(Workers) j.(Timeout) j.(Body) j.(Application)
     j.(Status) j.(Error) j.(StartTime) x.

(** [JobPayload.Validate] *)
Definition Validate (j : t) : option error :=
  if String.eqb j.(ID) "" then
    Some (errorString "job ID cannot be empty")
  else if String.eqb j.(Channel) "" then
    Some (errorString "channel cannot be empty")
  else if j.(Workers) <? 0 then
    Some (errorString "workers cannot be negative")
  else match j.(Application) with
       | Some app =>
           if String.eqb app.(ApplicationConfig.Path) "" then
             Some (errorString "application path cannot be empty")
           else None
       | None => None
       end.
End JobPayload.

Module ChannelStats.
Record t := mk {
  Workers : Z;
  ActiveJobs : list string;
  TotalJobs : Z;
  FailedJobs : Z;
  LastJobTime : Z
}.
(** [&ChannelStats{}] *)
Definition zero : t := mk 0 [] 0 0 0.
End ChannelStats.

(** *** Configuration *)

Definition Second : Z := 1000000000.
Definition Millisecond : Z := 1000000.
Definition Minute : Z := 60 * Second.

Module Config.
Record t := mk {
  ProcessingLogPath : string;
  DefaultWorkers : Z;
  DefaultTimeout : Z;
  MaxQueueSize : Z;
  WorkDir : string;
  MaxOutputSize : Z;
  ShutdownTimeout : Z;
  ChannelBufferSize : Z
}.

(** [Config.Validate] *)
Definition Validate (c : t) : option error :=
  if String.eqb c.(ProcessingLogPath) "" then
    Some (errorString "processing log path cannot be empty")
  else if c.(DefaultWorkers) <? 1 then
    Some (errorString "default workers must be at least 1")
  else if c.(DefaultTimeout) <? Second then
    Some (errorString "default timeout must be at least 1 second")
  else if c.(MaxQueueSize) <? 1 then
    Some (errorString "max queue size must be at least 1")
  else if String.eqb c.(WorkDir) "" then
    Some (errorString "work directory cannot be empty")
  else if c.(ShutdownTimeout) <? Second then
    Some (errorString "shutdown timeout must be at least 1 second")
  else if c.(ChannelBufferSize) <? 1 then
    Some (errorString "channel buffer size must be at least 1")
  else None.
End Config.

(** [DefaultConfig] *)
Definition DefaultConfig : Config.t :=
  Config.mk "processing.log" 1 (5 * Minute) 10000 "/tmp/jobscheduler"
    (1024 * 1024) (30 * Second) 1000.

(** The line feed that ends a log line. *)
Definition newline : string := String (Ascii.ascii_of_nat 10) "".

(** [int64] increment, wrapping at 2^63. *)
Definition int64_incr (x : Z) : Z :=
  (x + 1 + 2 ^ 63) mod 2 ^ 64 - 2 ^ 63.

(** [*os.File] opened for append: the lines written so far and whether
    [Close] has been called. *)
Module File.
Record t := mk {
  name : string;
  lines : list string;
  closed : bool
}.
(** [fmt.Fprintf(f, ...)]: the result is ignored by the callers; a
    closed file takes nothing. *)
Definition Fprintf (f : t) (line : string) : t :=
  if f.(closed) then f else mk f.(name) (f.(lines) ++ [line]) false.
(** [File.Close]: the first call closes the descriptor and reports
    what the operating system says; every later call reports the
    path error "file already closed". *)
Definition Close (f : t) (os_close : option error) : t * option error :=
  if f.(closed) then (f, Some (PathError "close" f.(name) "file already closed"))
  else (mk f.(name) f.(lines) true, os_close).
End File.

(** *** Channel and processor *)

(** [Processor].  Of [config] the record keeps [MaxOutputSize]; the
    channel, the executor and the process log it points to are passed
    to the methods.  [workerPool] is the number of slots taken in the
    buffered channel of capacity [workerPool_cap]. *)
Module Processor.
Record t := mk {
  MaxOutputSize : Z;
  workerPool_cap : Z;
  workerPool : Z;
  activeJobs : gmap string JobPayload.t
}.
Definition set_activeJobs (p : t) (m : gmap string JobPayload.t) : t :=
  mk p.(MaxOutputSize) p.(workerPool_cap) p.(workerPool) m.
Definition set_workerPool (p : t) (n : Z) : t :=
  mk p.(MaxOutputSize) p.(workerPool_cap) n p.(activeJobs).
End Processor.

(** [Channel].  [Jobs] holds the jobs sent and not yet received;
    [Jobs_cap] is the capacity given to [make]. *)
Module Channel.
Record t := mk {
  Name : string;
  Jobs : list JobPayload.t;
  Jobs_cap : Z;
  Workers : Z;
  Timeout : Z;
  processor : Processor.t
}.
Definition set_Jobs (c : t) (q : list JobPayload.t) : t :=
  mk c.(Name) q c.(Jobs_cap) c.(Workers) c.(Timeout) c.(processor).
Definition set_processor (c : t) (p : Processor.t) : t :=
  mk c.(Name) c.(Jobs) c.(Jobs_cap) c.(Workers) c.(Timeout) p.
End Channel.

(** [NewProcessor]; [make(chan struct{}, n)] panics for [n < 0]. *)
Definition NewProcessor (maxOutputSize workers : Z) : option Processor.t :=
  if workers <? 0 then None
  else Some (Processor.mk maxOutputSize workers 0 ∅).

(** Why a job context is done: its own deadline, or the parent
    context was cancelled. *)
Inductive CtxDone := DeadlineFired | ParentCancelled.

(** [ctx.Err()] of a done context. *)
Definition ctx_Err (d : CtxDone) : error :=
  match d with
  | DeadlineFired => DeadlineExceeded
  | ParentCancelled => Canceled
  end.

(** What the clock and the runtime contribute to one [processJob]. *)
Record JobEnv := mkJobEnv {
  now_running : Z;              (* time.Now() of line 73 *)
  now_log_started : Z;          (* time.Now() in the first logJobEvent *)
  now_finished : Z;             (* time.Now() of line 90 *)
  now_log_completed : Z;        (* time.Now() in the second logJobEvent *)
  proc_env : executor.ProcEnv;  (* the Execute call of an application job *)
  regular_done : option CtxDone; (* processRegularJob's select: <-ctx.Done()
                                    fired first (and why), or the timer *)
  now_regular : Z               (* time.Now() in the dummy result *)
}.

Section Processor.
Context `{lib : GoLib}.

(** *** logJobEvent *)
Definition logJobEvent (log : File.t) (ch : Channel.t) (job : JobPayload.t)
    (event : string) (now : Z) : File.t :=
  File.Fprintf log
    (Time_Format now +:+ " - " +:+ event +:+ " - Channel: " +:+
     ch.(Channel.Name) +:+ ", JobID: " +:+ job.(JobPayload.ID) +:+ newline).

(** *** executeApplication *)
Definition executeApplication (ch : Channel.t) (ex : executor.Executor)
    (job : JobPayload.t) (app : ApplicationConfig.t) (env : executor.ProcEnv)
  : executor.Executor * option executor.ExecutionResult.t * option error :=
  let cfg :=
    executor.Config.mk
      app.(ApplicationConfig.Path) app.(ApplicationConfig.Args)
      app.(ApplicationConfig.WorkingDir) app.(ApplicationConfig.Env)
      (if app.(ApplicationConfig.PassPayload)
       then Some job.(JobPayload.Body) else None)
      ch.(Channel.processor).(Processor.MaxOutputSize)
      0 in
  let '(ex, result, err) := executor.Execute ex cfg env in
  (ex, Some result, err).

(** *** processRegularJob *)
Definition processRegularJob (job : JobPayload.t) (env : JobEnv)
  : option executor.ExecutionResult.t * option error :=
  match env.(regular_done) with
  | Some d => (None, Some (ctx_Err d))
  | None =>
      (Some (executor.ExecutionResult.mk 0 "" "" job.(JobPayload.StartTime)
               env.(now_regular) ""), None)
  end.

(** *** processJob

    The job is the goroutine's own copy; the function returns it as it
    is when the last event is logged, with the channel (its
    processor's active-job map), the executor and the process log. *)
Definition processJob (ch : Channel.t) (ex : executor.Executor)
    (log : File.t) (job : JobPayload.t) (env : JobEnv)
  : Channel.t * executor.Executor * File.t * JobPayload.t :=
  let p := ch.(Channel.processor) in
  let p := Processor.set_activeJobs p
             (<[job.(JobPayload.ID) := job]> p.(Processor.activeJobs)) in
  let job := JobPayload.set_Status job JobStatusRunning in
  let job := JobPayload.set_StartTime job env.(now_running) in
  let log := logJobEvent log ch job "STARTED" env.(now_log_started) in
  let '(ex, err) :=
    match job.(JobPayload.Application) with
    | Some app =>
        let '(ex, _, err) := executeApplication ch ex job app env.(proc_env) in
        (ex, err)
    | None => (ex, (processRegularJob job env).2)
    end in
  let job := JobPayload.set_EndTime job env.(now_finished) in
  let job :=
    match err with
    | Some e =>
        if is_DeadlineExceeded e then
          JobPayload.set_Error (JobPayload.set_Status job JobStatusTimedOut)
            ("job timed out after " +:+ Duration_String ch.(Channel.Timeout))
        else
          JobPayload.set_Error (JobPayload.set_Status job JobStatusFailed)
            (Error e)
    | None => JobPayload.set_Status job JobStatusComplete
    end in
  let log := logJobEvent log ch job
               ("COMPLETED - Status: " +:+ job.(JobPayload.Status))
               env.(now_log_completed) in
  let p := Processor.set_activeJobs p
             (delete job.(JobPayload.ID) p.(Processor.activeJobs)) in
  (Channel.set_processor ch p, ex, log, job).

End Processor.

(** *** Scheduler *)

(** [Scheduler].  [cancelled] is the state of the root context [ctx];
    [wg] counts the processor goroutines added to the wait group. *)
Record Scheduler := mkScheduler {
  config : Config.t;
  executor : executor.Executor;
  channels : gmap string Channel.t;
  stats : gmap string ChannelStats.t;
  processLog : File.t;
  cancelled : bool;
  wg : Z
}.

(** [NewScheduler]; [mkdir], [open] and [mkdir_exec] are the results
    of [os.MkdirAll], of [os.OpenFile] and of the [os.MkdirAll] inside
    [executor.NewExecutor]; the log starts with the lines the file
    already has. *)
Definition NewScheduler (cfg : Config.t) (mkdir open mkdir_exec : option error)
    (old_lines : list string) : error + Scheduler :=
  match Config.Validate cfg with
  | Some err => inl (Errorf "invalid configuration: " err)
  | None =>
      match mkdir with
      | Some err => inl (Errorf "failed to create working directory: " err)
      | None =>
          match open with
          | Some err => inl (Errorf "failed to open process log: " err)
          | None =>
              match mkdir_exec with
              | Some err =>
                  inl (Errorf "failed to create executor: "
                         (Errorf "failed to create working directory: " err))
              | None =>
                  inr (mkScheduler cfg
                         (executor.NewExecutor cfg.(Config.WorkDir)) ∅ ∅
                         (File.mk cfg.(Config.ProcessingLogPath) old_lines false)
                         false 0)
              end
          end
      end
  end.

(** *** getOrCreateChannel

    [None] is the panic of [make] on a negative capacity.  The error
    result of the Go function is always nil and is left out. *)
Definition getOrCreateChannel (s : Scheduler) (job : JobPayload.t)
  : option (Scheduler * Channel.t) :=
  match s.(channels) !! job.(JobPayload.Channel) with
  | Some channel => Some (s, channel)
  | None =>
      let workers :=
        if job.(JobPayload.Workers) <=? 0
        then s.(config).(Config.DefaultWorkers)
        else job.(JobPayload.Workers) in
      let timeout :=
        if job.(JobPayload.Timeout) <=? 0
        then s.(config).(Config.DefaultTimeout)
        else job.(JobPayload.Timeout) in
      if s.(config).(Config.ChannelBufferSize) <? 0 then None
      else
        processor ← NewProcessor s.(config).(Config.MaxOutputSize) workers;
        let channel :=
          Channel.mk job.(JobPayload.Channel) []
            s.(config).(Config.ChannelBufferSize) workers timeout processor in
        Some (mkScheduler s.(config) s.(executor)
                (<[job.(JobPayload.Channel) := channel]> s.(channels))
                (<[job.(JobPayload.Channel) := ChannelStats.zero]> s.(stats))
                s.(processLog) s.(cancelled) (s.(wg) + 1),
              channel)
  end.

(** *** updateStatsForNewJob

    [None] is the nil dereference when the name has no record. *)
Definition updateStatsForNewJob (s : Scheduler) (channelName : string)
    (now : Z) : option Scheduler :=
  st ← s.(stats) !! channelName;
  let st :=
    ChannelStats.mk st.(ChannelStats.Workers) st.(ChannelStats.ActiveJobs)
      (int64_incr st.(ChannelStats.TotalJobs)) st.(ChannelStats.FailedJobs)
      now in
  Some (mkScheduler s.(config) s.(executor) s.(channels)
          (<[channelName := st]> s.(stats))
          s.(processLog) s.(cancelled) s.(wg)).

(** The non-blocking send of [SubmitJob]'s [select]: it is taken when
    the buffer has room, and [default] runs otherwise.  (A receiver
    can only be parked on an empty buffer, which has room as soon as
    the capacity is positive.) *)
Definition try_send (channel : Channel.t) (job : JobPayload.t)
  : option Channel.t :=
  if Z.of_nat (length channel.(Channel.Jobs)) <? channel.(Channel.Jobs_cap)
  then Some (Channel.set_Jobs channel (channel.(Channel.Jobs) ++ [job]))
  else None.

(** *** SubmitJob

    The outer [option] is [None] when the call panics; the inner one
    is the returned error. *)
Definition SubmitJob (s : Scheduler) (job : JobPayload.t)
    (now_pending now_stats : Z) : option (Scheduler * option error) :=
  match JobPayload.Validate job with
  | Some err => Some (s, Some (Errorf "invalid job payload: " err))
  | None =>
      '(s, channel) ← getOrCreateChannel s job;
      let job := JobPayload.set_Status job JobStatusPending in
      let job := JobPayload.set_StartTime job now_pending in
      match try_send channel job with
      | Some channel =>
          let s :=
            mkScheduler s.(config) s.(executor)
              (<[job.(JobPayload.Channel) := channel]> s.(channels))
              s.(stats) s.(processLog) s.(cancelled) s.(wg) in
          s ← updateStatsForNewJob s job.(JobPayload.Channel) now_stats;
          Some (s, None)
      | None =>
          Some (s, Some (errorString
                  ("channel " +:+ job.(JobPayload.Channel) +:+ " is full")))
      end
  end.

(** *** Shutdown

    [s.cancel()] marks the root context cancelled.  Whether the wait
    group drains before [ShutdownTimeout] only selects the diagnostic
    that [log.Println] prints, which is not part of the state.
    [os_close] is what the operating system answers when the log's
    descriptor is closed. *)
Definition Shutdown (s : Scheduler) (os_close : option error)
  : Scheduler * option error :=
  let ex := executor.Cleanup s.(executor) in
  let '(log, err) := File.Close s.(processLog) os_close in
  let s := mkScheduler s.(config) ex s.(channels) s.(stats) log true s.(wg) in
  match err with
  | Some e => (s, Some (Errorf "failed to close process log: " e))
  | None => (s, None)
  end.

(** *** Start: the dispatch loop and its job goroutines

    One channel's processor as a transition system.  A goroutine
    spawned by [Start] is [Spawned] until it calls [processJob],
    [InProcessJob] until that call returns, and [Returned] until its
    deferred function has received from [workerPool]. *)
Inductive Phase := Spawned | InProcessJob | Returned.

Record Lane := mkLane {
  lane_channel : Channel.t;
  lane_held : option JobPayload.t;  (* received, waiting for a worker slot *)
  lane_tasks : list (Phase * JobPayload.t);
  lane_stopped : bool               (* Start has returned *)
}.

Definition acquire (ch : Channel.t) : option Channel.t :=
  let p := ch.(Channel.processor) in
  if p.(Processor.workerPool) <? p.(Processor.workerPool_cap)
  then Some (Channel.set_processor ch
               (Processor.set_workerPool p (p.(Processor.workerPool) + 1)))
  else None.

Definition release (ch : Channel.t) : option Channel.t :=
  let p := ch.(Channel.processor) in
  if 0 <? p.(Processor.workerPool)
  then Some (Channel.set_processor ch
               (Processor.set_workerPool p (p.(Processor.workerPool) - 1)))
  else None.

(** The first statement of [processJob]: the job is stored in the
    active-job map. *)
Definition enter (ch : Channel.t) (job : JobPayload.t) : Channel.t :=
  let p := ch.(Channel.processor) in
  Channel.set_processor ch
    (Processor.set_activeJobs p
       (<[job.(JobPayload.ID) := job]> p.(Processor.activeJobs))).

Definition in_processJob (t : Phase * JobPayload.t) : bool :=
  match t.1 with
  | InProcessJob => true
  | _ => false
  end.

(** The number of jobs inside [processJob]. *)
Definition running (l : Lane) : Z :=
  Z.of_nat (length (List.filter in_processJob l.(lane_tasks))).

Section Start.
Context `{lib : GoLib}.

Inductive step : Lane → Lane → Prop :=
| step_send ch held tasks stopped job ch' :
    (* SubmitJob: case channel.Jobs <- job *)
    try_send ch job = Some ch' →
    step (mkLane ch held tasks stopped) (mkLane ch' held tasks stopped)
| step_stop ch tasks :
    (* case <-ctx.Done(): return *)
    step (mkLane ch None tasks false) (mkLane ch None tasks true)
| step_receive ch job q tasks :
    (* case job := <-p.config.Channel.Jobs *)
    ch.(Channel.Jobs) = job :: q →
    step (mkLane ch None tasks false)
         (mkLane (Channel.set_Jobs ch q) (Some job) tasks false)
| step_acquire ch job tasks ch' :
    (* p.workerPool <- struct{}{}; go func(job) ... *)
    acquire ch = Some ch' →
    step (mkLane ch (Some job) tasks false)
         (mkLane ch' None (tasks ++ [(Spawned, job)]) false)
| step_enter ch held stopped t1 t2 job :
    (* the goroutine calls p.processJob(ctx, job) *)
    step (mkLane ch held (t1 ++ (Spawned, job) :: t2) stopped)
         (mkLane (enter ch job) held (t1 ++ (InProcessJob, job) :: t2) stopped)
| step_return ch held stopped t1 t2 job ex log env :
    (* processJob returns *)
    step (mkLane ch held (t1 ++ (InProcessJob, job) :: t2) stopped)
         (mkLane (processJob ch ex log job env).1.1.1 held
            (t1 ++ (Returned, (processJob ch ex log job env).2) :: t2)
            stopped)
| step_release ch held stopped t1 t2 job ch' :
    (* defer func() { <-p.workerPool }() *)
    release ch = Some ch' →
    step (mkLane ch held (t1 ++ (Returned, job) :: t2) stopped)
         (mkLane ch' held (t1 ++ t2) stopped).

End Start.

(** The slots taken in [workerPool] are the goroutines that [Start]
    has spawned and that have not yet run their deferred receive, and
    they never exceed the capacity. *)
Definition lane_inv (l : Lane) : Prop :=
  let p := l.(lane_channel).(Channel.processor) in
  p.(Processor.workerPool) = Z.of_nat (length l.(lane_tasks))
  ∧ p.(Processor.workerPool) ≤ p.(Processor.workerPool_cap).

(** What no step changes. *)
Definition lane_settings (l : Lane) : Z * Z * Z :=
  (l.(lane_channel).(Channel.Workers),
   l.(lane_channel).(Channel.Timeout),
   l.(lane_channel).(Channel.processor).(Processor.workerPool_cap)).

(** *** The processor on the scheduler's objects

    A processor's [config] points to the scheduler's channel,
    executor and process log; these two functions are the receive of
    [Start] and a [processJob] call as they act on the scheduler. *)

Definition receive (s : Scheduler) (name : string)
  : option (Scheduler * JobPayload.t) :=
  ch ← s.(channels) !! name;
  match ch.(Channel.Jobs) with
  | [] => None
  | job :: q =>
      Some (mkScheduler s.(config) s.(executor)
              (<[name := Channel.set_Jobs ch q]> s.(channels))
              s.(stats) s.(processLog) s.(cancelled) s.(wg),
            job)
  end.

Definition run_processJob `{lib : GoLib} (s : Scheduler) (name : string)
    (job : JobPayload.t) (env : JobEnv) : option (Scheduler * JobPayload.t) :=
  ch ← s.(channels) !! name;
  let '(ch, ex, log, job) := processJob ch s.(executor) s.(processLog) job env in
  Some (mkScheduler s.(config) ex (<[name := ch]> s.(channels))
          s.(stats) log s.(cancelled) s.(wg),
        job).

(** The error that [processJob] classifies. *)
Definition job_error `{lib : GoLib} (ch : Channel.t) (ex : executor.Executor)
    (job : JobPayload.t) (env : JobEnv) : option error :=
  match job.(JobPayload.Application) with
  | Some app =>
      (executeApplication ch ex
         (JobPayload.set_StartTime
            (JobPayload.set_Status job JobStatusRunning) env.(now_running))
         app env.(proc_env)).2
  | None => option_map ctx_Err env.(regular_done)
  end.

(** *** Well-formed schedulers

    What [NewScheduler] establishes and every operation keeps: the
    configuration is valid, and each registered channel has its name,
    the configured queue capacity, a queue within it, the pool
    capacity [Workers], and a statistics record. *)
Record channel_ok (s : Scheduler) (name : string) (ch : Channel.t) : Prop := {
  ok_Name : ch.(Channel.Name) = name;
  ok_cap : ch.(Channel.Jobs_cap) = s.(config).(Config.ChannelBufferSize);
  ok_len : Z.of_nat (length ch.(Channel.Jobs)) ≤ ch.(Channel.Jobs_cap);
  ok_pool : ch.(Channel.processor).(Processor.workerPool_cap)
            = ch.(Channel.Workers);
  ok_stats : is_Some (s.(stats) !! name)
}.

Record wf (s : Scheduler) : Prop := {
  wf_config : Config.Validate s.(config) = None;
  wf_channels : ∀ name ch, s.(channels) !! name = Some ch → channel_ok s name ch;
  wf_stats : ∀ name, s.(channels) !! name = None → s.(stats) !! name = None;
  wf_int64 : ∀ name st, s.(stats) !! name = Some st →
               - 2 ^ 63 ≤ st.(ChannelStats.TotalJobs) < 2 ^ 63
}.

(** The channel that [getOrCreateChannel] builds for the first job of
    a name. *)
Definition created_channel (s : Scheduler) (job : JobPayload.t) : Channel.t :=
  let workers :=
    if 0 <? job.(JobPayload.Workers) then job.(JobPayload.Workers)
    else s.(config).(Config.DefaultWorkers) in
  let timeout :=
    if 0 <? job.(JobPayload.Timeout) then job.(JobPayload.Timeout)
    else s.(config).(Config.DefaultTimeout) in
  Channel.mk job.(JobPayload.Channel) []
    s.(config).(Config.ChannelBufferSize) workers timeout
    (Processor.mk s.(config).(Config.MaxOutputSize) workers 0 ∅).

(** The job as [SubmitJob] sends it, and the statistics record as
    [updateStatsForNewJob] leaves it. *)
Definition pending_job (job : JobPayload.t) (now : Z) : JobPayload.t :=
  JobPayload.set_StartTime (JobPayload.set_Status job JobStatusPending) now.

Definition counted (st : ChannelStats.t) (now : Z) : ChannelStats.t :=
  ChannelStats.mk st.(ChannelStats.Workers) st.(ChannelStats.ActiveJobs)
    (int64_incr st.(ChannelStats.TotalJobs)) st.(ChannelStats.FailedJobs) now.

(** A sequence of [SubmitJob] calls, each with its two clock
    readings; the returned errors are dropped. *)
Fixpoint submit_all (s : Scheduler) (jobs : list (JobPayload.t * Z * Z))
  : option Scheduler :=
  match jobs with
  | [] => Some s
  | (job, t1, t2) :: jobs =>
      r ← SubmitJob s job t1 t2;
      submit_all r.1 jobs
  end.

(** A history of the scheduler: submissions, receives by the dispatch
    loops, [processJob] calls and shutdowns.  A receive on an empty
    queue and a call on a name without channel leave the state. *)
Inductive op :=
| OpSubmitJob (job : JobPayload.t) (now_pending now_stats : Z)
| OpReceive (name : string)
| OpProcessJob (name : string) (job : JobPayload.t) (env : JobEnv)
| OpShutdown (os_close : option error).

Definition run_op `{lib : GoLib} (s : Scheduler) (o : op) : Scheduler :=
  match o with
  | OpSubmitJob job t1 t2 =>
      match SubmitJob s job t1 t2 with Some (s', _) => s' | None => s end
  | OpReceive name =>
      match receive s name with Some (s', _) => s' | None => s end
  | OpProcessJob name job env =>
      match run_processJob s name job env with Some (s', _) => s' | None => s end
  | OpShutdown os_close => (Shutdown s os_close).1
  end.

(** Every statistics record has [FailedJobs = 0]. *)
Definition FailedJobs_zero (s : Scheduler) : Prop :=
  ∀ name st, s.(stats) !! name = Some st → st.(ChannelStats.FailedJobs) = 0.

(** The statistics and the queue of a channel, zero and empty while
    the channel does not exist. *)
Definition TotalJobs_of (s : Scheduler) (name : string) : Z :=
  match s.(stats) !! name with
  | Some st => st.(ChannelStats.TotalJobs)
  | None => 0
  end.

Definition FailedJobs_of (s : Scheduler) (name : string) : Z :=
  match s.(stats) !! name with
  | Some st => st.(ChannelStats.FailedJobs)
  | None => 0
  end.

Definition LastJobTime_of (s : Scheduler) (name : string) : Z :=
  match s.(stats) !! name with
  | Some st => st.(ChannelStats.LastJobTime)
  | None => 0
  end.

Definition queue_of (s : Scheduler) (name : string) : list JobPayload.t :=
  match s.(channels) !! name with
  | Some ch => ch.(Channel.Jobs)
  | None => []
  end.

(** The scheduler after a successful [SubmitJob]: the channel (the
    registered one, or the one created for the job) has the pending
    job at the back of its queue and its statistics record is counted;
    a created channel adds its processor to the wait group. *)
Definition enqueued (s : Scheduler) (job : JobPayload.t)
    (now_pending now_stats : Z) : Scheduler :=
  let name := job.(JobPayload.Channel) in
  let ch := default (created_channel s job) (s.(channels) !! name) in
  let st := default ChannelStats.zero (s.(stats) !! name) in
  mkScheduler s.(config) s.(executor)
    (<[name := Channel.set_Jobs ch
                 (ch.(Channel.Jobs) ++ [pending_job job now_pending])]>
       s.(channels))
    (<[name := counted st now_stats]> s.(stats))
    s.(processLog) s.(cancelled)
    (match s.(channels) !! name with
     | Some _ => s.(wg)
     | None => s.(wg) + 1
     end).

(** Every statistics record still has the three fields that only a
    job processor could fill as [&ChannelStats{}] left them. *)
Definition stats_inert (s : Scheduler) : Prop :=
  ∀ name st, s.(stats) !! name = Some st →
    st.(ChannelStats.Workers) = 0
    ∧ st.(ChannelStats.ActiveJobs) = []
    ∧ st.(ChannelStats.FailedJobs) = 0.

(** Every registered channel has a worker and a positive timeout. *)
Definition settings_ok (s : Scheduler) : Prop :=
  ∀ name ch, s.(channels) !! name = Some ch →
    1 ≤ ch.(Channel.Workers) ∧ 0 < ch.(Channel.Timeout).

(** *** GetChannelStats

    The copy is built by ranging over [s.stats]; [None] is the nil
    dereference of [s.channels[name]] for a name without channel. *)
Definition GetChannelStats (s : Scheduler)
  : option (gmap string ChannelStats.t) :=
  map_fold
    (λ name st acc,
       statsCopy ← acc;
       ch ← s.(channels) !! name;
       Some (<[name := ChannelStats.mk ch.(Channel.Workers)
                         st.(ChannelStats.ActiveJobs)
                         st.(ChannelStats.TotalJobs)
                         st.(ChannelStats.FailedJobs)
                         st.(ChannelStats.LastJobTime)]> statsCopy))
    (Some ∅) s.(stats).

(** The record that [GetChannelStats] builds for one name. *)
Definition report_of (s : Scheduler) (name : string)
  : option ChannelStats.t :=
  st ← s.(stats) !! name;
  ch ← s.(channels) !! name;
  Some (ChannelStats.mk ch.(Channel.Workers) st.(ChannelStats.ActiveJobs)
          st.(ChannelStats.TotalJobs) st.(ChannelStats.FailedJobs)
          st.(ChannelStats.LastJobTime)).

Definition report_ok (chans : gmap string Channel.t)
    (r : option (gmap string ChannelStats.t))
    (m : gmap string ChannelStats.t) : Prop :=
  match r with
  | Some rep =>
      (∀ k, is_Some (m !! k) → is_Some (chans !! k))
      ∧ ∀ k, rep !! k
             = (st ← m !! k; ch ← chans !! k;
                Some (ChannelStats.mk ch.(Channel.Workers)
                        st.(ChannelStats.ActiveJobs)
                        st.(ChannelStats.TotalJobs)
                        st.(ChannelStats.FailedJobs)
                        st.(ChannelStats.LastJobTime)))
  | None => ∃ k, is_Some (m !! k) ∧ chans !! k = None
  end.

(** *** GetActiveJobs: the values of the active-job map, in the order
    of [Range]. *)
Definition GetActiveJobs (p : Processor.t) : list JobPayload.t :=
  (map_to_list p.(Processor.activeJobs)).*2.

End jobscheduler.

(** ** Package config of the web server *)

Module webserver_config.

Module ServerConfig.
Record t := mk {
  Host : string;
  Port : Z;
  ReadTimeout : Z;
  WriteTimeout : Z;
  IdleTimeout : Z;
  MaxHeaderBytes : Z;
  AllowedOrigins : list string
}.
End ServerConfig.

(** [RetryPolicy]; its [BackoffFactor] is a [float64] that no function
    of the package reads or writes and is left out. *)
Module RetryPolicy.
Record t := mk {
  MaxRetries : Z;
  InitialDelay : Z;
  MaxDelay : Z
}.
End RetryPolicy.

Module SchedulerConfig.
Record t := mk {
  LogPath : string;
  DefaultWorkers : Z;
  DefaultTimeout : Z;
  MaxQueueSize : Z;
  WorkDir : string;
  MaxOutputSize : Z;
  ShutdownTimeout : Z;
  RetryPolicy : RetryPolicy.t
}.
End SchedulerConfig.

Module RateLimitConfig.
Record t := mk {
  Enabled : bool;
  RequestsPerMin : Z;
  BurstSize : Z
}.
End RateLimitConfig.

Module SecurityConfig.
Record t := mk {
  APIKey : string;
  TokenExpiry : Z;
  EnableTLS : bool;
  TLSCert : string;
  TLSKey : string;
  RateLimit : RateLimitConfig.t;
  AllowedIPRanges : list string
}.
End SecurityConfig.

Module LoggingConfig.
Record t := mk {
  Level : string;
  Format : string;
  FilePath : string;
  MaxSize : Z;
  MaxAge : Z;
  MaxBackups : Z;
  Compress : bool;
  EnableStdout : bool
}.
End LoggingConfig.

Record Config := mkConfig {
  Server : ServerConfig.t;
  Scheduler : SchedulerConfig.t;
  Security : SecurityConfig.t;
  Logging : LoggingConfig.t
}.

Definition Hour : Z := 60 * jobscheduler.Minute.

(** [if x == 0 { x = d }] *)
Definition or_default (x d : Z) : Z := if x =? 0 then d else x.

(** [if s == "" { s = d }] *)
Definition or_default_string (x d : string) : string :=
  if String.eqb x "" then d else x.

(** *** setDefaults *)
Definition setDefaults (c : Config) : Config :=
  let sv := c.(Server) in
  let sc := c.(Scheduler) in
  let se := c.(Security) in
  let rl := se.(SecurityConfig.RateLimit) in
  let lg := c.(Logging) in
  mkConfig
    (ServerConfig.mk sv.(ServerConfig.Host)
       (or_default sv.(ServerConfig.Port) 8080)
       (or_default sv.(ServerConfig.ReadTimeout) (15 * jobscheduler.Second))
       (or_default sv.(ServerConfig.WriteTimeout) (15 * jobscheduler.Second))
       (or_default sv.(ServerConfig.IdleTimeout) (60 * jobscheduler.Second))
       (or_default sv.(ServerConfig.MaxHeaderBytes) (Z.shiftl 1 20))
       sv.(ServerConfig.AllowedOrigins))
    (SchedulerConfig.mk sc.(SchedulerConfig.LogPath)
       (or_default sc.(SchedulerConfig.DefaultWorkers) 1)
       (or_default sc.(SchedulerConfig.DefaultTimeout) (5 * jobscheduler.Minute))
       (or_default sc.(SchedulerConfig.MaxQueueSize) 10000)
       sc.(SchedulerConfig.WorkDir)
       (or_default sc.(SchedulerConfig.MaxOutputSize) (Z.shiftl 1 20))
       (or_default sc.(SchedulerConfig.ShutdownTimeout)
          (30 * jobscheduler.Second))
       sc.(SchedulerConfig.RetryPolicy))
    (SecurityConfig.mk se.(SecurityConfig.APIKey)
       (or_default se.(SecurityConfig.TokenExpiry) (24 * Hour))
       se.(SecurityConfig.EnableTLS) se.(SecurityConfig.TLSCert)
       se.(SecurityConfig.TLSKey)
       (RateLimitConfig.mk rl.(RateLimitConfig.Enabled)
          (or_default rl.(RateLimitConfig.RequestsPerMin) 60)
          rl.(RateLimitConfig.BurstSize))
       se.(SecurityConfig.AllowedIPRanges))
    (LoggingConfig.mk
       (or_default_string lg.(LoggingConfig.Level) "info")
       (or_default_string lg.(LoggingConfig.Format) "json")
       lg.(LoggingConfig.FilePath)
       (or_default lg.(LoggingConfig.MaxSize) 100)
       (or_default lg.(LoggingConfig.MaxAge) 7)
       (or_default lg.(LoggingConfig.MaxBackups) 5)
       lg.(LoggingConfig.Compress) lg.(LoggingConfig.EnableStdout)).

(** *** validate *)
Definition validate (c : Config) : option error :=
  let port := c.(Server).(ServerConfig.Port) in
  let se := c.(Security) in
  let rl := se.(SecurityConfig.RateLimit) in
  if (port <? 0) || (port >? 65535) then
    Some (errorString ("invalid port number: " +:+ pretty port))
  else if c.(Scheduler).(SchedulerConfig.DefaultWorkers) <? 1 then
    Some (errorString "default workers must be at least 1")
  else if c.(Scheduler).(SchedulerConfig.MaxQueueSize) <? 1 then
    Some (errorString "max queue size must be at least 1")
  else if se.(SecurityConfig.EnableTLS)
          && (String.eqb se.(SecurityConfig.TLSCert) ""
              || String.eqb se.(SecurityConfig.TLSKey) "") then
    Some (errorString
            "TLS certificate and key are required when TLS is enabled")
  else if rl.(RateLimitConfig.Enabled)
          && (rl.(RateLimitConfig.RequestsPerMin) <? 1) then
    Some (errorString "requests per minute must be at least 1")
  else None.

(** *** Load; [read] is the result of [os.ReadFile] and [parsed] that
    of [yaml.Unmarshal] into an empty [Config]. *)
Definition Load (read : option error) (parsed : error + Config)
  : error + Config :=
  match read with
  | Some err => inl (Errorf "failed to read config file: " err)
  | None =>
      match parsed with
      | inl err => inl (Errorf "failed to parse config file: " err)
      | inr config =>
          let config := setDefaults config in
          match validate config with
          | Some err => inl (Errorf "invalid configuration: " err)
          | None => inr config
          end
      end
  end.

End webserver_config.

(** ** The two main packages: the scheduler configurations they build *)

(** [cmd/server/main.go], lines 35-43: the literal passed to
    [NewScheduler]; [ChannelBufferSize] is not set. *)
Definition server_main_Config (cfg : webserver_config.Config)
  : jobscheduler.Config.t :=
  let sc := cfg.(webserver_config.Scheduler) in
  jobscheduler.Config.mk
    sc.(webserver_config.SchedulerConfig.LogPath)
    sc.(webserver_config.SchedulerConfig.DefaultWorkers)
    sc.(webserver_config.SchedulerConfig.DefaultTimeout)
    sc.(webserver_config.SchedulerConfig.MaxQueueSize)
    sc.(webserver_config.SchedulerConfig.WorkDir)
    sc.(webserver_config.SchedulerConfig.MaxOutputSize)
    sc.(webserver_config.SchedulerConfig.ShutdownTimeout)
    0.

(** [cmd/example/main.go], lines 25-29: the literal built from the
    three flags; the other fields are zero. *)
Definition example_main_Config (processingLog : string) (workers timeout : Z)
  : jobscheduler.Config.t :=
  jobscheduler.Config.mk processingLog workers timeout 0 "" 0 0 0.

(** ** Package api of the web server *)

Module api.

Module ApplicationConfig.
Record t := mk {
  Name : string;
  Path : string;
  Args : list string;
  Env : gmap string string;
  WorkingDir : string;
  PassPayload : bool;
  Timeout : Z
}.
End ApplicationConfig.

Module NotifyConfig.
Record t := mk {
  Webhook : string;
  Email : string;
  Events : list string;
  Template : string
}.
End NotifyConfig.

Module SubmitJobRequest.
Record t := mk {
  JobID : string;
  Channel : string;
  Workers : Z;
  TimeoutSeconds : Z;
  Priority : Z;
  Application : option ApplicationConfig.t;
  Payload : list Byte.byte;
  Tags : list string;
  Notify : option NotifyConfig.t
}.

(** [SubmitJobRequest.Validate] *)
Definition Validate (r : t) : option error :=
  if String.eqb r.(JobID) "" then
    Some (errorString "job_id is required")
  else if String.eqb r.(Channel) "" then
    Some (errorString "channel is required")
  else if r.(Workers) <? 0 then
    Some (errorString "workers cannot be negative")
  else if r.(TimeoutSeconds) <? 0 then
    Some (errorString "timeout_seconds cannot be negative")
  else if match r.(Application) with
          | Some app => String.eqb app.(ApplicationConfig.Path) ""
          | None => false
          end then
    Some (errorString "application path is required")
  else if (r.(Priority) <? 0) || (r.(Priority) >? 10) then
    Some (errorString "priority must be between 0 and 10")
  else if match r.(Notify) with
          | Some n => String.eqb n.(NotifyConfig.Webhook) ""
                      && String.eqb n.(NotifyConfig.Email) ""
          | None => false
          end then
    Some (errorString
            "either webhook or email must be specified for notifications")
  else None.
End SubmitJobRequest.

Module SubmitJobResponse.
Record t := mk {
  JobID : string;
  Channel : string;
  Status : string;
  Submitted : Z;
  QueueSize : Z
}.
End SubmitJobResponse.

(** [api.ChannelStats]; [Throughput] is a [float64] that the code only
    ever leaves at zero, kept here as the number 0. *)
Module ChannelStats.
Record t := mk {
  Workers : Z;
  ActiveJobs : list string;
  TotalJobs : Z;
  FailedJobs : Z;
  LastJobTime : Z;
  Uptime : string;
  QueueSize : Z;
  Throughput : Z
}.
End ChannelStats.

End api.

(** ** net/http as the handlers use it

    A response writer is the header map, the status once it is
    written, and the body so far.  [WriteHeader] is ignored once a
    status is written, and the first [Write] writes status 200. *)

Module http.

Record ResponseWriter := mkResponseWriter {
  Header : gmap string string;
  Status : option Z;
  Body : string
}.

Definition newResponseWriter : ResponseWriter := mkResponseWriter ∅ None "".

Definition Header_Set (w : ResponseWriter) (key value : string)
  : ResponseWriter :=
  mkResponseWriter (<[key := value]> w.(Header)) w.(Status) w.(Body).

Definition WriteHeader (w : ResponseWriter) (code : Z) : ResponseWriter :=
  match w.(Status) with
  | Some _ => w
  | None => mkResponseWriter w.(Header) (Some code) w.(Body)
  end.

Definition Write (w : ResponseWriter) (p : string) : ResponseWriter :=
  let w := WriteHeader w 200 in
  mkResponseWriter w.(Header) w.(Status) (w.(Body) +:+ p).

(** [http.Error] *)
Definition Error (w : ResponseWriter) (msg : string) (code : Z)
  : ResponseWriter :=
  let w := Header_Set w "Content-Type" "text/plain; charset=utf-8" in
  let w := Header_Set w "X-Content-Type-Options" "nosniff" in
  let w := WriteHeader w code in
  Write w (msg +:+ jobscheduler.newline).

Definition StatusBadRequest : Z := 400.
Definition StatusUnauthorized : Z := 401.
Definition StatusForbidden : Z := 403.
Definition StatusTooManyRequests : Z := 429.
Definition StatusInternalServerError : Z := 500.
Definition StatusAccepted : Z := 202.
Definition StatusNoContent : Z := 204.
Definition MethodOptions : string := "OPTIONS".

(** [Header.Get] on a map with canonical keys: the value, or the empty
    string. *)
Definition Header_Get (h : gmap string string) (key : string) : string :=
  default "" (h !! key).

End http.

(** The separators that the middleware splits on: " " and ",". *)
Definition space : Ascii.ascii := Ascii.ascii_of_nat 32.
Definition comma : Ascii.ascii := Ascii.ascii_of_nat 44.

(** [strings.Split] for a separator of one byte. *)
Fixpoint strings_Split (s : string) (sep : Ascii.ascii) : list string :=
  match s with
  | EmptyString => [""]
  | String c s' =>
      if Ascii.eqb c sep then "" :: strings_Split s' sep
      else match strings_Split s' sep with
           | x :: xs => String c x :: xs
           | [] => [String c ""]
           end
  end.

(** Whether the byte occurs in the string. *)
Fixpoint has_byte (c : Ascii.ascii) (s : string) : bool :=
  match s with
  | EmptyString => false
  | String c' s' => Ascii.eqb c' c || has_byte c s'
  end.

(** [strings.Join] *)
Fixpoint strings_Join (elems : list string) (sep : string) : string :=
  match elems with
  | [] => ""
  | [x] => x
  | x :: xs => x +:+ sep +:+ strings_Join xs sep
  end.

(** [string(i)] for an integer [i]: the UTF-8 encoding of the code
    point [i], and of U+FFFD when [i] is no valid code point. *)
Definition string_of_bytes (bs : list Z) : string :=
  string_of_list_ascii (map (λ b, Ascii.ascii_of_N (Z.to_N b)) bs).

Definition string_of_rune (r : Z) : string :=
  if (r <? 0) || (r >? 1114111) || ((55296 <=? r) && (r <=? 57343)) then
    string_of_bytes [239; 191; 189]
  else if r <? 128 then
    string_of_bytes [r]
  else if r <? 2048 then
    string_of_bytes [Z.lor 192 (Z.shiftr r 6); Z.lor 128 (Z.land r 63)]
  else if r <? 65536 then
    string_of_bytes [Z.lor 224 (Z.shiftr r 12);
                     Z.lor 128 (Z.land (Z.shiftr r 6) 63);
                     Z.lor 128 (Z.land r 63)]
  else
    string_of_bytes [Z.lor 240 (Z.shiftr r 18);
                     Z.lor 128 (Z.land (Z.shiftr r 12) 63);
                     Z.lor 128 (Z.land (Z.shiftr r 6) 63);
                     Z.lor 128 (Z.land r 63)].

(** ** Package handlers of the web server *)

Module handlers.

(** [int64] product, wrapping at 2^63: [time.Duration(n) * time.Second]. *)
Definition int64_mul (x y : Z) : Z :=
  (x * y + 2 ^ 63) mod 2 ^ 64 - 2 ^ 63.

(** The conversion of [handleSubmitJob], lines 60-78. *)
Definition job_of_request (req : api.SubmitJobRequest.t)
  : jobscheduler.JobPayload.t :=
  let job :=
    jobscheduler.JobPayload.mk
      req.(api.SubmitJobRequest.JobID)
      req.(api.SubmitJobRequest.Channel)
      req.(api.SubmitJobRequest.Workers)
      (int64_mul req.(api.SubmitJobRequest.TimeoutSeconds) jobscheduler.Second)
      req.(api.SubmitJobRequest.Payload)
      None "" "" 0 0 in
  match req.(api.SubmitJobRequest.Application) with
  | Some app =>
      jobscheduler.JobPayload.mk
        job.(jobscheduler.JobPayload.ID)
        job.(jobscheduler.JobPayload.Channel)
        job.(jobscheduler.JobPayload.Workers)
        job.(jobscheduler.JobPayload.Timeout)
        job.(jobscheduler.JobPayload.Body)
        (Some (jobscheduler.ApplicationConfig.mk
                 app.(api.ApplicationConfig.Name)
                 app.(api.ApplicationConfig.Path)
                 app.(api.ApplicationConfig.Args)
                 app.(api.ApplicationConfig.Env)
                 app.(api.ApplicationConfig.WorkingDir)
                 app.(api.ApplicationConfig.PassPayload)))
        job.(jobscheduler.JobPayload.Status)
        job.(jobscheduler.JobPayload.Error)
        job.(jobscheduler.JobPayload.StartTime)
        job.(jobscheduler.JobPayload.EndTime)
  | None => job
  end.

Section JobsHandler.
(** [json.NewEncoder(w).Encode] on a [SubmitJobResponse]: the text it
    writes. *)
Variable json_Encode : api.SubmitJobResponse.t → string.

(** The response of an accepted submission. *)
Definition accepted (w : http.ResponseWriter) (job : jobscheduler.JobPayload.t)
    (now : Z) : http.ResponseWriter :=
  let response :=
    api.SubmitJobResponse.mk job.(jobscheduler.JobPayload.ID)
      job.(jobscheduler.JobPayload.Channel) "accepted" now 0 in
  let w := http.Header_Set w "Content-Type" "application/json" in
  let w := http.WriteHeader w http.StatusAccepted in
  http.Write w (json_Encode response).

(** [handleSubmitJob]; [decoded] is the result of decoding the request
    body, [now_pending] and [now_stats] are the clock readings of
    [SubmitJob] and [now] that of the response.  [None] is a panic of
    [SubmitJob]. *)
Definition handleSubmitJob (s : jobscheduler.Scheduler)
    (w : http.ResponseWriter) (decoded : error + api.SubmitJobRequest.t)
    (now_pending now_stats now : Z)
  : option (jobscheduler.Scheduler * http.ResponseWriter) :=
  match decoded with
  | inl err =>
      Some (s, http.Error w ("Invalid request body: " +:+ Error err)
                 http.StatusBadRequest)
  | inr req =>
      match api.SubmitJobRequest.Validate req with
      | Some err =>
          Some (s, http.Error w ("Invalid request: " +:+ Error err)
                     http.StatusBadRequest)
      | None =>
          let job := job_of_request req in
          '(s, err) ← jobscheduler.SubmitJob s job now_pending now_stats;
          match err with
          | Some err =>
              Some (s, http.Error w ("Failed to submit job: " +:+ Error err)
                         http.StatusInternalServerError)
          | None => Some (s, accepted w job now)
          end
      end
  end.
End JobsHandler.

(** [convertToAPIStats] *)
Definition convertToAPIStats (stats : jobscheduler.ChannelStats.t)
  : api.ChannelStats.t :=
  api.ChannelStats.mk
    stats.(jobscheduler.ChannelStats.Workers)
    stats.(jobscheduler.ChannelStats.ActiveJobs)
    stats.(jobscheduler.ChannelStats.TotalJobs)
    stats.(jobscheduler.ChannelStats.FailedJobs)
    stats.(jobscheduler.ChannelStats.LastJobTime)
    "" 0 0.

(** [handleChannelStats]: the map that is encoded into the body;
    [channel] is the query parameter.  [None] is a panic of
    [GetChannelStats]. *)
Definition handleChannelStats (s : jobscheduler.Scheduler) (channel : string)
  : option (gmap string api.ChannelStats.t) :=
  stats ← jobscheduler.GetChannelStats s;
  if negb (String.eqb channel "") then
    match stats !! channel with
    | Some channelStats => Some {[ channel := convertToAPIStats channelStats ]}
    | None => Some ∅
    end
  else
    Some (map_fold (λ ch stat response,
                      <[ch := convertToAPIStats stat]> response) ∅ stats).

End handlers.

(** ** Package middleware of the web server *)

Module middleware.

(** [AuthInfo]; [ExpiresAt] is left at the zero time. *)
Record AuthInfo := mkAuthInfo {
  Token : string;
  IssuedAt : Z;
  ExpiresAt : Z
}.

(** The part of [*http.Request] that the middleware reads, and the
    values of its context. *)
Record Request := mkRequest {
  Method : string;
  Path : string;
  Header : gmap string string;
  RemoteAddr : string;
  ctx_values : gmap string AuthInfo
}.

Definition WithValue (r : Request) (key : string) (v : AuthInfo) : Request :=
  mkRequest r.(Method) r.(Path) r.(Header) r.(RemoteAddr)
    (<[key := v]> r.(ctx_values)).

(** [http.Handler]: [ServeHTTP] as a function on the response writer. *)
Definition Handler := Request → http.ResponseWriter → http.ResponseWriter.

Record AuthConfig := mkAuthConfig {
  APIKey : string;
  TokenHeader : string;
  SkipPaths : list string;
  TokenExpiry : Z;
  RateLimit_ : Z;
  CacheSize : Z
}.

Definition DefaultAuthConfig : AuthConfig :=
  mkAuthConfig "" "Authorization" [] (24 * webserver_config.Hour) 60 1000.

(** [extractToken] *)
Definition extractToken (header : string) : string :=
  if String.eqb header "" then ""
  else
    match strings_Split header space with
    | [p0; p1] => if String.eqb p0 "Bearer" then p1 else header
    | _ => header
    end.

(** [subtle.ConstantTimeCompare]: 1 when the two slices are equal. *)
Definition ConstantTimeCompare (x y : string) : Z :=
  if String.eqb x y then 1 else 0.

(** [validateToken] *)
Definition validateToken (token apiKey : string) : bool :=
  ConstantTimeCompare token apiKey =? 1.

(** [shouldSkipAuth] *)
Fixpoint has_prefix_in (path : string) (skipPaths : list string) : bool :=
  match skipPaths with
  | [] => false
  | skip :: rest =>
      if String.prefix skip path then true else has_prefix_in path rest
  end.

Definition shouldSkipAuth (path : string) (skipPaths : list string) : bool :=
  if String.eqb path "/health" || String.eqb path "/metrics" then true
  else has_prefix_in path skipPaths.

(** [Auth]; [now] is what [time.Now] returns during the request. *)
Definition Auth (apiKey : string) (now : Z) (next : Handler) : Handler :=
  let cfg := DefaultAuthConfig in
  let cfg := mkAuthConfig apiKey cfg.(TokenHeader) cfg.(SkipPaths)
               cfg.(TokenExpiry) cfg.(RateLimit_) cfg.(CacheSize) in
  λ r w,
    if shouldSkipAuth r.(Path) cfg.(SkipPaths) then next r w
    else
      let token := extractToken (http.Header_Get r.(Header) cfg.(TokenHeader)) in
      if String.eqb token "" then
        http.Error w "Missing authentication token" http.StatusUnauthorized
      else if negb (validateToken token cfg.(APIKey)) then
        http.Error w "Invalid authentication token" http.StatusUnauthorized
      else
        next (WithValue r "auth_info" (mkAuthInfo token now 0)) w.

(** [Chain]: the loop runs [i] from [len(middleware)-1] down to 0;
    [n] is [i+1]. *)
Fixpoint Chain_from {H : Type} (n : nat) (h : H) (middleware : list (H → H))
  : H :=
  match n with
  | O => h
  | S i =>
      match middleware !! i with
      | Some m => Chain_from i (m h) middleware
      | None => h
      end
  end.

Definition Chain {H : Type} (h : H) (middleware : list (H → H)) : H :=
  Chain_from (length middleware) h middleware.

(** [RateLimit]: [clients] is the map that the closure keeps. *)
Record client := mkClient {
  count : Z;
  lastSeen : Z
}.

Definition clientIP_of (r : Request) : string :=
  let forwarded := http.Header_Get r.(Header) "X-Forwarded-For" in
  if negb (String.eqb forwarded "") then hd "" (strings_Split forwarded comma)
  else r.(RemoteAddr).

(** The client record after the reset of line 142. *)
Definition refreshed (c : client) (now : Z) : client :=
  if jobscheduler.Minute <=? now - c.(lastSeen) then mkClient 0 now else c.


Definition RateLimit (requestsPerMinute : Z) (next : Handler)
    (clients : gmap string client) (now : Z) (r : Request)
    (w : http.ResponseWriter) : gmap string client * http.ResponseWriter :=
  let clientIP := clientIP_of r in
  match clients !! clientIP with
  | Some c =>
      let c := refreshed c now in
      if requestsPerMinute <=? c.(count) then
        let w := http.Header_Set w "X-RateLimit-Limit" (pretty requestsPerMinute) in
        let w := http.Header_Set w "X-RateLimit-Remaining" "0" in
        let w := http.Header_Set w "X-RateLimit-Reset"
                   (pretty ((c.(lastSeen) + jobscheduler.Minute)
                              `div` jobscheduler.Second)) in
        (<[clientIP := c]> clients,
         http.Error w "Rate limit exceeded" http.StatusTooManyRequests)
      else
        (<[clientIP := mkClient (c.(count) + 1) c.(lastSeen)]> clients,
         next r w)
  | None => (<[clientIP := mkClient 1 now]> clients, next r w)
  end.


(** [CORSConfig] *)
Record CORSConfig := mkCORSConfig {
  AllowedOrigins : list string;
  AllowedMethods : list string;
  AllowedHeaders : list string;
  ExposedHeaders : list string;
  AllowCredentials : bool;
  MaxAge : Z
}.

Definition DefaultCORSConfig : CORSConfig :=
  mkCORSConfig ["*"] ["GET"; "POST"; "PUT"; "DELETE"; "OPTIONS"]
    ["Authorization"; "Content-Type"; "X-Request-ID"] ["X-Request-ID"]
    true 86400.

(** The loop of lines 60-66. *)
Fixpoint origin_allowed (allowedOrigins : list string) (origin : string)
  : bool :=
  match allowedOrigins with
  | [] => false
  | allowedOrigin :: rest =>
      if String.eqb allowedOrigin "*" || String.eqb allowedOrigin origin
      then true
      else origin_allowed rest origin
  end.

(** The headers of lines 74-83. *)
Definition set_CORS_headers (cfg : CORSConfig) (origin : string)
    (w : http.ResponseWriter) : http.ResponseWriter :=
  let w := http.Header_Set w "Access-Control-Allow-Origin" origin in
  let w := http.Header_Set w "Access-Control-Allow-Methods"
             (strings_Join cfg.(AllowedMethods) ", ") in
  let w := http.Header_Set w "Access-Control-Allow-Headers"
             (strings_Join cfg.(AllowedHeaders) ", ") in
  let w := http.Header_Set w "Access-Control-Expose-Headers"
             (strings_Join cfg.(ExposedHeaders) ", ") in
  let w := http.Header_Set w "Access-Control-Max-Age"
             (string_of_rune cfg.(MaxAge)) in
  if cfg.(AllowCredentials)
  then http.Header_Set w "Access-Control-Allow-Credentials" "true"
  else w.

(** [CORS] *)
Definition CORS (allowedOrigins : list string) (next : Handler) : Handler :=
  let cfg := DefaultCORSConfig in
  let cfg :=
    if (0 <? length allowedOrigins)%nat
    then mkCORSConfig allowedOrigins cfg.(AllowedMethods) cfg.(AllowedHeaders)
           cfg.(ExposedHeaders) cfg.(AllowCredentials) cfg.(MaxAge)
    else cfg in
  λ r w,
    let origin := http.Header_Get r.(Header) "Origin" in
    if String.eqb origin "" then next r w
    else if negb (origin_allowed cfg.(AllowedOrigins) origin) then
      http.Error w "Origin not allowed" http.StatusForbidden
    else
      let w := set_CORS_headers cfg origin w in
      if String.eqb r.(Method) http.MethodOptions
      then http.WriteHeader w http.StatusNoContent
      else next r w.

(** [CORSConfig.AllowOrigin] *)
Fixpoint AllowOrigin_loop (allowed : list string) (origin : string) : bool :=
  match allowed with
  | [] => false
  | a :: rest =>
      if String.eqb a "*" || String.eqb a origin then true
      else AllowOrigin_loop rest origin
  end.

Definition AllowOrigin (c : CORSConfig) (origin : string) : bool :=
  AllowOrigin_loop c.(AllowedOrigins) origin.

End middleware.


(** An instance of the library functions for the worked examples:
    absolute paths start with a slash, durations print as nanosecond
    counts and times as their number. *)
Definition exampleLib : GoLib := {|
  filepath_IsAbs := λ p, String.prefix "/" p;
  filepath_Join := λ a b, a +:+ "/" +:+ b;
  os_Environ := ["PATH=/usr/bin"];
  Duration_String := λ d, pretty d +:+ "ns";
  Time_Format := λ t, pretty t
|}.

(** Sample inputs of the worked examples. *)
Definition exampleCfg : executor.Config.t :=
  executor.Config.mk "/bin/echo" ["hi"] "" ∅ None 10 0.

(** The child runs to the end and exits with status [code]
    ([None]: status 0), after writing "hi". *)
Definition env_exits (code : option Z) : executor.ProcEnv :=
  executor.mkProcEnv 100 101 105 None [[Byte.x68; Byte.x69]] [] true
    (option_map (λ c, ExitError (Exited c)) code) None true None None.

(** The context is done first, the interrupt is delivered, the child
    outlives the grace period and the kill succeeds. *)
Definition env_killed : executor.ProcEnv :=
  executor.mkProcEnv 100 101 105 None [] [] false None None false None None.

(** [Start] fails: the executable does not exist. *)
Definition env_spawn_fails : executor.ProcEnv :=
  executor.mkProcEnv 100 101 105
    (Some (errorString "fork/exec /bin/nope: no such file or directory"))
    [] [] true None None true None None.

(** The context is done first; the interrupt is delivered and the
    child is reaped by the second [Wait] as ended by the signal. *)
Definition env_interrupted : executor.ProcEnv :=
  executor.mkProcEnv 100 101 105 None [] [] false None None true
    (Some (ExitError (Signaled "interrupt"))) None.

(** The context is done first; the interrupt cannot be delivered and
    [Kill] answers [kill]. *)
Definition env_signal_fails (kill : option error) : executor.ProcEnv :=
  executor.mkProcEnv 100 101 105 None [] [] false None
    (Some (errorString "os: process already finished")) true None kill.

(** A scheduler with the default configuration and an empty log. *)
Definition exampleScheduler : jobscheduler.Scheduler :=
  match jobscheduler.NewScheduler jobscheduler.DefaultConfig None None None [] with
  | inr s => s
  | inl _ =>
      jobscheduler.mkScheduler jobscheduler.DefaultConfig
        (executor.NewExecutor "") ∅ ∅ (jobscheduler.File.mk "" [] true) true 0
  end.

(** A payload-only job, [{ID:"j1", Channel:"a", Body:"{}"}], with a
    timeout hint of 50 ms. *)
Definition job_j1 : jobscheduler.JobPayload.t :=
  jobscheduler.JobPayload.mk "j1" "a" 0 (50 * jobscheduler.Millisecond)
    [Byte.x7b; Byte.x7d] None "" "" 0 0.

(** An application job,
    [{ID:"j3", Channel:"c", Timeout:100ms, Application:{Path:"sleep", Args:["1"]}}]. *)
Definition job_j3 : jobscheduler.JobPayload.t :=
  jobscheduler.JobPayload.mk "j3" "c" 0 (100 * jobscheduler.Millisecond) []
    (Some (jobscheduler.ApplicationConfig.mk "sleep" "sleep" ["1"] ∅ "" false))
    "" "" 0 0.

(** The scheduler and the job that an operation returned; a call that
    panicked leaves the fresh scheduler and the job as it was sent. *)
Definition scheduler_after {X} (r : option (jobscheduler.Scheduler * X))
  : jobscheduler.Scheduler :=
  match r with
  | Some (s, _) => s
  | None => exampleScheduler
  end.

Definition job_after (r : option (jobscheduler.Scheduler * jobscheduler.JobPayload.t))
  : jobscheduler.JobPayload.t :=
  match r with
  | Some (_, j) => j
  | None => job_j1
  end.

(** [job_j1] submitted at times 5 and 6, then received by the
    processor of channel "a". *)
Definition s_submitted : jobscheduler.Scheduler :=
  scheduler_after (jobscheduler.SubmitJob exampleScheduler job_j1 5 6).

Definition s_received : jobscheduler.Scheduler :=
  scheduler_after (jobscheduler.receive s_submitted "a").

(** A scheduler whose channels queue a single job. *)
Definition smallConfig : jobscheduler.Config.t :=
  jobscheduler.Config.mk "processing.log" 1 (5 * jobscheduler.Second) 100
    "/tmp/w" 10 (5 * jobscheduler.Second) 1.

Definition smallScheduler : jobscheduler.Scheduler :=
  match jobscheduler.NewScheduler smallConfig None None None [] with
  | inr s => s
  | inl _ => exampleScheduler
  end.

(** The channels that the first submission of [job_j1] and of
    [job_j3] to [exampleScheduler] creates, its executor and log. *)
Definition ch_a : jobscheduler.Channel.t :=
  jobscheduler.created_channel exampleScheduler job_j1.
Definition ch_c : jobscheduler.Channel.t :=
  jobscheduler.created_channel exampleScheduler job_j3.
Definition ex0 : executor.Executor := executor.NewExecutor "/tmp/jobscheduler".
Definition log0 : jobscheduler.File.t :=
  jobscheduler.File.mk "processing.log" [] false.

(** The clock and runtime of one [processJob]: the context is done
    for reason [d] before the 100 ms timer ([None]: the timer fires),
    and an application runs as [penv] says. *)
Definition jobEnv (d : option jobscheduler.CtxDone) (penv : executor.ProcEnv)
  : jobscheduler.JobEnv :=
  jobscheduler.mkJobEnv 10 11 20 21 penv d 19.

(** Samples of the web server: a configuration file that sets the
    scheduler's two paths and its worker count, a stand-in for the
    JSON encoder, a submission for channel "web", and a request for
    /api/v1/jobs with the given method and headers. *)
Definition exampleServerConfig : webserver_config.Config :=
  webserver_config.mkConfig
    (webserver_config.ServerConfig.mk "" 0 0 0 0 0 [])
    (webserver_config.SchedulerConfig.mk "jobs.log" 4 0 0 "/tmp/work" 0 0
       (webserver_config.RetryPolicy.mk 0 0 0))
    (webserver_config.SecurityConfig.mk "" 0 false "" ""
       (webserver_config.RateLimitConfig.mk false 0 0) [])
    (webserver_config.LoggingConfig.mk "" "" "" 0 0 0 false false).

Definition exampleEncode (r : api.SubmitJobResponse.t) : string :=
  "{" +:+ r.(api.SubmitJobResponse.JobID) +:+ "}".

Definition exampleRequest (timeoutSeconds : Z) : api.SubmitJobRequest.t :=
  api.SubmitJobRequest.mk "j9" "web" 2 timeoutSeconds 5 None [] ["nightly"]
    None.

Definition exampleHTTPRequest (method : string)
    (headers : list (string * string)) : middleware.Request :=
  middleware.mkRequest method "/api/v1/jobs" (list_to_map headers)
    "10.0.0.1:4000" ∅.

(** A handler that writes "ok". *)
Definition okHandler : middleware.Handler := λ _ w, http.Write w "ok".

(** * Properties *)

(** ** Output limiter *)

Section LimitedWriter.
Import executor.

Lemma length_string_of_list_byte (l : list Byte.byte) :
  String.length (string_of_list_byte l) = length l.
Proof.
  unfold string_of_list_byte.
  induction l as [|b l IH]; simpl; [reflexivity | now rewrite IH].
Qed.

(** One [Write] with budget left: a prefix [q] of [p] is appended, of
    length [n = min (len p) N], and the budget drops by [n]. *)
Lemma Write_forwards (l : LimitedWriter) (p : list Byte.byte) :
  0 < N l →
  ∃ q, Write l p = (mkLimitedWriter (W l ++ q) (N l - Z.of_nat (length q)),
                    Z.of_nat (length q), None)
       ∧ q `prefix_of` p
       ∧ Z.of_nat (length q) = Z.min (Z.of_nat (length p)) (N l).
Proof.
  intros HN. unfold Write, Buffer_Write.
  destruct (N l <=? 0) eqn:E; [lia|].
  destruct (Z.of_nat (length p) >? N l) eqn:G.
  - exists (take (Z.to_nat (N l)) p). split; [reflexivity|].
    split; [apply prefix_take|]. rewrite length_take. lia.
  - exists p. split; [reflexivity|]. split; [reflexivity|]. lia.
Qed.

(** One [Write] with no budget left: nothing changes, zero bytes are
    reported with [io.ErrShortWrite]. *)
Lemma Write_exhausted (l : LimitedWriter) (p : list Byte.byte) :
  N l ≤ 0 → Write l p = (l, 0, Some ErrShortWrite).
Proof.
  intros HN. unfold Write. destruct (N l <=? 0) eqn:E; [reflexivity | lia].
Qed.

(** The invariant of a writer over any sequence of writes: what was
    appended and what remains add up to the initial budget. *)
Lemma write_all_budget (ps : list (list Byte.byte)) :
  ∀ l, 0 ≤ N l →
    ∃ fwd, W (write_all l ps).1 = W l ++ fwd
           ∧ N (write_all l ps).1 = N l - Z.of_nat (length fwd)
           ∧ 0 ≤ N (write_all l ps).1.
Proof.
  induction ps as [|p ps IH]; intros l HN; simpl.
  - exists []. rewrite app_nil_r. simpl. split; [done|]. split; lia.
  - destruct (Z.eq_dec (N l) 0) as [Hz|Hnz].
    + rewrite Write_exhausted by lia.
      destruct (IH l HN) as (fwd & HW & HNl & Hpos).
      destruct (write_all l ps) as [l2 rs]; simpl in *. eauto.
    + destruct (Write_forwards l p) as (q & -> & _ & Hq); [lia|].
      set (l1 := mkLimitedWriter _ _).
      destruct (IH l1) as (fwd & HW & HNl & Hpos); [simpl; lia|].
      destruct (write_all l1 ps) as [l2 rs]; simpl in *.
      exists (q ++ fwd). rewrite HW, HNl, length_app, app_assoc.
      split; [done|]. split; lia.
Qed.

Lemma capture_bounded (limit : Z) (writes : list (list Byte.byte)) :
  0 < limit → Z.of_nat (length (capture limit writes)) ≤ limit.
Proof.
  intros Hl. unfold capture. destruct (limit >? 0) eqn:E; [|lia].
  destruct (write_all_budget writes (mkLimitedWriter [] limit))
    as (fwd & HW & HN & Hpos); [simpl; lia|].
  rewrite HW. simpl in *. lia.
Qed.

Context `{lib : GoLib}.

Lemma Execute_output_bounded (e : Executor) (cfg : Config.t) (env : ProcEnv) :
  0 < cfg.(Config.OutputLimit) →
  let r := (Execute e cfg env).1.2 in
  Z.of_nat (String.length r.(ExecutionResult.Stdout)) ≤ cfg.(Config.OutputLimit)
  ∧ Z.of_nat (String.length r.(ExecutionResult.Stderr)) ≤ cfg.(Config.OutputLimit).
Proof.
  intros Hl. unfold Execute, Execute_run.
  pose proof (capture_bounded _ env.(stdout_writes) Hl) as Ho.
  pose proof (capture_bounded _ env.(stderr_writes) Hl) as He.
  destruct (start_result env); simpl; [lia|].
  destruct (if done_first env then _ else _); simpl;
    rewrite !length_string_of_list_byte; lia.
Qed.

Lemma write_all_exhausted (ps : list (list Byte.byte)) (l : LimitedWriter) :
  N l ≤ 0 →
  write_all l ps = (l, (λ _, (0, Some ErrShortWrite)) <$> ps).
Proof.
  intros HN. induction ps as [|p ps IH]; simpl; [reflexivity|].
  rewrite Write_exhausted by assumption. now rewrite IH.
Qed.

Lemma executeApplication_result (ch : jobscheduler.Channel.t) (ex : Executor)
    (job : jobscheduler.JobPayload.t) (app : jobscheduler.ApplicationConfig.t)
    (env : ProcEnv) :
  ∃ cfg,
    cfg.(Config.OutputLimit)
      = ch.(jobscheduler.Channel.processor).(jobscheduler.Processor.MaxOutputSize)
    ∧ jobscheduler.executeApplication ch ex job app env
      = ((Execute ex cfg env).1.1, Some (Execute ex cfg env).1.2,
         (Execute ex cfg env).2).
Proof.
  unfold jobscheduler.executeApplication.
  match goal with |- context [Execute ex ?c env] => exists c end.
  split; [reflexivity|].
  destruct (Execute ex _ env) as [[ex' r] err]. reflexivity.
Qed.

(** C6.  With a budget [limit = MaxOutputSize > 0]: over every
    sequence of writes a [LimitedWriter] appends at most [limit] bytes
    to its buffer; with no budget left every write leaves the writer
    as it is and reports zero bytes with the short-write error; and
    the [Stdout] and [Stderr] of the result of [Execute], also as
    [executeApplication] calls it, are at most [limit] bytes long. *)
Theorem LimitedWriter_bounded_output (limit : Z) :
  0 < limit →
  (∀ buf writes, ∃ fwd,
      W (write_all (mkLimitedWriter buf limit) writes).1 = buf ++ fwd
      ∧ Z.of_nat (length fwd) ≤ limit)
  ∧ (∀ l p, N l ≤ 0 → Write l p = (l, 0, Some ErrShortWrite))
  ∧ (∀ l ps, N l ≤ 0 →
       write_all l ps = (l, (λ _, (0, Some ErrShortWrite)) <$> ps))
  ∧ (∀ e cfg env, cfg.(Config.OutputLimit) = limit →
       let r := (Execute e cfg env).1.2 in
       Z.of_nat (String.length r.(ExecutionResult.Stdout)) ≤ limit
       ∧ Z.of_nat (String.length r.(ExecutionResult.Stderr)) ≤ limit)
  ∧ (∀ ch ex job app env,
       ch.(jobscheduler.Channel.processor).(jobscheduler.Processor.MaxOutputSize)
         = limit →
       ∃ r, (jobscheduler.executeApplication ch ex job app env).1.2 = Some r
            ∧ Z.of_nat (String.length r.(ExecutionResult.Stdout)) ≤ limit
            ∧ Z.of_nat (String.length r.(ExecutionResult.Stderr)) ≤ limit).
Proof.
  intros Hl. repeat split.
  - intros buf writes.
    destruct (write_all_budget writes (mkLimitedWriter buf limit))
      as (fwd & HW & HN & Hpos); [simpl; lia|].
    exists fwd. simpl in *. split; [assumption | lia].
  - intros l p. apply Write_exhausted.
  - intros l ps. apply write_all_exhausted.
  - subst limit. now apply Execute_output_bounded.
  - subst limit. now apply Execute_output_bounded.
  - intros ch ex job app env Hm.
    destruct (executeApplication_result ch ex job app env) as (cfg & Hc & ->).
    eexists. split; [reflexivity|]. rewrite <- Hm, <- Hc in *.
    now apply Execute_output_bounded.
Qed.

End LimitedWriter.

(** The bound at a budget of four bytes and two writes of three. *)
Lemma LimitedWriter_bounded_output_witness :
  0 < 4
  ∧ ∃ fwd,
      executor.W
        (executor.write_all (executor.mkLimitedWriter [] 4)
           [[Byte.x61; Byte.x62; Byte.x63]; [Byte.x64; Byte.x65; Byte.x66]]).1
        = [] ++ fwd
      ∧ Z.of_nat (length fwd) ≤ 4.
Proof.
  split; [lia|].
  apply (LimitedWriter_bounded_output (lib := exampleLib) 4); lia.
Defined.

(** The same run, evaluated: "abc" and then "d" are kept; the second
    call reports one byte and the third a short write. *)
Example LimitedWriter_run :
  executor.write_all (executor.mkLimitedWriter [] 4)
    [[Byte.x61; Byte.x62; Byte.x63]; [Byte.x64; Byte.x65; Byte.x66];
     [Byte.x67]]
  = (executor.mkLimitedWriter [Byte.x61; Byte.x62; Byte.x63; Byte.x64] 0,
     [(3, None); (1, None); (0, Some ErrShortWrite)]).
Proof. reflexivity. Qed.

(** ** Process registry *)

Section Registry.
Import executor.
Context `{lib : GoLib}.

Lemma elem_of_ListProcesses (e : Executor) (execID : string) :
  execID ∈ ListProcesses e ↔ is_Some (e.(processes) !! execID).
Proof.
  unfold ListProcesses. rewrite list_elem_of_fmap. split.
  - intros ([k c] & -> & Hin). apply elem_of_map_to_list in Hin. eauto.
  - intros [c Hc]. exists (execID, c). split; [reflexivity|].
    now apply elem_of_map_to_list.
Qed.

Lemma Execute_run_tracked (e : Executor) (execID : string) (cmd : Cmd.t)
    (cfg : Config.t) (env : ProcEnv) :
  is_Some (e.(processes) !! execID) →
  is_Some ((Execute_run e execID cmd cfg env).1.1.(processes) !! execID)
  ∧ delete execID (Execute_run e execID cmd cfg env).1.1.(processes)
    = delete execID e.(processes).
Proof.
  intros Hin. unfold Execute_run.
  destruct (start_result env); simpl; [done|].
  destruct (if done_first env then _ else _); simpl;
    rewrite lookup_insert_eq, delete_insert_eq; eauto.
Qed.

Lemma Execute_processes (e : Executor) (cfg : Config.t) (env : ProcEnv) :
  (Execute e cfg env).1.1.(processes)
  = delete (execID_of e env) e.(processes).
Proof.
  unfold Execute.
  pose proof (Execute_run_tracked (track e (execID_of e env) (command_of e cfg))
                (execID_of e env) (command_of e cfg) cfg env) as Hrun.
  destruct (Execute_run _ _ _ cfg env) as [[e1 r] err]. simpl in *.
  destruct Hrun as [_ ->]; [rewrite lookup_insert_eq; eauto|].
  apply delete_insert_eq.
Qed.

Lemma fold_delete_lookup {A} (m0 m : gmap string A) (k : string) :
  map_fold (λ i _ acc, delete i acc) m0 m !! k
  = (match m !! k with Some _ => None | None => m0 !! k end).
Proof.
  revert k.
  apply (map_fold_weak_ind
           (λ r m, ∀ k, r !! k
                        = (match m !! k with
                           | Some _ => None
                           | None => m0 !! k
                           end))).
  - intros k. now rewrite lookup_empty.
  - intros i x m1 r Hi IH k.
    destruct (decide (i = k)) as [->|Hne].
    + now rewrite lookup_delete_eq, lookup_insert_eq.
    + rewrite lookup_delete_ne, lookup_insert_ne by done. apply IH.
Qed.

Lemma Cleanup_processes (e : Executor) : (Cleanup e).(processes) = ∅.
Proof.
  unfold Cleanup. simpl. apply map_eq. intros k.
  rewrite fold_delete_lookup, lookup_empty.
  now destruct (processes e !! k) eqn:E.
Qed.

Lemma KillProcess_processes (e : Executor) (execID : string)
    (kill : option error) :
  (KillProcess e execID kill).1 = e.
Proof. unfold KillProcess. now destruct (processes e !! execID). Qed.

(** Between calls the registry is empty: an ID is listed only while
    the [Execute] call that made it has not returned. *)
Lemma registry_empty_between_calls (workDir : string) (calls : list call) :
  ListProcesses (foldl run_call (NewExecutor workDir) calls) = [].
Proof.
  assert (Hfold : ∀ e, e.(processes) = ∅ →
                       (foldl run_call e calls).(processes) = ∅).
  { induction calls as [|c calls IH]; intros e He; simpl; [done|].
    apply IH. destruct c as [cfg env|execID kill|]; simpl.
    - rewrite Execute_processes, He. apply delete_empty.
    - now rewrite KillProcess_processes.
    - apply Cleanup_processes. }
  unfold ListProcesses. rewrite Hfold by done. now rewrite map_to_list_empty.
Qed.

(** C10.  [Execute] tracks its execution ID before the run that
    starts the child, the ID is listed throughout that run and is not
    listed once [Execute] has returned, whatever the run did (failed
    start, normal exit, cancellation); the other entries are left as
    they were.  [KillProcess] on an ID that is not listed returns the
    not-found error and the executor is unchanged. *)
Theorem registry_tracks_in_flight (e : Executor) (cfg : Config.t)
    (env : ProcEnv) :
  let execID := execID_of e env in
  let cmd := command_of e cfg in
  let run := Execute_run (track e execID cmd) execID cmd cfg env in
  Execute e cfg env = (untrack run.1.1 execID, run.1.2, run.2)
  ∧ execID ∈ ListProcesses (track e execID cmd)
  ∧ execID ∈ ListProcesses run.1.1
  ∧ (execID ∉ ListProcesses (Execute e cfg env).1.1)
  ∧ (Execute e cfg env).1.1.(processes) = delete execID e.(processes)
  ∧ ∀ id kill,
      id ∉ ListProcesses e →
      KillProcess e id kill
      = (e, Some (errorString ("process " +:+ id +:+ " not found"))).
Proof.
  intros execID cmd run.
  assert (Htracked : is_Some ((track e execID cmd).(processes) !! execID)).
  { simpl. rewrite lookup_insert_eq. eauto. }
  repeat split.
  - unfold Execute. fold execID cmd run. now destruct run as [[e1 r] err].
  - now apply elem_of_ListProcesses.
  - apply elem_of_ListProcesses.
    now apply (Execute_run_tracked _ execID cmd cfg env).
  - rewrite elem_of_ListProcesses, Execute_processes.
    fold execID. rewrite lookup_delete_eq. now intros [? ?].
  - apply Execute_processes.
  - intros id kill Hid. unfold KillProcess.
    destruct (processes e !! id) eqn:E; [|reflexivity].
    exfalso. apply Hid, elem_of_ListProcesses. eauto.
Qed.

End Registry.

(** The registry of a fresh executor lists nothing, so killing any ID
    there is the not-found case. *)
Lemma registry_tracks_in_flight_witness :
  ("exec_1_0" ∉ executor.ListProcesses (executor.NewExecutor "/w"))
  ∧ executor.KillProcess (executor.NewExecutor "/w") "exec_1_0" None
    = (executor.NewExecutor "/w",
       Some (errorString "process exec_1_0 not found")).
Proof.
  assert (Hid : "exec_1_0" ∉ executor.ListProcesses (executor.NewExecutor "/w"))
    by (vm_compute; apply not_elem_of_nil).
  split; [exact Hid|].
  apply (registry_tracks_in_flight (lib := exampleLib)
           (executor.NewExecutor "/w") exampleCfg (env_exits None)).
  exact Hid.
Defined.

(** ** Result of Execute *)

Section ExecuteResult.
Import executor.
Context `{lib : GoLib}.

(** The child ran to the end and exited with a non-zero status: the
    result carries that status and the error is not nil. *)
Lemma Execute_nonzero_exit (e : Executor) (cfg : Config.t) (env : ProcEnv)
    (code : Z) :
  env.(start_result) = None →
  env.(done_first) = true →
  env.(wait_result) = Some (ExitError (Exited code)) →
  (Execute e cfg env).1.2.(ExecutionResult.ExitCode) = code
  ∧ (Execute e cfg env).2
    = Some (errorString ("execution failed: exit status " +:+ pretty code)).
Proof.
  intros Hs Hd Hw. unfold Execute, Execute_run. rewrite Hs, Hd, Hw.
  simpl. split; reflexivity.
Qed.

(** The interrupt could not be delivered and the kill failed too. *)
Lemma Execute_signal_and_kill_fail (e : Executor) (cfg : Config.t)
    (env : ProcEnv) (serr : error) (msg : string) :
  env.(start_result) = None →
  env.(done_first) = false →
  env.(signal_result) = Some serr →
  env.(kill_result) = Some (errorString msg) →
  (Execute e cfg env).1.2.(ExecutionResult.ExitCode) = -1
  ∧ (Execute e cfg env).2 = Some (errorString ("execution failed: " +:+ msg)).
Proof.
  intros Hs Hd Hsig Hk. unfold Execute, Execute_run, handleTimeout, forceKill.
  rewrite Hs, Hd. simpl. rewrite Hsig, Hk. simpl. split; reflexivity.
Qed.

(** Once the child has started, the result holds what was captured,
    with or without an error. *)
Lemma Execute_output_returned (e : Executor) (cfg : Config.t) (env : ProcEnv) :
  env.(start_result) = None →
  let r := (Execute e cfg env).1.2 in
  r.(ExecutionResult.Stdout)
    = string_of_list_byte (capture cfg.(Config.OutputLimit) env.(stdout_writes))
  ∧ r.(ExecutionResult.Stderr)
    = string_of_list_byte (capture cfg.(Config.OutputLimit) env.(stderr_writes)).
Proof.
  intros Hs. unfold Execute, Execute_run. rewrite Hs.
  destruct (if done_first env then _ else _); simpl; split; reflexivity.
Qed.

(** C5, the path that departs from the claim.  When [Start] fails,
    [Execute] returns from line 125 with the result as it was
    allocated: [ExitCode] is 0, not -1, next to a non-nil error. *)
Theorem Execute_spawn_failure_ExitCode (e : Executor) (cfg : Config.t)
    (env : ProcEnv) (err : error) :
  env.(start_result) = Some err →
  (Execute e cfg env).1.2.(ExecutionResult.ExitCode) = 0
  ∧ (Execute e cfg env).2
    = Some (errorString ("failed to start process: " +:+ Error err)).
Proof.
  intros Hs. unfold Execute, Execute_run. rewrite Hs. simpl.
  split; reflexivity.
Qed.

(** When the interrupt cannot be delivered and the kill succeeds,
    [Execute] reports exit code 0 and no error at all. *)
Lemma Execute_signal_fails_kill_succeeds (e : Executor) (cfg : Config.t)
    (env : ProcEnv) (serr : error) :
  env.(start_result) = None →
  env.(done_first) = false →
  env.(signal_result) = Some serr →
  env.(kill_result) = None →
  (Execute e cfg env).1.2.(ExecutionResult.ExitCode) = 0
  ∧ (Execute e cfg env).2 = None.
Proof.
  intros Hs Hd Hsig Hk. unfold Execute, Execute_run, handleTimeout, forceKill.
  rewrite Hs, Hd. simpl. rewrite Hsig, Hk. simpl. split; reflexivity.
Qed.

(** [Execute] never returns one of the context sentinels: its error
    is nil or a freshly formatted message. *)
Lemma Execute_error_is_message (e : Executor) (cfg : Config.t) (env : ProcEnv) :
  (Execute e cfg env).2 = None
  ∨ ∃ msg, (Execute e cfg env).2 = Some (errorString msg).
Proof.
  unfold Execute, Execute_run.
  destruct (start_result env); simpl; [right; eauto|].
  destruct (if done_first env then _ else _); simpl; [right; eauto | now left].
Qed.

End ExecuteResult.

(** The parts of the result that are as documented: a child that
    writes "hi" and exits with status 3, and a cancellation where
    neither the interrupt nor the kill gets through. *)
Example Execute_exit_status_3 :
  let r := executor.Execute (lib := exampleLib) (executor.NewExecutor "/w")
             exampleCfg (env_exits (Some 3)) in
  r.1.2.(executor.ExecutionResult.ExitCode) = 3
  ∧ r.1.2.(executor.ExecutionResult.Stdout) = "hi"
  ∧ r.2 = Some (errorString "execution failed: exit status 3").
Proof. vm_compute. repeat split. Qed.

Example Execute_signal_and_kill_fail_run :
  let r := executor.Execute (lib := exampleLib) (executor.NewExecutor "/w")
             exampleCfg
             (env_signal_fails
                (Some (errorString "os: process already finished"))) in
  r.1.2.(executor.ExecutionResult.ExitCode) = -1
  ∧ r.2 = Some (errorString
                  "execution failed: os: process already finished").
Proof. vm_compute. repeat split. Qed.

(** A missing executable: exit code 0 with the start error. *)
Lemma Execute_spawn_failure_ExitCode_witness :
  (executor.Execute (lib := exampleLib) (executor.NewExecutor "/w")
     exampleCfg env_spawn_fails).1.2.(executor.ExecutionResult.ExitCode) = 0
  ∧ (executor.Execute (lib := exampleLib) (executor.NewExecutor "/w")
       exampleCfg env_spawn_fails).2
    = Some (errorString
              ("failed to start process: " +:+
               "fork/exec /bin/nope: no such file or directory")).
Proof.
  apply (Execute_spawn_failure_ExitCode (lib := exampleLib)
           (executor.NewExecutor "/w") exampleCfg env_spawn_fails
           (errorString "fork/exec /bin/nope: no such file or directory")).
  reflexivity.
Defined.

(** ** Terminal status of a job *)

Section ProcessJob.
Import jobscheduler.
Context `{lib : GoLib}.

(** The terminal status and error text are a function of that error. *)
Lemma processJob_status (ch : Channel.t) (ex : executor.Executor)
    (log : File.t) (job : JobPayload.t) (env : JobEnv) :
  let job' := (processJob ch ex log job env).2 in
  match job_error ch ex job env with
  | None => job'.(JobPayload.Status) = JobStatusComplete
            ∧ job'.(JobPayload.Error) = job.(JobPayload.Error)
  | Some e =>
      if is_DeadlineExceeded e
      then job'.(JobPayload.Status) = JobStatusTimedOut
           ∧ job'.(JobPayload.Error)
             = "job timed out after " +:+ Duration_String ch.(Channel.Timeout)
      else job'.(JobPayload.Status) = JobStatusFailed
           ∧ job'.(JobPayload.Error) = Error e
  end.
Proof.
  unfold processJob, job_error. simpl.
  destruct (JobPayload.Application job) as [app|].
  - destruct (executeApplication ch ex _ app (proc_env env)) as [[ex' r] err].
    simpl. destruct err as [e|]; [|now split].
    destruct (is_DeadlineExceeded e); now split.
  - unfold processRegularJob. simpl.
    destruct (regular_done env) as [d|]; simpl; [|now split].
    destruct d; now split.
Qed.

(** A payload-only job whose context deadline fires first ends
    [timed_out] with the timeout message. *)
Lemma processJob_regular_timed_out (ch : Channel.t) (ex : executor.Executor)
    (log : File.t) (job : JobPayload.t) (env : JobEnv) :
  job.(JobPayload.Application) = None →
  env.(regular_done) = Some DeadlineFired →
  let job' := (processJob ch ex log job env).2 in
  job'.(JobPayload.Status) = JobStatusTimedOut
  ∧ job'.(JobPayload.Error)
    = "job timed out after " +:+ Duration_String ch.(Channel.Timeout).
Proof.
  intros Happ Hd. pose proof (processJob_status ch ex log job env) as Hs.
  unfold job_error in Hs. now rewrite Happ, Hd in Hs.
Qed.

(** C1, the path that departs from the claim.  An application job
    never ends [timed_out], whatever happens to its context and its
    process: [Execute] hands back nil or a formatted message, which
    is not [context.DeadlineExceeded], so [processJob] ends the job
    [complete], or [failed] with that message as [Error]. *)
Theorem processJob_application_not_timed_out (ch : Channel.t)
    (ex : executor.Executor) (log : File.t) (job : JobPayload.t)
    (app : ApplicationConfig.t) (env : JobEnv) :
  job.(JobPayload.Application) = Some app →
  let job' := (processJob ch ex log job env).2 in
  job'.(JobPayload.Status) ≠ JobStatusTimedOut
  ∧ (job'.(JobPayload.Status) = JobStatusComplete
     ∨ job'.(JobPayload.Status) = JobStatusFailed
       ∧ ∃ msg, job'.(JobPayload.Error) = msg
                ∧ job_error ch ex job env = Some (errorString msg)).
Proof.
  intros Happ. pose proof (processJob_status ch ex log job env) as Hs.
  remember (job_error ch ex job env) as oe eqn:Hoe.
  assert (Hmsg : oe = None ∨ ∃ msg, oe = Some (errorString msg)).
  { subst oe. unfold job_error. rewrite Happ.
    destruct (executeApplication_result ch ex
                (JobPayload.set_StartTime
                   (JobPayload.set_Status job JobStatusRunning)
                   (now_running env)) app (proc_env env)) as (cfg & _ & ->).
    simpl. apply Execute_error_is_message. }
  simpl in *. destruct Hmsg as [->|[msg ->]]; simpl in Hs.
  - destruct Hs as [-> _]. split; [discriminate | now left].
  - destruct Hs as [-> ->]. split; [discriminate|]. right. eauto.
Qed.

(** [processJob] assigns [complete], [timed_out] or [failed] and
    nothing else; [cancelled] is never assigned. *)
Lemma processJob_terminal_status (ch : Channel.t) (ex : executor.Executor)
    (log : File.t) (job : JobPayload.t) (env : JobEnv) :
  let st := (processJob ch ex log job env).2.(JobPayload.Status) in
  (st = JobStatusComplete ∨ st = JobStatusTimedOut ∨ st = JobStatusFailed)
  ∧ st ≠ JobStatusCancelled.
Proof.
  pose proof (processJob_status ch ex log job env) as Hs. simpl in *.
  destruct (job_error ch ex job env) as [e|].
  - destruct (is_DeadlineExceeded e); destruct Hs as [-> _];
      (split; [auto | discriminate]).
  - destruct Hs as [-> _]. split; [auto | discriminate].
Qed.

(** C2, the path that departs from the claim.  A payload-only job
    that is inside [processJob] when the root context is cancelled
    gets [context.Canceled] from [processRegularJob]; that is not the
    deadline error, so the job ends [failed] with "context canceled",
    not [cancelled]. *)
Theorem processJob_shutdown_cancel_failed (ch : Channel.t)
    (ex : executor.Executor) (log : File.t) (job : JobPayload.t)
    (env : JobEnv) :
  job.(JobPayload.Application) = None →
  env.(regular_done) = Some ParentCancelled →
  let job' := (processJob ch ex log job env).2 in
  job'.(JobPayload.Status) = JobStatusFailed
  ∧ job'.(JobPayload.Error) = "context canceled"
  ∧ job'.(JobPayload.Status) ≠ JobStatusCancelled.
Proof.
  intros Happ Hd. pose proof (processJob_status ch ex log job env) as Hs.
  unfold job_error in Hs. rewrite Happ, Hd in Hs. simpl in *.
  destruct Hs as [-> ->]. repeat split. discriminate.
Qed.

(** What [run_processJob] leaves alone: the statistics, the
    configuration, the root context and the wait group. *)
Lemma run_processJob_frame (s s' : Scheduler) (name : string)
    (job job' : JobPayload.t) (env : JobEnv) :
  run_processJob s name job env = Some (s', job') →
  s'.(stats) = s.(stats) ∧ s'.(config) = s.(config)
  ∧ s'.(cancelled) = s.(cancelled) ∧ s'.(wg) = s.(wg)
  ∧ ∃ ch, s.(channels) !! name = Some ch
          ∧ job' = (processJob ch s.(executor) s.(processLog) job env).2.
Proof.
  unfold run_processJob. intros Hrun.
  destruct (channels s !! name) as [ch|] eqn:Hch; simpl in Hrun; [|done].
  destruct (processJob ch (executor s) (processLog s) job env)
    as [[[ch' ex'] log'] j'] eqn:Hp.
  inversion Hrun; subst; clear Hrun. simpl.
  do 4 (split; [reflexivity|]). exists ch. now rewrite Hp.
Qed.

(** C3, as the code has it.  Processing a job changes no statistics
    record: also when the job ends [failed] or [timed_out], the
    channel's [FailedJobs] is what it was. *)
Theorem processJob_leaves_FailedJobs (s s' : Scheduler) (name : string)
    (job job' : JobPayload.t) (env : JobEnv) :
  run_processJob s name job env = Some (s', job') →
  s'.(stats) = s.(stats)
  ∧ FailedJobs_of s' name = FailedJobs_of s name.
Proof.
  intros Hrun. destruct (run_processJob_frame _ _ _ _ _ _ Hrun) as (Hst & _).
  unfold FailedJobs_of. now rewrite Hst.
Qed.

End ProcessJob.

Section ProcessJobExamples.
Import jobscheduler.

(** The job of the timeout scenario, ["sleep 1"] under 100 ms: the
    deadline fires, the child is interrupted, and the job ends
    [failed]. *)
Example processJob_sleep_job_failed :
  let job' := (processJob (lib := exampleLib) ch_c ex0 log0 job_j3
                 (jobEnv (Some DeadlineFired) env_interrupted)).2 in
  job'.(JobPayload.Status) = "failed"
  ∧ job'.(JobPayload.Error) = "execution failed: signal: interrupt".
Proof. vm_compute. split; reflexivity. Qed.

(** The same run through the general statement. *)
Lemma processJob_application_not_timed_out_witness :
  (processJob (lib := exampleLib) ch_c ex0 log0 job_j3
     (jobEnv (Some DeadlineFired) env_interrupted)).2.(JobPayload.Status)
  ≠ JobStatusTimedOut.
Proof.
  exact (proj1 (processJob_application_not_timed_out (lib := exampleLib)
                  ch_c ex0 log0 job_j3
                  (ApplicationConfig.mk "sleep" "sleep" ["1"] ∅ "" false)
                  (jobEnv (Some DeadlineFired) env_interrupted) eq_refl)).
Defined.

(** The payload-only job of channel "a", with the root context
    cancelled while it is being processed. *)
Lemma processJob_shutdown_cancel_failed_witness :
  (processJob (lib := exampleLib) ch_a ex0 log0 job_j1
     (jobEnv (Some ParentCancelled) (env_exits None))).2.(JobPayload.Status)
  = JobStatusFailed.
Proof.
  exact (proj1 (processJob_shutdown_cancel_failed (lib := exampleLib)
                  ch_a ex0 log0 job_j1
                  (jobEnv (Some ParentCancelled) (env_exits None))
                  eq_refl eq_refl)).
Defined.

(** The payload-only job submitted, received and processed with its
    50 ms deadline firing: it ends [timed_out], and [FailedJobs] of
    its channel is still 0 next to [TotalJobs = 1]. *)
Lemma processJob_leaves_FailedJobs_witness :
  let r := run_processJob (lib := exampleLib) s_received "a"
             (pending_job job_j1 5)
             (jobEnv (Some DeadlineFired) (env_exits None)) in
  FailedJobs_of (scheduler_after r) "a" = FailedJobs_of s_received "a"
  ∧ (job_after r).(JobPayload.Status) = JobStatusTimedOut
  ∧ FailedJobs_of (scheduler_after r) "a" = 0
  ∧ TotalJobs_of (scheduler_after r) "a" = 1.
Proof.
  intros r. split.
  - apply (processJob_leaves_FailedJobs (lib := exampleLib) s_received
             (scheduler_after r) "a" (pending_job job_j1 5) (job_after r)
             (jobEnv (Some DeadlineFired) (env_exits None))).
    vm_compute. reflexivity.
  - vm_compute. repeat split.
Defined.

End ProcessJobExamples.

(** ** Submission *)

Section Submit.
Import jobscheduler.

Lemma Config_Validate_ok (c : Config.t) :
  Config.Validate c = None →
  1 ≤ c.(Config.DefaultWorkers) ∧ Second ≤ c.(Config.DefaultTimeout)
  ∧ 1 ≤ c.(Config.ChannelBufferSize).
Proof.
  unfold Config.Validate. intros Hv.
  repeat match type of Hv with
         | (if ?b then _ else _) = None =>
             destruct b eqn:?; [discriminate Hv|]
         end.
  lia.
Qed.

Lemma NewScheduler_wf (cfg : Config.t) (mkdir open mkdir_exec : option error)
    (old_lines : list string) (s : Scheduler) :
  NewScheduler cfg mkdir open mkdir_exec old_lines = inr s → wf s.
Proof.
  unfold NewScheduler. intros Hn.
  destruct (Config.Validate cfg) eqn:Hv; [discriminate|].
  destruct mkdir; [discriminate|]. destruct open; [discriminate|].
  destruct mkdir_exec; [discriminate|].
  inversion Hn; subst; clear Hn. split; simpl; [assumption | | done |].
  - intros name ch Hch. now rewrite lookup_empty in Hch.
  - intros name st Hst. now rewrite lookup_empty in Hst.
Qed.

Lemma int64_incr_range (x : Z) : - 2 ^ 63 ≤ int64_incr x < 2 ^ 63.
Proof.
  unfold int64_incr.
  pose proof (Z.mod_pos_bound (x + 1 + 2 ^ 63) (2 ^ 64) ltac:(lia)). lia.
Qed.

Lemma int64_incr_exact (x : Z) :
  - 2 ^ 63 ≤ x < 2 ^ 63 - 1 → int64_incr x = x + 1.
Proof.
  intros Hx. unfold int64_incr. rewrite Z.mod_small; lia.
Qed.

(** [getOrCreateChannel] on a name that is registered. *)
Lemma getOrCreateChannel_existing (s : Scheduler) (job : JobPayload.t)
    (ch : Channel.t) :
  s.(channels) !! job.(JobPayload.Channel) = Some ch →
  getOrCreateChannel s job = Some (s, ch).
Proof. unfold getOrCreateChannel. now intros ->. Qed.

(** [getOrCreateChannel] on a new name, under a valid configuration. *)
Lemma getOrCreateChannel_new (s : Scheduler) (job : JobPayload.t) :
  Config.Validate s.(config) = None →
  s.(channels) !! job.(JobPayload.Channel) = None →
  getOrCreateChannel s job
  = Some (mkScheduler s.(config) s.(executor)
            (<[job.(JobPayload.Channel) := created_channel s job]> s.(channels))
            (<[job.(JobPayload.Channel) := ChannelStats.zero]> s.(stats))
            s.(processLog) s.(cancelled) (s.(wg) + 1),
          created_channel s job)
  ∧ 1 ≤ (created_channel s job).(Channel.Workers).
Proof.
  intros Hv Hnone. apply Config_Validate_ok in Hv as (Hw & Ht & Hb).
  unfold getOrCreateChannel, created_channel, NewProcessor. rewrite Hnone.
  destruct (Config.ChannelBufferSize (config s) <? 0) eqn:Eb; [lia|].
  simpl.
  destruct (JobPayload.Workers job <=? 0) eqn:Ew,
           (0 <? JobPayload.Workers job) eqn:Ew'; try lia;
  destruct (JobPayload.Timeout job <=? 0) eqn:Et,
           (0 <? JobPayload.Timeout job) eqn:Et'; try lia;
  match goal with
  | |- context [?w <? 0] => destruct (w <? 0) eqn:?; [lia|]
  end; simpl; (split; [reflexivity | lia]).
Qed.

Lemma SubmitJob_invalid (s : Scheduler) (job : JobPayload.t) (t1 t2 : Z)
    (err : error) :
  JobPayload.Validate job = Some err →
  SubmitJob s job t1 t2 = Some (s, Some (Errorf "invalid job payload: " err)).
Proof. unfold SubmitJob. now intros ->. Qed.

(** The three outcomes of [SubmitJob] for a valid job. *)
Lemma SubmitJob_full (s : Scheduler) (job : JobPayload.t) (t1 t2 : Z)
    (ch : Channel.t) :
  JobPayload.Validate job = None →
  s.(channels) !! job.(JobPayload.Channel) = Some ch →
  ch.(Channel.Jobs_cap) ≤ Z.of_nat (length ch.(Channel.Jobs)) →
  SubmitJob s job t1 t2
  = Some (s, Some (errorString
                     ("channel " +:+ job.(JobPayload.Channel) +:+ " is full"))).
Proof.
  intros Hv Hch Hfull. unfold SubmitJob. rewrite Hv.
  rewrite (getOrCreateChannel_existing _ _ _ Hch). simpl.
  unfold try_send.
  destruct (Z.of_nat (length (Channel.Jobs ch)) <? Channel.Jobs_cap ch) eqn:E;
    [lia | reflexivity].
Qed.

Lemma SubmitJob_existing (s : Scheduler) (job : JobPayload.t) (t1 t2 : Z)
    (ch : Channel.t) (st : ChannelStats.t) :
  JobPayload.Validate job = None →
  s.(channels) !! job.(JobPayload.Channel) = Some ch →
  s.(stats) !! job.(JobPayload.Channel) = Some st →
  Z.of_nat (length ch.(Channel.Jobs)) < ch.(Channel.Jobs_cap) →
  SubmitJob s job t1 t2
  = Some (mkScheduler s.(config) s.(executor)
            (<[job.(JobPayload.Channel) :=
                 Channel.set_Jobs ch (ch.(Channel.Jobs) ++ [pending_job job t1])]>
               s.(channels))
            (<[job.(JobPayload.Channel) := counted st t2]> s.(stats))
            s.(processLog) s.(cancelled) s.(wg),
          None).
Proof.
  intros Hv Hch Hst Hroom. unfold SubmitJob. rewrite Hv.
  rewrite (getOrCreateChannel_existing _ _ _ Hch). simpl.
  unfold try_send.
  destruct (Z.of_nat (length (Channel.Jobs ch)) <? Channel.Jobs_cap ch) eqn:E;
    [|lia].
  unfold updateStatsForNewJob. simpl. rewrite Hst. reflexivity.
Qed.

Lemma SubmitJob_new (s : Scheduler) (job : JobPayload.t) (t1 t2 : Z) :
  Config.Validate s.(config) = None →
  JobPayload.Validate job = None →
  s.(channels) !! job.(JobPayload.Channel) = None →
  SubmitJob s job t1 t2
  = Some (mkScheduler s.(config) s.(executor)
            (<[job.(JobPayload.Channel) :=
                 Channel.set_Jobs (created_channel s job) [pending_job job t1]]>
               s.(channels))
            (<[job.(JobPayload.Channel) := counted ChannelStats.zero t2]>
               s.(stats))
            s.(processLog) s.(cancelled) (s.(wg) + 1),
          None).
Proof.
  intros Hc Hv Hch. unfold SubmitJob. rewrite Hv.
  destruct (getOrCreateChannel_new s job Hc Hch) as [-> _]. simpl.
  apply Config_Validate_ok in Hc as (_ & _ & Hb).
  unfold try_send. simpl.
  replace (Z.of_nat 0 <? Config.ChannelBufferSize (config s)) with true
    by (symmetry; apply Z.ltb_lt; change (Z.of_nat 0) with 0; lia).
  unfold updateStatsForNewJob. simpl. rewrite lookup_insert_eq. simpl.
  now rewrite !insert_insert_eq.
Qed.

(** Registering or replacing one channel together with its
    statistics record keeps a scheduler well formed. *)
Lemma wf_register (s : Scheduler) (name : string) (ch : Channel.t)
    (st : ChannelStats.t) (ex : executor.Executor) (log : File.t)
    (c : bool) (w : Z) :
  wf s →
  ch.(Channel.Name) = name →
  ch.(Channel.Jobs_cap) = s.(config).(Config.ChannelBufferSize) →
  Z.of_nat (length ch.(Channel.Jobs)) ≤ ch.(Channel.Jobs_cap) →
  ch.(Channel.processor).(Processor.workerPool_cap) = ch.(Channel.Workers) →
  - 2 ^ 63 ≤ st.(ChannelStats.TotalJobs) < 2 ^ 63 →
  wf (mkScheduler s.(config) ex (<[name := ch]> s.(channels))
        (<[name := st]> s.(stats)) log c w).
Proof.
  intros [Hc Hchs Hsts Hint] Hn Hcap Hlen Hpool Hst.
  split; simpl; [assumption | | |].
  - intros name' ch' Hl. destruct (decide (name = name')) as [<-|Hne].
    + rewrite lookup_insert_eq in Hl. inversion Hl; subst ch'; clear Hl.
      split; simpl; try assumption. rewrite lookup_insert_eq. eauto.
    + rewrite lookup_insert_ne in Hl by done.
      destruct (Hchs name' ch' Hl) as [? ? ? ? ?].
      split; simpl; try assumption. now rewrite lookup_insert_ne.
  - intros name' Hl. destruct (decide (name = name')) as [<-|Hne].
    + now rewrite lookup_insert_eq in Hl.
    + rewrite lookup_insert_ne in Hl by done.
      rewrite lookup_insert_ne by done. now apply Hsts.
  - intros name' st' Hl. destruct (decide (name = name')) as [<-|Hne].
    + rewrite lookup_insert_eq in Hl. now inversion Hl; subst.
    + rewrite lookup_insert_ne in Hl by done. now apply (Hint name').
Qed.

(** [SubmitJob] does not panic on a well-formed scheduler and keeps it
    well formed. *)
Lemma SubmitJob_wf (s : Scheduler) (job : JobPayload.t) (t1 t2 : Z) :
  wf s → ∃ s' err, SubmitJob s job t1 t2 = Some (s', err) ∧ wf s'.
Proof.
  intros Hwf. destruct (JobPayload.Validate job) as [e|] eqn:Hv.
  { rewrite (SubmitJob_invalid _ _ _ _ _ Hv). eauto. }
  destruct (channels s !! JobPayload.Channel job) as [ch|] eqn:Hch.
  - destruct (wf_channels s Hwf _ _ Hch) as [Hn Hcap Hlen Hpool [st Hst]].
    destruct (Z_lt_le_dec (Z.of_nat (length (Channel.Jobs ch)))
                (Channel.Jobs_cap ch)) as [Hroom|Hfull].
    + rewrite (SubmitJob_existing _ _ _ _ _ _ Hv Hch Hst Hroom).
      do 2 eexists. split; [reflexivity|].
      apply wf_register; simpl;
        first [assumption | apply int64_incr_range
              | rewrite length_app; simpl; lia].
    + rewrite (SubmitJob_full _ _ _ _ _ Hv Hch Hfull). eauto.
  - rewrite (SubmitJob_new _ _ _ _ (wf_config s Hwf) Hv Hch).
    do 2 eexists. split; [reflexivity|].
    pose proof (Config_Validate_ok _ (wf_config s Hwf)) as (_ & _ & Hb).
    apply wf_register; simpl; first [done | lia | apply int64_incr_range].
Qed.

(** So do the receive of the dispatch loop, a [processJob] call and
    [Shutdown]. *)
Lemma receive_wf (s s' : Scheduler) (name : string) (job : JobPayload.t) :
  wf s → receive s name = Some (s', job) → wf s'.
Proof.
  intros Hwf. unfold receive.
  destruct (channels s !! name) as [ch|] eqn:Hch; simpl; [|done].
  destruct (wf_channels s Hwf _ _ Hch) as [Hn Hcap Hlen Hpool [st Hst]].
  destruct (Channel.Jobs ch) as [|j q] eqn:Hq; [done|].
  intros Hr. inversion Hr; subst s' job; clear Hr.
  rewrite <- (insert_id (stats s) name st Hst).
  apply wf_register; simpl; try assumption.
  - simpl in Hlen. lia.
  - now apply (wf_int64 s Hwf name).
Qed.

Lemma run_processJob_wf `{lib : GoLib} (s s' : Scheduler) (name : string)
    (job job' : JobPayload.t) (env : JobEnv) :
  wf s → run_processJob s name job env = Some (s', job') → wf s'.
Proof.
  intros Hwf. unfold run_processJob.
  destruct (channels s !! name) as [ch|] eqn:Hch; simpl; [|done].
  destruct (wf_channels s Hwf _ _ Hch) as [Hn Hcap Hlen Hpool [st Hst]].
  destruct (processJob ch (executor s) (processLog s) job env)
    as [[[ch' ex'] log'] j'] eqn:Hp.
  intros Hr. inversion Hr; subst s' job'; clear Hr.
  assert (Hch' : ch' = Channel.set_processor ch (Channel.processor ch')).
  { unfold processJob in Hp. simpl in Hp.
    destruct (JobPayload.Application job) as [app|].
    - destruct (executeApplication ch (executor s) _ app (proc_env env))
        as [[ex1 r1] err1].
      inversion Hp; subst. reflexivity.
    - inversion Hp; subst. reflexivity. }
  assert (Hcap' : Processor.workerPool_cap (Channel.processor ch')
                  = Processor.workerPool_cap (Channel.processor ch)).
  { unfold processJob in Hp. simpl in Hp.
    destruct (JobPayload.Application job) as [app|].
    - destruct (executeApplication ch (executor s) _ app (proc_env env))
        as [[ex1 r1] err1].
      inversion Hp; subst. reflexivity.
    - inversion Hp; subst. reflexivity. }
  rewrite <- (insert_id (stats s) name st Hst).
  apply wf_register; try assumption.
  - now rewrite Hch'.
  - now rewrite Hch'.
  - now rewrite Hch'.
  - rewrite Hcap', Hch'. assumption.
  - now apply (wf_int64 s Hwf name).
Qed.

Lemma Shutdown_wf (s : Scheduler) (os_close : option error) :
  wf s → wf (Shutdown s os_close).1.
Proof.
  intros [Hc Hchs Hsts Hint]. unfold Shutdown.
  destruct (File.Close (processLog s) os_close) as [log err].
  assert (Hwf : ∀ ex c,
             wf (mkScheduler (config s) ex (channels s) (stats s) log c (wg s))).
  { intros ex c. split; simpl; try assumption.
    intros name ch Hch. destruct (Hchs name ch Hch). now split. }
  destruct err; apply Hwf.
Qed.

Lemma submit_all_wf (jobs : list (JobPayload.t * Z * Z)) :
  ∀ s, wf s → ∃ s', submit_all s jobs = Some s' ∧ wf s'.
Proof.
  induction jobs as [|[[job t1] t2] jobs IH]; intros s Hwf; simpl; [eauto|].
  destruct (SubmitJob_wf s job t1 t2 Hwf) as (s1 & err & -> & Hwf1).
  simpl. now apply IH.
Qed.

(** C4.  For a valid job on a well-formed scheduler the queue of the
    job's channel holds at most [ChannelBufferSize] jobs.  If it holds
    exactly that many, [SubmitJob] returns the "channel ... is full"
    error and the scheduler is unchanged: nothing is enqueued and
    [TotalJobs] and [LastJobTime] are what they were.  If it holds
    fewer, [SubmitJob] returns nil, the pending job is at the back of
    the queue, [TotalJobs] has been incremented (by exactly one below
    the largest [int64]) and [LastJobTime] is the time read.  A nil
    result only arises in the second case. *)
Theorem SubmitJob_admission (s : Scheduler) (job : JobPayload.t) (t1 t2 : Z) :
  wf s →
  JobPayload.Validate job = None →
  let name := job.(JobPayload.Channel) in
  let cap := s.(config).(Config.ChannelBufferSize) in
  Z.of_nat (length (queue_of s name)) ≤ cap
  ∧ (Z.of_nat (length (queue_of s name)) = cap →
     SubmitJob s job t1 t2
     = Some (s, Some (errorString ("channel " +:+ name +:+ " is full"))))
  ∧ (Z.of_nat (length (queue_of s name)) < cap →
     ∃ s', SubmitJob s job t1 t2 = Some (s', None)
           ∧ queue_of s' name = queue_of s name ++ [pending_job job t1]
           ∧ TotalJobs_of s' name = int64_incr (TotalJobs_of s name)
           ∧ (TotalJobs_of s name < 2 ^ 63 - 1 →
              TotalJobs_of s' name = TotalJobs_of s name + 1)
           ∧ LastJobTime_of s' name = t2)
  ∧ (∀ s', SubmitJob s job t1 t2 = Some (s', None) →
           Z.of_nat (length (queue_of s name)) < cap).
Proof.
  intros Hwf Hv name cap.
  pose proof (Config_Validate_ok _ (wf_config s Hwf)) as (_ & _ & Hb).
  unfold queue_of, TotalJobs_of, LastJobTime_of.
  destruct (channels s !! name) as [ch|] eqn:Hch.
  - destruct (wf_channels s Hwf _ _ Hch) as [Hn Hcap Hlen Hpool [st Hst]].
    pose proof (wf_int64 s Hwf _ _ Hst) as Hrange.
    fold cap in Hcap. rewrite Hcap in Hlen.
    split; [assumption|]. split; [|split].
    + intros Hfull. apply (SubmitJob_full _ _ _ _ ch); [assumption.. | lia].
    + intros Hroom.
      rewrite (SubmitJob_existing _ _ _ _ ch st) by (assumption || lia).
      eexists. split; [reflexivity|]. simpl. fold name.
      rewrite !lookup_insert_eq, Hst. simpl.
      repeat split. intros Hlt. apply int64_incr_exact. lia.
    + intros s' Hs'.
      destruct (Z_lt_le_dec (Z.of_nat (length (Channel.Jobs ch))) cap)
        as [Hroom|Hfull]; [assumption|].
      rewrite (SubmitJob_full _ _ _ _ ch) in Hs' by (assumption || lia).
      discriminate.
  - pose proof (wf_stats s Hwf _ Hch) as Hst. simpl.
    split; [lia|]. split; [lia|]. split; [|intros; lia].
    intros _. rewrite (SubmitJob_new _ _ _ _ (wf_config s Hwf) Hv Hch).
    eexists. split; [reflexivity|]. simpl. fold name.
    rewrite !lookup_insert_eq, Hst. simpl. repeat split.
Qed.







(** No operation of the scheduler writes [FailedJobs]: in every state
    reached from a new scheduler it is 0 for every channel, however
    many jobs ended [failed] or [timed_out]. *)
Lemma run_op_FailedJobs `{lib : GoLib} (s : Scheduler) (o : op) :
  wf s → FailedJobs_zero s →
  wf (run_op s o) ∧ FailedJobs_zero (run_op s o).
Proof.
  intros Hwf Hz. destruct o as [job t1 t2|name|name job env|c]; simpl.
  - destruct (SubmitJob_wf s job t1 t2 Hwf) as (s' & err & Hsub & Hwf').
    rewrite Hsub. split; [assumption|].
    destruct (JobPayload.Validate job) as [e|] eqn:Hv.
    { rewrite (SubmitJob_invalid _ _ _ _ _ Hv) in Hsub.
      now inversion Hsub; subst. }
    destruct (channels s !! JobPayload.Channel job) as [ch|] eqn:Hch.
    + destruct (wf_channels s Hwf _ _ Hch) as [Hn Hcap Hlen Hpool [st Hst]].
      destruct (Z_lt_le_dec (Z.of_nat (length (Channel.Jobs ch)))
                  (Channel.Jobs_cap ch)) as [Hroom|Hfull].
      * rewrite (SubmitJob_existing _ _ _ _ _ _ Hv Hch Hst Hroom) in Hsub.
        inversion Hsub; subst; clear Hsub. intros name st' Hl. simpl in Hl.
        destruct (decide (JobPayload.Channel job = name)) as [<-|Hne].
        -- rewrite lookup_insert_eq in Hl. inversion Hl; subst. simpl.
           now apply (Hz (JobPayload.Channel job)).
        -- rewrite lookup_insert_ne in Hl by done. now apply (Hz name).
      * rewrite (SubmitJob_full _ _ _ _ _ Hv Hch Hfull) in Hsub.
        now inversion Hsub; subst.
    + rewrite (SubmitJob_new _ _ _ _ (wf_config s Hwf) Hv Hch) in Hsub.
      inversion Hsub; subst; clear Hsub. intros name st' Hl. simpl in Hl.
      destruct (decide (JobPayload.Channel job = name)) as [<-|Hne].
      * rewrite lookup_insert_eq in Hl. now inversion Hl; subst.
      * rewrite lookup_insert_ne in Hl by done. now apply (Hz name).
  - destruct (receive s name) as [[s' j]|] eqn:Hr; [|now split].
    split; [now apply (receive_wf s s' name j)|].
    unfold receive in Hr.
    destruct (channels s !! name) as [ch|]; simpl in Hr; [|done].
    destruct (Channel.Jobs ch); [done|]. now inversion Hr; subst.
  - destruct (run_processJob s name job env) as [[s' j]|] eqn:Hr; [|now split].
    split; [now apply (run_processJob_wf s s' name job j env)|].
    unfold run_processJob in Hr.
    destruct (channels s !! name) as [ch|]; simpl in Hr; [|done].
    destruct (processJob ch (executor s) (processLog s) job env)
      as [[[ch' ex'] log'] j'].
    now inversion Hr; subst.
  - split; [now apply Shutdown_wf|]. unfold Shutdown.
    destruct (File.Close (processLog s) c) as [log [e|]]; exact Hz.
Qed.

Lemma FailedJobs_always_zero `{lib : GoLib} (cfg : Config.t)
    (mkdir open mkdir_exec : option error) (old_lines : list string)
    (s0 : Scheduler) (ops : list op) (name : string) :
  NewScheduler cfg mkdir open mkdir_exec old_lines = inr s0 →
  FailedJobs_of (foldl run_op s0 ops) name = 0.
Proof.
  intros Hnew.
  assert (H0 : wf s0 ∧ FailedJobs_zero s0).
  { split; [now apply NewScheduler_wf in Hnew|].
    unfold NewScheduler in Hnew.
    destruct (Config.Validate cfg); [discriminate|].
    destruct mkdir; [discriminate|]. destruct open; [discriminate|].
    destruct mkdir_exec; [discriminate|].
    inversion Hnew; subst. intros n st Hl. simpl in Hl.
    now rewrite lookup_empty in Hl. }
  clear Hnew. revert s0 H0.
  induction ops as [|o ops IH]; intros s0 [Hwf Hz]; simpl.
  - unfold FailedJobs_of. destruct (stats s0 !! name) as [st|] eqn:Hst;
      [now apply (Hz name) | reflexivity].
  - apply IH. now apply run_op_FailedJobs.
Qed.

End Submit.

Section SubmitExamples.
Import jobscheduler.

Lemma exampleScheduler_wf : wf exampleScheduler.
Proof. apply (NewScheduler_wf DefaultConfig None None None []). reflexivity. Qed.

Lemma smallScheduler_wf : wf smallScheduler.
Proof. apply (NewScheduler_wf smallConfig None None None []). reflexivity. Qed.

(** The first job on an empty queue is enqueued and counted. *)
Lemma SubmitJob_admission_witness :
  ∃ s', SubmitJob exampleScheduler job_j1 5 6 = Some (s', None)
        ∧ queue_of s' "a" = [] ++ [pending_job job_j1 5]
        ∧ TotalJobs_of s' "a" = int64_incr 0
        ∧ (0 < 2 ^ 63 - 1 → TotalJobs_of s' "a" = 0 + 1)
        ∧ LastJobTime_of s' "a" = 6.
Proof.
  apply (SubmitJob_admission exampleScheduler job_j1 5 6
           exampleScheduler_wf eq_refl).
  vm_compute. reflexivity.
Defined.

(** The queue-full scenario: the channel queues one job, the second
    submission is refused and [TotalJobs] stays 1. *)
Example SubmitJob_queue_full :
  let s1 := scheduler_after (SubmitJob smallScheduler job_j1 5 6) in
  SubmitJob s1 job_j1 7 8 = Some (s1, Some (errorString "channel a is full"))
  ∧ TotalJobs_of s1 "a" = 1 ∧ LastJobTime_of s1 "a" = 6.
Proof. vm_compute. repeat split. Qed.


(** A later job for "c" that asks for 8 workers and 1 s changes
    neither setting. *)
Example later_hints_ignored :
  let s1 := scheduler_after (SubmitJob exampleScheduler job_j3 5 6) in
  let job := JobPayload.mk "j4" "c" 8 Second [] None "" "" 0 0 in
  let s2 := scheduler_after (SubmitJob s1 job 7 8) in
  (λ ch, (ch.(Channel.Workers), ch.(Channel.Timeout))) <$> s2.(channels) !! "c"
  = Some (1, 100 * Millisecond).
Proof. vm_compute. reflexivity. Qed.

(** The queue of "c" is drained, the job runs into its deadline and
    the scheduler is shut down; a later job for "c" that asks for 8
    workers and 1 s still changes neither setting. *)
Example later_hints_ignored_after_drain :
  let job := JobPayload.mk "j4" "c" 8 Second [] None "" "" 0 0 in
  let s :=
    foldl (run_op (lib := exampleLib)) exampleScheduler
      [OpSubmitJob job_j3 5 6;
       OpReceive "c";
       OpProcessJob "c" (pending_job job_j3 5)
         (jobEnv (Some DeadlineFired) env_killed);
       OpShutdown None;
       OpSubmitJob job 7 8] in
  queue_of s "c" = [pending_job job 7]
  ∧ (λ ch, (ch.(Channel.Workers), ch.(Channel.Timeout))) <$> s.(channels) !! "c"
    = Some (1, 100 * Millisecond).
Proof. vm_compute. split; reflexivity. Qed.

End SubmitExamples.

(** ** Worker pool *)

Section WorkerPool.
Import jobscheduler.
Context `{lib : GoLib}.

Lemma processJob_processor (ch : Channel.t) (ex : executor.Executor)
    (log : File.t) (job : JobPayload.t) (env : JobEnv) :
  let ch' := (processJob ch ex log job env).1.1.1 in
  ch'.(Channel.Workers) = ch.(Channel.Workers)
  ∧ ch'.(Channel.Timeout) = ch.(Channel.Timeout)
  ∧ ch'.(Channel.Jobs) = ch.(Channel.Jobs)
  ∧ ch'.(Channel.processor).(Processor.workerPool_cap)
    = ch.(Channel.processor).(Processor.workerPool_cap)
  ∧ ch'.(Channel.processor).(Processor.workerPool)
    = ch.(Channel.processor).(Processor.workerPool)
  ∧ ch'.(Channel.processor).(Processor.activeJobs)
    = delete job.(JobPayload.ID) ch.(Channel.processor).(Processor.activeJobs).
Proof.
  unfold processJob. simpl.
  destruct (JobPayload.Application job) as [app|].
  - destruct (executeApplication ch ex _ app (proc_env env)) as [[ex' r] err].
    simpl. destruct err as [e|]; [destruct (is_DeadlineExceeded e)|];
      simpl; rewrite delete_insert_eq; repeat split.
  - destruct (processRegularJob _ env).2 as [e|];
      [destruct (is_DeadlineExceeded e)|];
      simpl; rewrite delete_insert_eq; repeat split.
Qed.

Lemma step_settings (l l' : Lane) :
  step l l' → lane_settings l' = lane_settings l.
Proof.
  unfold lane_settings.
  destruct 1 as [ch held tasks stopped job ch' Hsend | | |
                 ch job tasks ch' Hacq | |
                 ch held stopped t1 t2 job ex log env |
                 ch held stopped t1 t2 job ch' Hrel]; simpl; try reflexivity.
  - unfold try_send in Hsend.
    destruct (_ <? _) in Hsend; inversion Hsend; subst; reflexivity.
  - unfold acquire in Hacq.
    destruct (_ <? _) in Hacq; inversion Hacq; subst; reflexivity.
  - destruct (processJob_processor ch ex log job env)
      as (-> & -> & _ & -> & _). reflexivity.
  - unfold release in Hrel.
    destruct (_ <? _) in Hrel; inversion Hrel; subst; reflexivity.
Qed.

Lemma step_inv (l l' : Lane) : lane_inv l → step l l' → lane_inv l'.
Proof.
  unfold lane_inv. intros [Hpool Hcap].
  destruct 1 as [ch held tasks stopped job ch' Hsend | | |
                 ch job tasks ch' Hacq | |
                 ch held stopped t1 t2 job ex log env |
                 ch held stopped t1 t2 job ch' Hrel]; simpl in *;
    try (split; assumption).
  - unfold try_send in Hsend.
    destruct (_ <? _) in Hsend; inversion Hsend; subst. simpl. now split.
  - unfold acquire in Hacq.
    destruct (_ <? _) eqn:E in Hacq; inversion Hacq; subst. simpl.
    rewrite length_app. simpl. split; lia.
  - rewrite length_app in *. simpl in *. now split.
  - destruct (processJob_processor ch ex log job env)
      as (_ & _ & _ & -> & -> & _).
    rewrite length_app in *. simpl in *. now split.
  - unfold release in Hrel.
    destruct (_ <? _) eqn:E in Hrel; inversion Hrel; subst. simpl.
    rewrite length_app in *. simpl in *. split; lia.
Qed.

Lemma running_le_tasks (l : Lane) :
  running l ≤ Z.of_nat (length l.(lane_tasks)).
Proof.
  unfold running. pose proof (List.filter_length_le in_processJob (lane_tasks l)).
  lia.
Qed.

Lemma reachable_inv (l0 l : Lane) :
  lane_inv l0 → rtc step l0 l →
  lane_inv l ∧ lane_settings l = lane_settings l0.
Proof.
  intros H0 Hreach. revert l Hreach.
  apply (rtc_ind_r (λ l, lane_inv l ∧ lane_settings l = lane_settings l0)).
  - now split.
  - intros l1 l2 Hr Hstep [Hinv Hset]. split; [now apply (step_inv l1)|].
    now rewrite (step_settings _ _ Hstep).
Qed.

Lemma lanes_bounded (ch : Channel.t) (l : Lane) :
  ch.(Channel.processor).(Processor.workerPool) = 0 →
  0 ≤ ch.(Channel.processor).(Processor.workerPool_cap) →
  rtc step (mkLane ch None [] false) l →
  l.(lane_channel).(Channel.Workers) = ch.(Channel.Workers)
  ∧ l.(lane_channel).(Channel.processor).(Processor.workerPool)
    = Z.of_nat (length l.(lane_tasks))
  ∧ running l ≤ l.(lane_channel).(Channel.processor).(Processor.workerPool)
  ∧ l.(lane_channel).(Channel.processor).(Processor.workerPool)
    ≤ ch.(Channel.processor).(Processor.workerPool_cap).
Proof.
  intros Hzero Hcap0 Hreach.
  assert (H0 : lane_inv (mkLane ch None [] false)).
  { unfold lane_inv. simpl. rewrite Hzero. split; [reflexivity | assumption]. }
  destruct (reachable_inv _ l H0 Hreach) as [[Hpool Hcap] Hset].
  pose proof (running_le_tasks l) as Hrun.
  unfold lane_settings in Hset. simpl in Hset.
  injection Hset as Hworkers Htimeout Hpoolcap.
  repeat split; try assumption; lia.
Qed.

(** With a goroutine alive a slot is taken, and the deferred receive
    gives it back. *)
Lemma release_taken (ch : Channel.t) :
  0 < ch.(Channel.processor).(Processor.workerPool) →
  ∃ ch', release ch = Some ch'
         ∧ ch'.(Channel.processor).(Processor.workerPool)
           = ch.(Channel.processor).(Processor.workerPool) - 1.
Proof.
  intros Hpos. unfold release.
  destruct (0 <? _) eqn:E; [|lia]. eexists. split; reflexivity.
Qed.

(** Every exit path of a goroutine releases its slot: whatever
    [processJob] returns, the return step and then the deferred
    receive can be taken, and a goroutine that has returned can
    always run its deferred receive. *)
Lemma lane_releases (l : Lane) :
  lane_inv l →
  (∀ t1 t2 job ex log env,
     l.(lane_tasks) = t1 ++ (InProcessJob, job) :: t2 →
     ∃ l1 l2,
       step l l1 ∧ step l1 l2
       ∧ l1.(lane_tasks)
         = t1 ++ (Returned, (processJob l.(lane_channel) ex log job env).2) :: t2
       ∧ l2.(lane_tasks) = t1 ++ t2
       ∧ l2.(lane_channel).(Channel.processor).(Processor.workerPool)
         = l.(lane_channel).(Channel.processor).(Processor.workerPool) - 1)
  ∧ (∀ t1 t2 job,
       l.(lane_tasks) = t1 ++ (Returned, job) :: t2 →
       ∃ l2,
         step l l2
         ∧ l2.(lane_tasks) = t1 ++ t2
         ∧ l2.(lane_channel).(Channel.processor).(Processor.workerPool)
           = l.(lane_channel).(Channel.processor).(Processor.workerPool) - 1).
Proof.
  destruct l as [ch held tasks stopped]. unfold lane_inv. simpl.
  intros [Hpool Hcap]. split.
  - intros t1 t2 job ex log env ->.
    destruct (processJob_processor ch ex log job env)
      as (_ & _ & _ & _ & Hsame & _).
    destruct (release_taken (processJob ch ex log job env).1.1.1)
      as (ch' & Hrel & Hdec).
    { rewrite Hsame, Hpool, length_app. simpl. lia. }
    exists (mkLane (processJob ch ex log job env).1.1.1 held
              (t1 ++ (Returned, (processJob ch ex log job env).2) :: t2)
              stopped),
           (mkLane ch' held (t1 ++ t2) stopped).
    split; [apply step_return|]. split; [now apply step_release|].
    simpl. rewrite Hdec, Hsame. auto.
  - intros t1 t2 job ->.
    destruct (release_taken ch) as (ch' & Hrel & Hdec).
    { rewrite Hpool, length_app. simpl. lia. }
    exists (mkLane ch' held (t1 ++ t2) stopped).
    split; [now apply step_release|]. simpl. auto.
Qed.

(** C8.  A channel created under a validated configuration has
    [Workers ≥ 1] and a worker pool of that capacity with no slot
    taken.  In every state that its processor reaches, [Workers] is
    unchanged, each goroutine spawned and not yet released holds one
    slot, and the jobs inside [processJob] are among those
    goroutines: there are at most [Workers] of them.  The slot is
    given back on every exit path: whatever [processJob] returns for
    a job that is inside it (complete, failed or timed out), the
    goroutine can return and then run its deferred receive, which
    removes the goroutine and frees exactly one slot; and so can every
    goroutine that has already returned. *)
Theorem running_jobs_bounded (s s' : Scheduler) (job : JobPayload.t)
    (ch : Channel.t) :
  Config.Validate s.(config) = None →
  s.(channels) !! job.(JobPayload.Channel) = None →
  getOrCreateChannel s job = Some (s', ch) →
  1 ≤ ch.(Channel.Workers)
  ∧ ch.(Channel.processor).(Processor.workerPool_cap) = ch.(Channel.Workers)
  ∧ ch.(Channel.processor).(Processor.workerPool) = 0
  ∧ ∀ l, rtc step (mkLane ch None [] false) l →
      l.(lane_channel).(Channel.Workers) = ch.(Channel.Workers)
      ∧ l.(lane_channel).(Channel.processor).(Processor.workerPool)
        = Z.of_nat (length l.(lane_tasks))
      ∧ running l ≤ l.(lane_channel).(Channel.processor).(Processor.workerPool)
      ∧ running l ≤ ch.(Channel.Workers)
      ∧ (∀ t1 t2 job' ex log env,
           l.(lane_tasks) = t1 ++ (InProcessJob, job') :: t2 →
           ∃ l1 l2,
             step l l1 ∧ step l1 l2
             ∧ l1.(lane_tasks)
               = t1 ++ (Returned,
                        (processJob l.(lane_channel) ex log job' env).2) :: t2
             ∧ l2.(lane_tasks) = t1 ++ t2
             ∧ l2.(lane_channel).(Channel.processor).(Processor.workerPool)
               = l.(lane_channel).(Channel.processor).(Processor.workerPool) - 1)
      ∧ (∀ t1 t2 job',
           l.(lane_tasks) = t1 ++ (Returned, job') :: t2 →
           ∃ l2,
             step l l2
             ∧ l2.(lane_tasks) = t1 ++ t2
             ∧ l2.(lane_channel).(Channel.processor).(Processor.workerPool)
               = l.(lane_channel).(Channel.processor).(Processor.workerPool) - 1).
Proof.
  intros Hv Hnone Hget.
  destruct (getOrCreateChannel_new s job Hv Hnone) as [Heq Hw].
  rewrite Heq in Hget. inversion Hget; subst s' ch; clear Hget.
  split; [assumption|]. split; [reflexivity|]. split; [reflexivity|].
  intros l Hreach.
  destruct (lanes_bounded (created_channel s job) l eq_refl) as (? & ? & ? & ?);
    [exact (Z.le_trans _ _ _ Z.le_0_1 Hw) | assumption |].
  change (Processor.workerPool_cap (Channel.processor (created_channel s job)))
    with (Channel.Workers (created_channel s job)) in *.
  assert (Hinv : lane_inv l).
  { apply (reachable_inv (mkLane (created_channel s job) None [] false) l);
      [|assumption].
    split; [reflexivity | exact (Z.le_trans _ _ _ Z.le_0_1 Hw)]. }
  destruct (lane_releases l Hinv) as [Hexit Hdefer].
  split; [assumption|]. split; [assumption|]. split; [assumption|].
  split; [lia|]. split; assumption.
Qed.

End WorkerPool.

Section WorkerPoolExamples.
Import jobscheduler.

(** The channel "c" of the examples has one worker. *)
Lemma running_jobs_bounded_witness :
  1 ≤ ch_c.(Channel.Workers)
  ∧ ch_c.(Channel.processor).(Processor.workerPool_cap) = ch_c.(Channel.Workers)
  ∧ ch_c.(Channel.processor).(Processor.workerPool) = 0
  ∧ ∀ l, rtc (step (lib := exampleLib)) (mkLane ch_c None [] false) l →
      l.(lane_channel).(Channel.Workers) = ch_c.(Channel.Workers)
      ∧ l.(lane_channel).(Channel.processor).(Processor.workerPool)
        = Z.of_nat (length l.(lane_tasks))
      ∧ running l ≤ l.(lane_channel).(Channel.processor).(Processor.workerPool)
      ∧ running l ≤ ch_c.(Channel.Workers)
      ∧ (∀ t1 t2 job' ex log env,
           l.(lane_tasks) = t1 ++ (InProcessJob, job') :: t2 →
           ∃ l1 l2,
             step (lib := exampleLib) l l1 ∧ step (lib := exampleLib) l1 l2
             ∧ l1.(lane_tasks)
               = t1 ++ (Returned,
                        (processJob (lib := exampleLib) l.(lane_channel)
                           ex log job' env).2) :: t2
             ∧ l2.(lane_tasks) = t1 ++ t2
             ∧ l2.(lane_channel).(Channel.processor).(Processor.workerPool)
               = l.(lane_channel).(Channel.processor).(Processor.workerPool) - 1)
      ∧ (∀ t1 t2 job',
           l.(lane_tasks) = t1 ++ (Returned, job') :: t2 →
           ∃ l2,
             step (lib := exampleLib) l l2
             ∧ l2.(lane_tasks) = t1 ++ t2
             ∧ l2.(lane_channel).(Channel.processor).(Processor.workerPool)
               = l.(lane_channel).(Channel.processor).(Processor.workerPool) - 1).
Proof.
  apply (running_jobs_bounded (lib := exampleLib) exampleScheduler
           (scheduler_after (getOrCreateChannel exampleScheduler job_j3))
           job_j3 ch_c);
    vm_compute; reflexivity.
Defined.

(** Two jobs are sent to "c"; the first is received, takes the only
    slot and enters [processJob]; the second is received and then has
    to wait, since no slot can be acquired. *)
Example one_worker_one_running :
  ∃ l, rtc (step (lib := exampleLib)) (mkLane ch_c None [] false) l
       ∧ running l = 1
       ∧ l.(lane_held) = Some (pending_job job_j3 7)
       ∧ acquire l.(lane_channel) = None.
Proof.
  set (j1 := pending_job job_j3 5). set (j2 := pending_job job_j3 7).
  set (c2 := Channel.set_Jobs ch_c [j1; j2]).
  set (c3 := Channel.set_Jobs ch_c [j2]).
  set (c4 := Channel.set_processor c3 (Processor.mk 1048576 1 1 ∅)).
  set (c5 := enter c4 j1).
  set (c6 := Channel.set_Jobs c5 []).
  exists (mkLane c6 (Some j2) [(InProcessJob, j1)] false).
  split; [|repeat split].
  eapply rtc_l; [apply (step_send _ _ _ _ j1); reflexivity|].
  eapply rtc_l; [apply (step_send _ _ _ _ j2); reflexivity|].
  eapply rtc_l; [apply (step_receive c2 j1 [j2]); reflexivity|].
  eapply rtc_l; [apply (step_acquire c3 j1 [] c4); reflexivity|].
  eapply rtc_l; [apply (step_enter c4 None false [] [] j1)|].
  eapply rtc_l; [apply (step_receive c5 j2 []); reflexivity|].
  apply rtc_refl.
Qed.

(** The job of channel "c" runs into its deadline inside
    [processJob]: the goroutine returns with the job [failed], its
    deferred receive frees the slot, and the job that was waiting
    acquires it. *)
Example slot_released_after_timeout :
  let j1 := pending_job job_j3 5 in
  let j2 := pending_job job_j3 7 in
  let busy := Channel.set_processor (Channel.set_Jobs ch_c [])
                (Processor.mk 1048576 1 1 {[ "j3" := j1 ]}) in
  let env := jobEnv (Some DeadlineFired) env_interrupted in
  ∃ l,
    rtc (step (lib := exampleLib))
      (mkLane busy (Some j2) [(InProcessJob, j1)] false) l
    ∧ l.(lane_tasks) = [(Spawned, j2)]
    ∧ l.(lane_held) = None
    ∧ l.(lane_channel).(Channel.processor).(Processor.workerPool) = 1
    ∧ (processJob (lib := exampleLib) busy ex0 log0 j1 env).2.(JobPayload.Status)
      = JobStatusFailed.
Proof.
  intros j1 j2 busy env.
  set (r := processJob (lib := exampleLib) busy ex0 log0 j1 env).
  set (c1 := r.1.1.1).
  set (c2 := Channel.set_processor c1 (Processor.mk 1048576 1 0 ∅)).
  set (c3 := Channel.set_processor c1 (Processor.mk 1048576 1 1 ∅)).
  exists (mkLane c3 None [(Spawned, j2)] false).
  split; [|repeat split].
  eapply rtc_l;
    [apply (step_return busy (Some j2) false [] [] j1 ex0 log0 env)|].
  eapply rtc_l;
    [apply (step_release c1 (Some j2) false [] [] r.2 c2); reflexivity|].
  eapply rtc_l; [apply (step_acquire c2 j2 [] c3); reflexivity|].
  apply rtc_refl.
Qed.

End WorkerPoolExamples.

(** ** Shutdown *)

Section Shutdown.
Import jobscheduler.

Lemma Cleanup_idempotent (e : executor.Executor) :
  executor.Cleanup (executor.Cleanup e) = executor.Cleanup e.
Proof.
  pose proof (Cleanup_processes e) as He.
  pose proof (Cleanup_processes (executor.Cleanup e)) as He2.
  destruct (executor.Cleanup e) as [w m c] eqn:E1.
  unfold executor.Cleanup in *. simpl in *. subst m.
  now rewrite map_fold_empty.
Qed.

(** The first [Shutdown] cancels the root context, empties the
    process registry and closes the log. *)
Lemma Shutdown_state (s : Scheduler) (os_close : option error) :
  let s1 := (Shutdown s os_close).1 in
  s1.(cancelled) = true
  ∧ executor.ListProcesses s1.(executor) = []
  ∧ s1.(processLog).(File.closed) = true
  ∧ s1.(processLog).(File.lines) = s.(processLog).(File.lines).
Proof.
  unfold Shutdown.
  destruct (File.Close (processLog s) os_close) as [log err] eqn:Hclose.
  assert (Hlog : File.closed log = true
                 ∧ File.lines log = File.lines (processLog s)).
  { unfold File.Close in Hclose.
    destruct (File.closed (processLog s)) eqn:Hc;
      inversion Hclose; subst; simpl; auto. }
  assert (Hl : executor.ListProcesses (executor.Cleanup (executor s)) = []).
  { unfold executor.ListProcesses.
    now rewrite Cleanup_processes, map_to_list_empty. }
  destruct err; (split; [reflexivity|]); (split; [exact Hl|]); exact Hlog.
Qed.

(** C9, as amended.  A second [Shutdown] after the first has returned
    is safe but not silent: it does not panic and the scheduler it
    leaves is the one the first call left (context cancelled, registry
    empty, log closed), and its status is the error of closing the log
    again, "failed to close process log: close <path>: file already
    closed", whatever the first call returned. *)
Theorem Shutdown_twice (s : Scheduler) (close1 close2 : option error) :
  let s1 := (Shutdown s close1).1 in
  (Shutdown s1 close2).1 = s1
  ∧ (Shutdown s1 close2).2
    = Some (errorString
              ("failed to close process log: close " +:+
               s.(processLog).(File.name) +:+ ": file already closed")).
Proof.
  unfold Shutdown, File.Close.
  destruct (File.closed (processLog s)) eqn:Hc; simpl.
  - rewrite Hc. simpl. rewrite Cleanup_idempotent. split; reflexivity.
  - destruct close1; simpl; rewrite Cleanup_idempotent; split; reflexivity.
Qed.

(** On the scheduler of the examples the first call returns nil and
    the second the close error. *)
Example Shutdown_twice_run :
  let r1 := Shutdown s_received None in
  let r2 := Shutdown r1.1 None in
  r1.2 = None
  ∧ r2.1 = r1.1
  ∧ r2.2 = Some (errorString
                   "failed to close process log: close processing.log: file already closed").
Proof. vm_compute. repeat split. Qed.

(** C9 as stated fails: on the scheduler of the examples the first
    call returns nil, and the second call neither returns nil, as a
    call that does nothing would, nor the status of the first. *)
Lemma Shutdown_second_call_differs :
  let r1 := Shutdown s_received None in
  let r2 := Shutdown r1.1 None in
  r1.2 = None ∧ ¬ (r2.2 = None ∨ r2.2 = r1.2).
Proof.
  vm_compute. split; [reflexivity|]. intros [H|H]; discriminate H.
Qed.

End Shutdown.

(** * Further properties *)

(** ** Output capture, exactly *)

Section Capture.
Import executor.

(** A writer with budget left forwards the first [N] bytes of what is
    written to it, over any sequence of writes. *)
Lemma write_all_take (ps : list (list Byte.byte)) :
  ∀ l, 0 ≤ N l →
    W (write_all l ps).1 = W l ++ take (Z.to_nat (N l)) (concat ps)
    ∧ N (write_all l ps).1
      = N l - Z.of_nat (length (take (Z.to_nat (N l)) (concat ps)))
    ∧ foldr Z.add 0 ((write_all l ps).2.*1)
      = Z.of_nat (length (take (Z.to_nat (N l)) (concat ps))).
Proof.
  induction ps as [|p ps IH]; intros l HN.
  - simpl. rewrite take_nil, app_nil_r. simpl. repeat split; lia.
  - destruct (Z.eq_dec (N l) 0) as [Hz|Hnz].
    + simpl. rewrite Write_exhausted by lia.
      destruct (IH l HN) as (HW & HNl & Hsum).
      destruct (write_all l ps) as [l2 rs]. simpl in *.
      rewrite Hz in *. simpl in *. rewrite app_nil_r in *. repeat split; lia || assumption.
    + destruct (Write_forwards l p) as (q & Hwrite & Hpre & Hlen); [lia|].
      simpl. rewrite Hwrite.
      set (l1 := mkLimitedWriter _ _).
      destruct (IH l1) as (HW & HNl & Hsum); [simpl; lia|].
      destruct (write_all l1 ps) as [l2 rs]. simpl in *.
      assert (Htake : take (Z.to_nat (N l)) (p ++ concat ps)
                      = q ++ take (Z.to_nat (N l - Z.of_nat (length q)))
                                  (concat ps)).
      { rewrite take_app.
        destruct (Z_le_gt_dec (Z.of_nat (length p)) (N l)) as [Hfit|Hcut].
        - assert (q = p) as -> by (apply prefix_length_eq; [assumption | lia]).
          rewrite take_ge by lia. f_equal. f_equal. lia.
        - assert (Hq : Z.to_nat (N l) = length q) by lia.
          assert (Hz : Z.to_nat (N l - Z.of_nat (length q)) = 0%nat) by lia.
          assert (Hz' : (Z.to_nat (N l) - length p)%nat = 0%nat) by lia.
          rewrite Hz, Hz', Hq. destruct Hpre as [k ->].
          now rewrite take_app_length. }
      change (list_fmap (Z * option error)%type Z fst rs) with (rs.*1).
      rewrite Htake, length_app, HW, HNl, Hsum, <- app_assoc.
      repeat split; lia.
Qed.

Context `{lib : GoLib}.

(** X1.  What [Execute] captures of a stream is exactly the first
    [OutputLimit] bytes of everything the child wrote to it, and all
    of it when [OutputLimit] is zero or negative; once the child has
    started, [Stdout] of the result is this for the writes on standard
    output and [Stderr] for the writes on standard error, each stream
    with the whole budget of its own, with or without an error. *)
Theorem capture_exact (limit : Z) :
  (∀ writes,
     capture limit writes
     = (if 0 <? limit then take (Z.to_nat limit) (concat writes)
        else concat writes))
  ∧ ∀ e cfg env,
      cfg.(Config.OutputLimit) = limit →
      env.(start_result) = None →
      (Execute e cfg env).1.2.(ExecutionResult.Stdout)
      = string_of_list_byte
          (if 0 <? limit
           then take (Z.to_nat limit) (concat env.(stdout_writes))
           else concat env.(stdout_writes))
      ∧ (Execute e cfg env).1.2.(ExecutionResult.Stderr)
        = string_of_list_byte
            (if 0 <? limit
             then take (Z.to_nat limit) (concat env.(stderr_writes))
             else concat env.(stderr_writes)).
Proof.
  assert (Hcap : ∀ writes,
             capture limit writes
             = (if 0 <? limit then take (Z.to_nat limit) (concat writes)
                else concat writes)).
  { intros writes. unfold capture.
    destruct (limit >? 0) eqn:E, (0 <? limit) eqn:E'; try lia; [|reflexivity].
    destruct (write_all_take writes (mkLimitedWriter [] limit)) as (-> & _);
      [simpl; lia | reflexivity]. }
  split; [exact Hcap|].
  intros e cfg env Hl Hs. rewrite <- !Hcap, <- Hl.
  unfold Execute, Execute_run. rewrite Hs.
  now destruct (if done_first env then _ else _).
Qed.

(** X2.  Over any sequence of writes on a writer with a positive
    budget, the byte counts that the calls report add up to the bytes
    forwarded, the smaller of the budget and the total written; and
    the one write that is cut short reports its short count with a
    nil error. *)
Theorem LimitedWriter_reports (limit : Z) :
  0 < limit →
  (∀ buf writes,
     foldr Z.add 0 ((write_all (mkLimitedWriter buf limit) writes).2.*1)
     = Z.min limit (Z.of_nat (length (concat writes))))
  ∧ (∀ buf p,
       limit < Z.of_nat (length p) →
       Write (mkLimitedWriter buf limit) p
       = (mkLimitedWriter (buf ++ take (Z.to_nat limit) p) 0, limit, None)).
Proof.
  intros Hl. split.
  - intros buf writes.
    destruct (write_all_take writes (mkLimitedWriter buf limit))
      as (_ & _ & ->); [simpl; lia|].
    simpl. rewrite length_take. lia.
  - intros buf p Hp. unfold Write, Buffer_Write. simpl.
    destruct (limit <=? 0) eqn:E; [lia|].
    destruct (Z.of_nat (length p) >? limit) eqn:G; [|lia].
    rewrite length_take.
    replace (Z.of_nat (Z.to_nat limit `min` length p)) with limit by lia.
    now rewrite Z.sub_diag.
Qed.

End Capture.

(** A budget of four bytes and the writes "abc", "def". *)
Lemma LimitedWriter_reports_witness :
  foldr Z.add 0
    ((executor.write_all (executor.mkLimitedWriter [] 4)
        [[Byte.x61; Byte.x62; Byte.x63]; [Byte.x64; Byte.x65; Byte.x66]]).2.*1)
  = Z.min 4 (Z.of_nat (length (concat
       [[Byte.x61; Byte.x62; Byte.x63]; [Byte.x64; Byte.x65; Byte.x66]]))).
Proof.
  apply (LimitedWriter_reports 4); lia.
Defined.

(** With a limit of four bytes the child writes "hi" to standard
    output and "err", "or" to standard error, and exits with status 1. *)
Lemma capture_exact_witness :
  let r :=
    (executor.Execute (lib := exampleLib) (executor.NewExecutor "/w")
       (executor.Config.mk "/bin/echo" ["hi"] "" ∅ None 4 0)
       (executor.mkProcEnv 100 101 105 None [[Byte.x68; Byte.x69]]
          [[Byte.x65; Byte.x72; Byte.x72]; [Byte.x6f; Byte.x72]] true
          (Some (ExitError (Exited 1))) None true None None)).1.2 in
  r.(executor.ExecutionResult.Stdout) = "hi"
  ∧ r.(executor.ExecutionResult.Stderr) = "erro".
Proof.
  exact (proj2 (capture_exact (lib := exampleLib) 4)
           (executor.NewExecutor "/w")
           (executor.Config.mk "/bin/echo" ["hi"] "" ∅ None 4 0)
           (executor.mkProcEnv 100 101 105 None [[Byte.x68; Byte.x69]]
              [[Byte.x65; Byte.x72; Byte.x72]; [Byte.x6f; Byte.x72]] true
              (Some (ExitError (Exited 1))) None true None None)
           eq_refl eq_refl).
Defined.

(** ** Execution IDs, kills and the command *)

Section ExecutorMore.
Import executor.
Context `{lib : GoLib}.

Lemma string_length_app (s t : string) :
  String.length (s +:+ t) = (String.length s + String.length t)%nat.
Proof. induction s as [|c s IH]; simpl; [reflexivity | now rewrite IH]. Qed.

Lemma string_app_cancel_r (s1 s2 t : string) :
  s1 +:+ t = s2 +:+ t → s1 = s2.
Proof.
  revert s2. induction s1 as [|c s1 IH]; intros [|c' s2] Heq; simpl in Heq.
  - reflexivity.
  - apply (f_equal String.length) in Heq.
    rewrite ?string_length_app in Heq. simpl in Heq.
    rewrite ?string_length_app in Heq. lia.
  - apply (f_equal String.length) in Heq.
    rewrite ?string_length_app in Heq. simpl in Heq.
    rewrite ?string_length_app in Heq. lia.
  - injection Heq as -> Heq. f_equal. now apply IH.
Qed.

(** X3.  [Execute] never advances [execCounter], so on one executor
    the execution ID is determined by the clock reading alone: two
    calls get the same ID exactly when [time.Now().UnixNano()] reads
    the same for both, and different readings give different IDs. *)
Theorem execID_depends_on_clock_only (e : Executor) (cfg : Config.t)
    (env1 env2 : ProcEnv) :
  (Execute e cfg env1).1.1.(execCounter) = e.(execCounter)
  ∧ (Execute e cfg env1).1.2.(ExecutionResult.ExecutionID) = execID_of e env1
  ∧ (execID_of (Execute e cfg env1).1.1 env2 = execID_of e env1
     ↔ env2.(now_id) = env1.(now_id)).
Proof.
  assert (Hc : (Execute e cfg env1).1.1.(execCounter) = e.(execCounter)).
  { unfold Execute, Execute_run.
    destruct (start_result env1); simpl; [reflexivity|].
    now destruct (if done_first env1 then _ else _). }
  split; [exact Hc|]. split.
  - unfold Execute, Execute_run.
    destruct (start_result env1); simpl; [reflexivity|].
    now destruct (if done_first env1 then _ else _).
  - unfold execID_of. rewrite Hc. split.
    + intros Heq. apply (inj (String.app "exec_")) in Heq.
      apply string_app_cancel_r in Heq. now apply (inj pretty) in Heq.
    + now intros ->.
Qed.

(** X4.  [Cleanup] empties the registry whatever it held: afterwards
    nothing is listed and [KillProcess] answers not-found for every
    ID.  [KillProcess] itself never removes an entry: also after a
    kill that succeeded the ID stays listed until its [Execute]
    returns. *)
Theorem Cleanup_then_KillProcess (e : Executor) (execID : string)
    (kill : option error) :
  ListProcesses (Cleanup e) = []
  ∧ KillProcess (Cleanup e) execID kill
    = (Cleanup e, Some (errorString ("process " +:+ execID +:+ " not found")))
  ∧ ListProcesses (KillProcess e execID kill).1 = ListProcesses e.
Proof.
  split; [|split].
  - unfold ListProcesses. now rewrite Cleanup_processes, map_to_list_empty.
  - unfold KillProcess. now rewrite Cleanup_processes, lookup_empty.
  - now rewrite KillProcess_processes.
Qed.

(** X5.  The command's environment is the host environment, kept
    whole also for names that the overlay sets, followed by one entry
    per key of the overlay, each of the form KEY=VALUE. *)
Theorem command_environment (e : Executor) (cfg : Config.t) :
  let env := (command_of e cfg).(Cmd.Env) in
  take (length os_Environ) env = os_Environ
  ∧ length env = (length os_Environ + size cfg.(Config.Env))%nat
  ∧ ∀ k v, cfg.(Config.Env) !! k = Some v →
           (k +:+ "=" +:+ v) ∈ drop (length os_Environ) env.
Proof.
  unfold command_of. simpl. split; [|split].
  - apply take_app_length.
  - now rewrite length_app, length_fmap, length_map_to_list.
  - intros k v Hkv. rewrite drop_app_length.
    apply list_elem_of_fmap. exists (k, v). split; [reflexivity|].
    now apply elem_of_map_to_list.
Qed.

End ExecutorMore.

(** The overlay [{"MODE": "fast"}] on the example host environment. *)
Lemma command_environment_witness :
  ("MODE" +:+ "=" +:+ "fast")
  ∈ drop (length (os_Environ (GoLib := exampleLib)))
      (executor.command_of (lib := exampleLib) (executor.NewExecutor "/w")
         (executor.Config.mk "/bin/echo" [] "" {["MODE" := "fast"]} None 0 0)
      ).(executor.Cmd.Env).
Proof.
  destruct (command_environment (lib := exampleLib) (executor.NewExecutor "/w")
              (executor.Config.mk "/bin/echo" [] "" {["MODE" := "fast"]}
                 None 0 0)) as (_ & _ & Hin).
  apply Hin. apply lookup_singleton_eq.
Defined.

(** ** More on processJob *)

Section ProcessJobMore.
Import jobscheduler.
Context `{lib : GoLib}.

Lemma string_app_nonempty (s t : string) : s ≠ "" → s +:+ t ≠ "".
Proof.
  intros Hs Heq. apply (f_equal String.length) in Heq.
  rewrite string_length_app in Heq. destruct s; [done|]. simpl in Heq. lia.
Qed.

(** The error that [processJob] classifies is never an empty message. *)
Lemma job_error_nonempty (ch : Channel.t) (ex : executor.Executor)
    (job : JobPayload.t) (env : JobEnv) (e : error) :
  job_error ch ex job env = Some e → Error e ≠ "".
Proof.
  unfold job_error. destruct (JobPayload.Application job) as [app|].
  - destruct (executeApplication_result ch ex
                (JobPayload.set_StartTime
                   (JobPayload.set_Status job JobStatusRunning)
                   (now_running env)) app (proc_env env)) as (cfg & _ & ->).
    simpl. unfold executor.Execute, executor.Execute_run.
    destruct (executor.start_result (proc_env env)); simpl.
    + intros [= <-]. now apply string_app_nonempty.
    + destruct (if executor.done_first (proc_env env) then _ else _);
        simpl; [|done].
      intros [= <-]. now apply string_app_nonempty.
  - destruct (regular_done env) as [[]|]; simpl; [| |done];
      intros [= <-]; done.
Qed.

(** X6.  [processJob] keeps the identity of the job (ID, channel,
    hints, body, application), stamps [StartTime] and [EndTime] with
    its two clock readings, and never ends a job [failed] or
    [timed_out] with an empty [Error]; a job that ends [complete]
    keeps whatever [Error] text it was submitted with. *)
Theorem processJob_result (ch : Channel.t) (ex : executor.Executor)
    (log : File.t) (job : JobPayload.t) (env : JobEnv) :
  let job' := (processJob ch ex log job env).2 in
  job'.(JobPayload.ID) = job.(JobPayload.ID)
  ∧ job'.(JobPayload.Channel) = job.(JobPayload.Channel)
  ∧ job'.(JobPayload.Workers) = job.(JobPayload.Workers)
  ∧ job'.(JobPayload.Timeout) = job.(JobPayload.Timeout)
  ∧ job'.(JobPayload.Body) = job.(JobPayload.Body)
  ∧ job'.(JobPayload.Application) = job.(JobPayload.Application)
  ∧ job'.(JobPayload.StartTime) = env.(now_running)
  ∧ job'.(JobPayload.EndTime) = env.(now_finished)
  ∧ (job'.(JobPayload.Status) = JobStatusComplete
     ∧ job'.(JobPayload.Error) = job.(JobPayload.Error)
     ∨ (job'.(JobPayload.Status) = JobStatusFailed
        ∨ job'.(JobPayload.Status) = JobStatusTimedOut)
       ∧ job'.(JobPayload.Error) ≠ "").
Proof.
  pose proof (processJob_status ch ex log job env) as Hs.
  pose proof (job_error_nonempty ch ex job env) as Hne.
  assert (Hfields :
    let job' := (processJob ch ex log job env).2 in
    job'.(JobPayload.ID) = job.(JobPayload.ID)
    ∧ job'.(JobPayload.Channel) = job.(JobPayload.Channel)
    ∧ job'.(JobPayload.Workers) = job.(JobPayload.Workers)
    ∧ job'.(JobPayload.Timeout) = job.(JobPayload.Timeout)
    ∧ job'.(JobPayload.Body) = job.(JobPayload.Body)
    ∧ job'.(JobPayload.Application) = job.(JobPayload.Application)
    ∧ job'.(JobPayload.StartTime) = env.(now_running)
    ∧ job'.(JobPayload.EndTime) = env.(now_finished)).
  { unfold processJob. simpl.
    destruct (JobPayload.Application job) as [app|] eqn:Happ.
    - destruct (executeApplication ch ex _ app (proc_env env))
        as [[ex' r] err].
      simpl. destruct err as [e|]; [destruct (is_DeadlineExceeded e)|];
        simpl; repeat split; assumption.
    - destruct (processRegularJob _ env).2 as [e|];
        [destruct (is_DeadlineExceeded e)|]; simpl; repeat split;
        assumption. }
  simpl in *. destruct Hfields as (? & ? & ? & ? & ? & ? & ? & ?).
  do 8 (split; [assumption|]).
  destruct (job_error ch ex job env) as [e|].
  - right. destruct (is_DeadlineExceeded e); destruct Hs as [-> ->].
    + split; [now right|]. now apply string_app_nonempty.
    + split; [now left|]. now apply Hne.
  - now left.
Qed.

(** X7.  On an open process log [processJob] appends exactly two
    lines, the STARTED event and then the COMPLETED event that names
    the terminal status, whatever the outcome; on a log that has been
    closed it writes nothing. *)
Theorem processJob_log_lines (ch : Channel.t) (ex : executor.Executor)
    (log : File.t) (job : JobPayload.t) (env : JobEnv) :
  let r := processJob ch ex log job env in
  let tail := " - Channel: " +:+ ch.(Channel.Name) +:+ ", JobID: " +:+
              job.(JobPayload.ID) +:+ newline in
  (log.(File.closed) = false →
   r.1.2.(File.lines)
   = log.(File.lines)
     ++ [Time_Format env.(now_log_started) +:+ " - " +:+ "STARTED" +:+ tail;
         Time_Format env.(now_log_completed) +:+ " - " +:+
         ("COMPLETED - Status: " +:+ r.2.(JobPayload.Status)) +:+ tail]
   ∧ r.1.2.(File.closed) = false)
  ∧ (log.(File.closed) = true → r.1.2 = log).
Proof.
  unfold processJob, logJobEvent, File.Fprintf. simpl. split; intros Hc.
  - rewrite Hc. simpl.
    destruct (JobPayload.Application job) as [app|].
    + destruct (executeApplication ch ex _ app (proc_env env))
        as [[ex' r] err].
      simpl. destruct err as [e|]; [destruct (is_DeadlineExceeded e)|];
        simpl; rewrite <- app_assoc; split; reflexivity.
    + destruct (processRegularJob _ env).2 as [e|];
        [destruct (is_DeadlineExceeded e)|];
        simpl; rewrite <- app_assoc; split; reflexivity.
  - rewrite Hc. simpl.
    destruct (JobPayload.Application job) as [app|].
    + destruct (executeApplication ch ex _ app (proc_env env))
        as [[ex' r] err].
      simpl. destruct err as [e|]; [destruct (is_DeadlineExceeded e)|];
        simpl; rewrite Hc; reflexivity.
    + destruct (processRegularJob _ env).2 as [e|];
        [destruct (is_DeadlineExceeded e)|]; simpl; rewrite Hc; reflexivity.
Qed.

(** X8.  An application job whose context is done and whose child has
    to be killed (the interrupt fails or the child outlives the grace
    period) is reported as a success when the kill goes through:
    [Execute] returns exit code 0 with a nil error and [processJob]
    ends the job [complete]. *)
Theorem processJob_killed_child_complete (ch : Channel.t)
    (ex : executor.Executor) (log : File.t) (job : JobPayload.t)
    (app : ApplicationConfig.t) (env : JobEnv) :
  job.(JobPayload.Application) = Some app →
  env.(proc_env).(executor.start_result) = None →
  env.(proc_env).(executor.done_first) = false →
  (is_Some env.(proc_env).(executor.signal_result)
   ∨ env.(proc_env).(executor.exit_in_time) = false) →
  env.(proc_env).(executor.kill_result) = None →
  (∀ e cfg, (executor.Execute e cfg env.(proc_env)).2 = None
            ∧ (executor.Execute e cfg env.(proc_env)).1.2.(
                 executor.ExecutionResult.ExitCode) = 0)
  ∧ (processJob ch ex log job env).2.(JobPayload.Status) = JobStatusComplete.
Proof.
  intros Happ Hs Hd Hpath Hk.
  assert (Hexec : ∀ e cfg,
             (executor.Execute e cfg env.(proc_env)).2 = None
             ∧ (executor.Execute e cfg env.(proc_env)).1.2.(
                  executor.ExecutionResult.ExitCode) = 0).
  { intros e cfg.
    unfold executor.Execute, executor.Execute_run, executor.handleTimeout,
      executor.forceKill.
    rewrite Hs, Hd, Hk. simpl.
    destruct Hpath as [[se ->]| ->]; simpl; [now split|].
    destruct (executor.signal_result (proc_env env)); now split. }
  split; [exact Hexec|].
  pose proof (processJob_status ch ex log job env) as Hst.
  unfold job_error in Hst. rewrite Happ in Hst.
  destruct (executeApplication_result ch ex
              (JobPayload.set_StartTime
                 (JobPayload.set_Status job JobStatusRunning)
                 (now_running env)) app (proc_env env)) as (cfg & _ & Heq).
  rewrite Heq in Hst. simpl in Hst.
  destruct (Hexec ex cfg) as [Hnil _]. rewrite Hnil in Hst. apply Hst.
Qed.

End ProcessJobMore.

(** The ["sleep 1"] job under 100 ms once more, with a child that has
    to be killed: the log gets its two lines and the job ends
    [complete]. *)
Lemma processJob_killed_child_complete_witness :
  (jobscheduler.processJob (lib := exampleLib) ch_c ex0 log0 job_j3
     (jobEnv (Some jobscheduler.DeadlineFired) env_killed)
  ).2.(jobscheduler.JobPayload.Status)
  = jobscheduler.JobStatusComplete.
Proof.
  apply (processJob_killed_child_complete (lib := exampleLib) ch_c ex0 log0
           job_j3
           (jobscheduler.ApplicationConfig.mk "sleep" "sleep" ["1"] ∅ "" false)
           (jobEnv (Some jobscheduler.DeadlineFired) env_killed));
    first [reflexivity | right; reflexivity].
Defined.

Lemma processJob_log_lines_witness :
  (jobscheduler.processJob (lib := exampleLib) ch_c ex0 log0 job_j3
     (jobEnv (Some jobscheduler.DeadlineFired) env_killed)
  ).1.2.(jobscheduler.File.lines)
  = [] ++ ["11 - STARTED - Channel: c, JobID: j3" +:+ jobscheduler.newline;
           "21 - COMPLETED - Status: complete - Channel: c, JobID: j3"
           +:+ jobscheduler.newline].
Proof.
  apply (processJob_log_lines (lib := exampleLib) ch_c ex0 log0 job_j3
           (jobEnv (Some jobscheduler.DeadlineFired) env_killed)).
  reflexivity.
Defined.

(** ** More on submission *)

Section SubmitMore.
Import jobscheduler.

(** X9.  [JobPayload.Validate] accepts exactly the jobs with a
    non-empty ID, a non-empty channel name, no negative worker hint
    and, when an application is given, a non-empty path; it does not
    look at [Timeout].  [SubmitJob] refuses every other job with an
    "invalid job payload" error and leaves the scheduler as it was:
    no channel and no statistics record is created. *)
Theorem Validate_accepts_exactly (job : JobPayload.t) :
  (JobPayload.Validate job = None
   ↔ job.(JobPayload.ID) ≠ ""
     ∧ job.(JobPayload.Channel) ≠ ""
     ∧ 0 ≤ job.(JobPayload.Workers)
     ∧ ∀ app, job.(JobPayload.Application) = Some app →
              app.(ApplicationConfig.Path) ≠ "")
  ∧ ∀ s t1 t2,
      JobPayload.Validate job ≠ None →
      ∃ msg, SubmitJob s job t1 t2
             = Some (s, Some (errorString ("invalid job payload: " +:+ msg))).
Proof.
  split.
  - unfold JobPayload.Validate.
    destruct (String.eqb_spec (JobPayload.ID job) "") as [Hid|Hid].
    { split; [discriminate | intros (? & _); contradiction]. }
    destruct (String.eqb_spec (JobPayload.Channel job) "") as [Hch|Hch].
    { split; [discriminate | intros (_ & ? & _); contradiction]. }
    destruct (JobPayload.Workers job <? 0) eqn:Hw.
    { split; [discriminate | intros (_ & _ & ? & _); lia]. }
    destruct (JobPayload.Application job) as [app|].
    + destruct (String.eqb_spec (ApplicationConfig.Path app) "") as [Hp|Hp].
      * split; [discriminate|]. intros (_ & _ & _ & Happ).
        now destruct (Happ app eq_refl).
      * split; [|reflexivity]. intros _. repeat split; try assumption; [lia|].
        now intros app' [= <-].
    + split; [|reflexivity]. intros _. repeat split; try assumption; [lia|].
      discriminate.
  - intros s t1 t2 Hv. destruct (JobPayload.Validate job) as [err|] eqn:E;
      [|contradiction].
    exists (Error err). now rewrite (SubmitJob_invalid _ _ _ _ _ E).
Qed.

(** A valid job and room in the queue: the submission succeeds and
    the scheduler is [enqueued]. *)
Lemma SubmitJob_enqueued (s : Scheduler) (job : JobPayload.t) (t1 t2 : Z) :
  wf s →
  JobPayload.Validate job = None →
  Z.of_nat (length (queue_of s job.(JobPayload.Channel)))
    < s.(config).(Config.ChannelBufferSize) →
  SubmitJob s job t1 t2 = Some (enqueued s job t1 t2, None)
  ∧ wf (enqueued s job t1 t2).
Proof.
  intros Hwf Hv Hroom.
  assert (Heq : SubmitJob s job t1 t2 = Some (enqueued s job t1 t2, None)).
  { unfold queue_of, enqueued in *.
    destruct (channels s !! JobPayload.Channel job) as [ch|] eqn:Hch.
    - destruct (wf_channels s Hwf _ _ Hch) as [Hn Hcap Hlen Hpool [st Hst]].
      rewrite (SubmitJob_existing _ _ _ _ ch st) by (assumption || lia).
      now rewrite Hst.
    - rewrite (SubmitJob_new _ _ _ _ (wf_config s Hwf) Hv Hch).
      now rewrite (wf_stats s Hwf _ Hch). }
  split; [exact Heq|].
  destruct (SubmitJob_wf s job t1 t2 Hwf) as (s' & err & Hsub & Hwf').
  rewrite Heq in Hsub. now inversion Hsub; subst.
Qed.

(** A valid job and a full queue: refused, nothing changes. *)
Lemma SubmitJob_queue_full_unchanged (s : Scheduler) (job : JobPayload.t)
    (t1 t2 : Z) :
  wf s →
  JobPayload.Validate job = None →
  s.(config).(Config.ChannelBufferSize)
    ≤ Z.of_nat (length (queue_of s job.(JobPayload.Channel))) →
  SubmitJob s job t1 t2
  = Some (s, Some (errorString
                     ("channel " +:+ job.(JobPayload.Channel) +:+ " is full"))).
Proof.
  intros Hwf Hv Hfull. unfold queue_of in Hfull.
  pose proof (Config_Validate_ok _ (wf_config s Hwf)) as (_ & _ & Hb).
  destruct (channels s !! JobPayload.Channel job) as [ch|] eqn:Hch;
    [|simpl in Hfull; lia].
  destruct (wf_channels s Hwf _ _ Hch) as [Hn Hcap Hlen Hpool _].
  apply (SubmitJob_full _ _ _ _ ch); [assumption.. | lia].
Qed.

Lemma enqueued_queue_of (s : Scheduler) (job : JobPayload.t) (t1 t2 : Z)
    (name : string) :
  queue_of (enqueued s job t1 t2) name
  = if decide (job.(JobPayload.Channel) = name)
    then queue_of s name ++ [pending_job job t1]
    else queue_of s name.
Proof.
  unfold queue_of, enqueued. simpl. case_decide as Hn.
  - subst name. rewrite lookup_insert_eq.
    now destruct (channels s !! JobPayload.Channel job).
  - now rewrite lookup_insert_ne.
Qed.

Lemma enqueued_TotalJobs_of (s : Scheduler) (job : JobPayload.t) (t1 t2 : Z)
    (name : string) :
  TotalJobs_of (enqueued s job t1 t2) name
  = if decide (job.(JobPayload.Channel) = name)
    then int64_incr (TotalJobs_of s name)
    else TotalJobs_of s name.
Proof.
  unfold TotalJobs_of, enqueued. simpl. case_decide as Hn.
  - subst name. rewrite lookup_insert_eq.
    now destruct (stats s !! JobPayload.Channel job).
  - now rewrite lookup_insert_ne.
Qed.

Lemma enqueued_config (s : Scheduler) (job : JobPayload.t) (t1 t2 : Z) :
  (enqueued s job t1 t2).(config) = s.(config).
Proof. reflexivity. Qed.

(** X10.  The queue of a channel is first in, first out.  Valid jobs
    for one channel, submitted one after the other while there is
    room, end up behind the jobs already queued in the order of
    submission (IDs need not differ: the same job may be queued
    twice); and the dispatch loop's receive takes the job at the
    front and leaves the others in order. *)
Theorem queue_is_FIFO (name : string) (jobs : list (JobPayload.t * Z * Z)) :
  ∀ s,
    wf s →
    Forall (λ x, JobPayload.Validate x.1.1 = None
                 ∧ x.1.1.(JobPayload.Channel) = name) jobs →
    Z.of_nat (length (queue_of s name)) + Z.of_nat (length jobs)
      ≤ s.(config).(Config.ChannelBufferSize) →
    ∃ s', submit_all s jobs = Some s'
          ∧ queue_of s' name
            = queue_of s name ++ ((λ x, pending_job x.1.1 x.1.2) <$> jobs)
          ∧ ∀ s'' job, receive s' name = Some (s'', job) →
              Some job = head (queue_of s' name)
              ∧ queue_of s'' name = tail (queue_of s' name).
Proof.
  assert (Hrecv : ∀ s' s'' job, receive s' name = Some (s'', job) →
            Some job = head (queue_of s' name)
            ∧ queue_of s'' name = tail (queue_of s' name)).
  { intros s' s'' job. unfold receive, queue_of.
    destruct (channels s' !! name) as [ch|]; simpl; [|done].
    destruct (Channel.Jobs ch) as [|j q]; [done|].
    intros [= <- <-]. simpl. now rewrite lookup_insert_eq. }
  induction jobs as [|[[job t1] t2] jobs IH]; intros s Hwf Hall Hroom.
  - exists s. simpl. rewrite app_nil_r.
    split; [reflexivity|]. split; [reflexivity | apply Hrecv].
  - apply Forall_cons in Hall as [[Hv Hname] Hall]. simpl in Hv, Hname.
    simpl in Hroom.
    destruct (SubmitJob_enqueued s job t1 t2 Hwf Hv) as [Hsub Hwf1];
      [rewrite Hname; lia|].
    simpl. rewrite Hsub. simpl.
    destruct (IH (enqueued s job t1 t2) Hwf1 Hall) as (s' & Hall' & Hq & Hr).
    { rewrite enqueued_queue_of, decide_True by assumption.
      rewrite length_app, enqueued_config. simpl. lia. }
    exists s'. split; [assumption|]. split; [|assumption].
    rewrite Hq, enqueued_queue_of, decide_True by assumption.
    now rewrite <- app_assoc.
Qed.

(** One submission changes the length of a queue and its [TotalJobs]
    by the same amount, 0 or 1. *)
Lemma SubmitJob_count (s : Scheduler) (job : JobPayload.t) (t1 t2 : Z)
    (name : string) :
  wf s →
  TotalJobs_of s name < 2 ^ 63 - 1 →
  ∃ s' err d,
    SubmitJob s job t1 t2 = Some (s', err) ∧ wf s'
    ∧ (d = 0 ∨ d = 1)
    ∧ Z.of_nat (length (queue_of s' name))
      = Z.of_nat (length (queue_of s name)) + d
    ∧ TotalJobs_of s' name = TotalJobs_of s name + d.
Proof.
  intros Hwf Hlt.
  assert (Hlow : - 2 ^ 63 ≤ TotalJobs_of s name).
  { unfold TotalJobs_of. destruct (stats s !! name) as [st|] eqn:Hst; [|lia].
    apply (wf_int64 s Hwf name st Hst). }
  destruct (JobPayload.Validate job) as [e|] eqn:Hv.
  { rewrite (SubmitJob_invalid _ _ _ _ _ Hv). eexists s, _, 0.
    split; [reflexivity|]. split; [assumption|]. split; [auto|]. split; lia. }
  destruct (Z_lt_le_dec
              (Z.of_nat (length (queue_of s (JobPayload.Channel job))))
              (Config.ChannelBufferSize (config s))) as [Hroom|Hfull].
  - destruct (SubmitJob_enqueued s job t1 t2 Hwf Hv Hroom) as [-> Hwf'].
    destruct (decide (JobPayload.Channel job = name)) as [Hn|Hn].
    + exists (enqueued s job t1 t2), None, 1.
      rewrite enqueued_queue_of, enqueued_TotalJobs_of, !decide_True
        by assumption.
      rewrite length_app, int64_incr_exact by lia. simpl.
      split; [reflexivity|]. split; [assumption|]. split; [auto|]. split; lia.
    + exists (enqueued s job t1 t2), None, 0.
      rewrite enqueued_queue_of, enqueued_TotalJobs_of, !decide_False
        by assumption.
      split; [reflexivity|]. split; [assumption|]. split; [auto|]. split; lia.
  - rewrite (SubmitJob_queue_full_unchanged _ _ _ _ Hwf Hv Hfull).
    eexists s, _, 0.
    split; [reflexivity|]. split; [assumption|]. split; [auto|]. split; lia.
Qed.

(** X11.  [TotalJobs] counts the jobs that were put on the queue and
    nothing else: over any sequence of submissions, to any channels,
    valid or not, accepted or refused, the [TotalJobs] of a channel
    grows by exactly the number of jobs that its queue gained (as long
    as the counter stays below the largest [int64]). *)
Theorem TotalJobs_counts_enqueued (name : string)
    (jobs : list (JobPayload.t * Z * Z)) :
  ∀ s,
    wf s →
    TotalJobs_of s name + Z.of_nat (length jobs) < 2 ^ 63 →
    ∃ s', submit_all s jobs = Some s'
          ∧ TotalJobs_of s' name - TotalJobs_of s name
            = Z.of_nat (length (queue_of s' name))
              - Z.of_nat (length (queue_of s name)).
Proof.
  induction jobs as [|[[job t1] t2] jobs IH]; intros s Hwf Hlt.
  - exists s. simpl. split; [reflexivity | lia].
  - cbn [length] in Hlt.
    destruct (SubmitJob_count s job t1 t2 name Hwf)
      as (s1 & err & d & Hsub & Hwf1 & Hd & Hlen & Htot); [lia|].
    simpl. rewrite Hsub. simpl.
    destruct (IH s1 Hwf1) as (s' & Hall & Hdiff); [lia|].
    exists s'. split; [assumption | lia].
Qed.

(** X12.  [SubmitJob] does not look at the root context: after
    [Shutdown] has returned, a valid job for a queue with room is
    still accepted with a nil error, queued and counted, although no
    dispatch loop will receive it. *)
Theorem SubmitJob_after_Shutdown (s : Scheduler) (os_close : option error)
    (job : JobPayload.t) (t1 t2 : Z) :
  wf s →
  JobPayload.Validate job = None →
  Z.of_nat (length (queue_of s job.(JobPayload.Channel)))
    < s.(config).(Config.ChannelBufferSize) →
  let s1 := (Shutdown s os_close).1 in
  ∃ s', SubmitJob s1 job t1 t2 = Some (s', None)
        ∧ s1.(cancelled) = true ∧ s'.(cancelled) = true
        ∧ queue_of s' job.(JobPayload.Channel)
          = queue_of s job.(JobPayload.Channel) ++ [pending_job job t1]
        ∧ TotalJobs_of s' job.(JobPayload.Channel)
          = int64_incr (TotalJobs_of s job.(JobPayload.Channel)).
Proof.
  intros Hwf Hv Hroom s1.
  assert (Hsame : s1.(channels) = s.(channels) ∧ s1.(stats) = s.(stats)
                  ∧ s1.(config) = s.(config) ∧ s1.(cancelled) = true).
  { unfold s1, Shutdown.
    destruct (File.Close (processLog s) os_close) as [log [e|]];
      repeat split. }
  destruct Hsame as (Hch & Hst & Hcfg & Hcan).
  assert (Hq : ∀ n, queue_of s1 n = queue_of s n)
    by (intros n; unfold queue_of; now rewrite Hch).
  assert (Ht : ∀ n, TotalJobs_of s1 n = TotalJobs_of s n)
    by (intros n; unfold TotalJobs_of; now rewrite Hst).
  destruct (SubmitJob_enqueued s1 job t1 t2) as [Hsub _];
    [now apply Shutdown_wf | assumption | rewrite Hq, Hcfg; assumption |].
  exists (enqueued s1 job t1 t2). split; [assumption|].
  split; [assumption|]. split; [assumption|].
  rewrite enqueued_queue_of, enqueued_TotalJobs_of, !decide_True by reflexivity.
  now rewrite Hq, Ht.
Qed.

End SubmitMore.

(** ** Statistics report and invariants of the scheduler *)

Section Reachable.
Import jobscheduler.
Context `{lib : GoLib}.

Lemma GetChannelStats_fold (s : Scheduler) :
  report_ok s.(channels) (GetChannelStats s) s.(stats).
Proof.
  unfold GetChannelStats.
  apply (map_fold_weak_ind (report_ok s.(channels))).
  - split.
    + intros k [x Hx]. now rewrite lookup_empty in Hx.
    + intros k. now rewrite !lookup_empty.
  - intros i x m1 r Hi IH. destruct r as [rep|]; simpl.
    + destruct IH as [Hdom Hrep].
      destruct (channels s !! i) as [ch|] eqn:Hch; simpl.
      * split.
        -- intros k. destruct (decide (i = k)) as [<-|Hne].
           ++ intros _. rewrite Hch. eauto.
           ++ rewrite lookup_insert_ne by done. apply Hdom.
        -- intros k. destruct (decide (i = k)) as [<-|Hne].
           ++ rewrite !lookup_insert_eq. simpl. now rewrite Hch.
           ++ rewrite !lookup_insert_ne by done. apply Hrep.
      * exists i. rewrite lookup_insert_eq. split; [eauto | assumption].
    + destruct IH as (k & Hk & Hnone). exists k. split; [|assumption].
      destruct (decide (i = k)) as [<-|Hne].
      * rewrite lookup_insert_eq. eauto.
      * now rewrite lookup_insert_ne.
Qed.

(** X13.  [GetChannelStats] panics (nil dereference) exactly when some
    name has a statistics record but no channel.  Otherwise it returns
    one record per name in the statistics, with [Workers] read from
    the channel and the other four fields copied from the stored
    record. *)
Theorem GetChannelStats_report (s : Scheduler) :
  (GetChannelStats s = None
   ↔ ∃ name, is_Some (s.(stats) !! name) ∧ s.(channels) !! name = None)
  ∧ ∀ rep, GetChannelStats s = Some rep →
           ∀ name, rep !! name = report_of s name.
Proof.
  pose proof (GetChannelStats_fold s) as Hfold. unfold report_ok in Hfold.
  destruct (GetChannelStats s) as [rep|].
  - destruct Hfold as [Hdom Hrep]. split.
    + split; [discriminate|]. intros (name & Hst & Hch).
      apply Hdom in Hst. rewrite Hch in Hst. now destruct Hst.
    + intros rep' [= <-] name. apply Hrep.
  - split; [now split | discriminate].
Qed.

(** Every operation keeps the scheduler well formed, its statistics
    inert, its channel settings in range and its configuration. *)
Lemma run_op_invariants (s : Scheduler) (o : op) :
  wf s → stats_inert s → settings_ok s →
  wf (run_op s o) ∧ stats_inert (run_op s o) ∧ settings_ok (run_op s o)
  ∧ (run_op s o).(config) = s.(config).
Proof.
  intros Hwf Hin Hset.
  destruct o as [job t1 t2|name|name job env|c]; simpl.
  - destruct (JobPayload.Validate job) as [e|] eqn:Hv.
    { now rewrite (SubmitJob_invalid _ _ _ _ _ Hv). }
    destruct (Z_lt_le_dec
                (Z.of_nat (length (queue_of s (JobPayload.Channel job))))
                (Config.ChannelBufferSize (config s))) as [Hroom|Hfull].
    + destruct (SubmitJob_enqueued s job t1 t2 Hwf Hv Hroom) as [-> Hwf'].
      split; [assumption|]. split; [|split; [|reflexivity]].
      * intros name st Hl. unfold enqueued in Hl. simpl in Hl.
        destruct (decide (JobPayload.Channel job = name)) as [<-|Hne].
        -- rewrite lookup_insert_eq in Hl. injection Hl as <-. simpl.
           destruct (stats s !! JobPayload.Channel job) as [st0|] eqn:Hst0;
             simpl; [now apply (Hin (JobPayload.Channel job)) | done].
        -- rewrite lookup_insert_ne in Hl by done. now apply (Hin name).
      * intros name ch Hl. unfold enqueued in Hl. simpl in Hl.
        destruct (decide (JobPayload.Channel job = name)) as [<-|Hne].
        -- rewrite lookup_insert_eq in Hl. injection Hl as <-. simpl.
           destruct (channels s !! JobPayload.Channel job) as [ch0|] eqn:Hch0;
             simpl; [now apply (Hset (JobPayload.Channel job))|].
           pose proof (Config_Validate_ok _ (wf_config s Hwf))
             as (Hw & Ht & _).
           unfold Second in Ht.
           destruct (0 <? JobPayload.Workers job) eqn:?,
                    (0 <? JobPayload.Timeout job) eqn:?; split; lia.
        -- rewrite lookup_insert_ne in Hl by done. now apply (Hset name).
    + now rewrite (SubmitJob_queue_full_unchanged _ _ _ _ Hwf Hv Hfull).
  - destruct (receive s name) as [[s' j]|] eqn:Hr; [|done].
    split; [now apply (receive_wf s s' name j)|].
    unfold receive in Hr.
    destruct (channels s !! name) as [ch|] eqn:Hch; simpl in Hr; [|done].
    destruct (Channel.Jobs ch); [done|]. injection Hr as <- _.
    split; [exact Hin|]. split; [|reflexivity].
    intros name' ch' Hl. simpl in Hl.
    destruct (decide (name = name')) as [<-|Hne].
    + rewrite lookup_insert_eq in Hl. injection Hl as <-. simpl.
      now apply (Hset name).
    + rewrite lookup_insert_ne in Hl by done. now apply (Hset name').
  - destruct (run_processJob s name job env) as [[s' j]|] eqn:Hr; [|done].
    split; [now apply (run_processJob_wf s s' name job j env)|].
    unfold run_processJob in Hr.
    destruct (channels s !! name) as [ch|] eqn:Hch; simpl in Hr; [|done].
    pose proof (processJob_processor ch (executor s) (processLog s) job env)
      as (Hw & Ht & _).
    destruct (processJob ch (executor s) (processLog s) job env)
      as [[[ch' ex'] log'] j'].
    injection Hr as <- _. simpl in *.
    split; [exact Hin|]. split; [|reflexivity].
    intros name' ch'' Hl. simpl in Hl.
    destruct (decide (name = name')) as [<-|Hne].
    + rewrite lookup_insert_eq in Hl. injection Hl as <-.
      rewrite Hw, Ht. now apply (Hset name).
    + rewrite lookup_insert_ne in Hl by done. now apply (Hset name').
  - split; [now apply Shutdown_wf|]. unfold Shutdown.
    destruct (File.Close (processLog s) c) as [log [e|]];
      (split; [exact Hin|]); (split; [exact Hset | reflexivity]).
Qed.

Lemma reachable_invariants (cfg : Config.t)
    (mkdir open mkdir_exec : option error) (old_lines : list string)
    (s0 : Scheduler) (ops : list op) :
  NewScheduler cfg mkdir open mkdir_exec old_lines = inr s0 →
  wf (foldl run_op s0 ops) ∧ stats_inert (foldl run_op s0 ops)
  ∧ settings_ok (foldl run_op s0 ops)
  ∧ (foldl run_op s0 ops).(config) = cfg.
Proof.
  intros Hnew.
  assert (H0 : wf s0 ∧ stats_inert s0 ∧ settings_ok s0 ∧ s0.(config) = cfg).
  { split; [now apply NewScheduler_wf in Hnew|].
    unfold NewScheduler in Hnew.
    destruct (Config.Validate cfg); [discriminate|].
    destruct mkdir; [discriminate|]. destruct open; [discriminate|].
    destruct mkdir_exec; [discriminate|].
    injection Hnew as <-.
    split; [intros n x Hl; simpl in Hl; now rewrite lookup_empty in Hl|].
    split; [intros n x Hl; simpl in Hl; now rewrite lookup_empty in Hl|].
    reflexivity. }
  clear Hnew. revert s0 H0.
  induction ops as [|o ops IH]; intros s0 (Hwf & Hin & Hset & Hcfg); simpl.
  - auto.
  - apply IH.
    destruct (run_op_invariants s0 o Hwf Hin Hset) as (? & ? & ? & Hc).
    split; [assumption|]. split; [assumption|]. split; [assumption|].
    now rewrite Hc.
Qed.

(** X14.  In every state that a new scheduler reaches through
    submissions, receives, [processJob] calls and shutdowns, the
    configuration is the one it was built with, every registered
    channel carries its own name, holds at most [ChannelBufferSize]
    queued jobs, has at least one worker and a positive timeout, and
    the names with a statistics record are exactly the names with a
    channel. *)
Theorem scheduler_invariants (cfg : Config.t)
    (mkdir open mkdir_exec : option error) (old_lines : list string)
    (s0 : Scheduler) (ops : list op) :
  NewScheduler cfg mkdir open mkdir_exec old_lines = inr s0 →
  let s := foldl run_op s0 ops in
  s.(config) = cfg
  ∧ (∀ name ch, s.(channels) !! name = Some ch →
       ch.(Channel.Name) = name
       ∧ Z.of_nat (length ch.(Channel.Jobs)) ≤ cfg.(Config.ChannelBufferSize)
       ∧ 1 ≤ ch.(Channel.Workers)
       ∧ 0 < ch.(Channel.Timeout))
  ∧ (∀ name, is_Some (s.(stats) !! name) ↔ is_Some (s.(channels) !! name)).
Proof.
  intros Hnew s.
  destruct (reachable_invariants cfg mkdir open mkdir_exec old_lines s0 ops
              Hnew) as (Hwf & Hin & Hset & Hcfg).
  fold s in Hwf, Hin, Hset, Hcfg. split; [assumption|]. split.
  - intros name ch Hch.
    destruct (wf_channels s Hwf _ _ Hch) as [Hn Hcap Hlen _ _].
    destruct (Hset name ch Hch) as [Hw Ht].
    rewrite Hcap, Hcfg in Hlen. auto.
  - intros name. split.
    + intros Hst. destruct (channels s !! name) eqn:Hch; [eauto|].
      rewrite (wf_stats s Hwf _ Hch) in Hst. now destruct Hst.
    + intros [ch Hch]. now destruct (wf_channels s Hwf _ _ Hch).
Qed.

(** X15.  In every such state [GetChannelStats] returns without
    panic, with one record per channel; the record shows the channel's
    worker count and the stored [TotalJobs] and [LastJobTime], and
    always an empty [ActiveJobs] list and [FailedJobs = 0], since no
    operation writes these two fields. *)
Theorem GetChannelStats_reachable (cfg : Config.t)
    (mkdir open mkdir_exec : option error) (old_lines : list string)
    (s0 : Scheduler) (ops : list op) :
  NewScheduler cfg mkdir open mkdir_exec old_lines = inr s0 →
  let s := foldl run_op s0 ops in
  ∃ rep,
    GetChannelStats s = Some rep
    ∧ (∀ name, is_Some (rep !! name) ↔ is_Some (s.(channels) !! name))
    ∧ ∀ name r, rep !! name = Some r →
        (∃ ch, s.(channels) !! name = Some ch
               ∧ r.(ChannelStats.Workers) = ch.(Channel.Workers))
        ∧ 1 ≤ r.(ChannelStats.Workers)
        ∧ r.(ChannelStats.ActiveJobs) = []
        ∧ r.(ChannelStats.FailedJobs) = 0
        ∧ r.(ChannelStats.TotalJobs) = TotalJobs_of s name
        ∧ r.(ChannelStats.LastJobTime) = LastJobTime_of s name.
Proof.
  intros Hnew s.
  destruct (reachable_invariants cfg mkdir open mkdir_exec old_lines s0 ops
              Hnew) as (Hwf & Hin & Hset & Hcfg).
  fold s in Hwf, Hin, Hset, Hcfg.
  pose proof (GetChannelStats_fold s) as Hfold. unfold report_ok in Hfold.
  destruct (GetChannelStats s) as [rep|].
  - destruct Hfold as [Hdom Hrep]. exists rep. split; [reflexivity|]. split.
    + intros name. rewrite Hrep. split.
      * intros [r Hr]. destruct (stats s !! name) as [st|]; simpl in Hr;
          [|done].
        destruct (channels s !! name); [eauto | done].
      * intros [ch Hch].
        destruct (wf_channels s Hwf _ _ Hch) as [_ _ _ _ [st Hst]].
        rewrite Hst. simpl. rewrite Hch. simpl. eauto.
    + intros name r Hr. rewrite Hrep in Hr.
      unfold TotalJobs_of, LastJobTime_of.
      destruct (stats s !! name) as [st|] eqn:Hst; simpl in Hr; [|done].
      destruct (channels s !! name) as [ch|] eqn:Hch; simpl in Hr; [|done].
      injection Hr as <-. simpl.
      destruct (Hin name st Hst) as (_ & Ha & Hf).
      destruct (Hset name ch Hch) as [Hw _]. eauto 10.
  - destruct Hfold as (k & Hk & Hnone).
    rewrite (wf_stats s Hwf _ Hnone) in Hk. now destruct Hk.
Qed.

End Reachable.

(** Two jobs for channel "a" on the example scheduler. *)
Lemma queue_is_FIFO_witness :
  ∃ s', jobscheduler.submit_all exampleScheduler
          [(job_j1, 5, 6); (job_j1, 7, 8)] = Some s'
        ∧ jobscheduler.queue_of s' "a"
          = jobscheduler.queue_of exampleScheduler "a"
            ++ [jobscheduler.pending_job job_j1 5;
                jobscheduler.pending_job job_j1 7]
        ∧ ∀ s'' job, jobscheduler.receive s' "a" = Some (s'', job) →
            Some job = head (jobscheduler.queue_of s' "a")
            ∧ jobscheduler.queue_of s'' "a"
              = tail (jobscheduler.queue_of s' "a").
Proof.
  apply (queue_is_FIFO "a" [(job_j1, 5, 6); (job_j1, 7, 8)] exampleScheduler
           exampleScheduler_wf).
  - repeat constructor.
  - vm_compute. discriminate.
Defined.

Lemma TotalJobs_counts_enqueued_witness :
  ∃ s', jobscheduler.submit_all smallScheduler
          [(job_j1, 5, 6); (job_j1, 7, 8); (job_j3, 9, 10)] = Some s'
        ∧ jobscheduler.TotalJobs_of s' "a"
          - jobscheduler.TotalJobs_of smallScheduler "a"
          = Z.of_nat (length (jobscheduler.queue_of s' "a"))
            - Z.of_nat (length (jobscheduler.queue_of smallScheduler "a")).
Proof.
  apply (TotalJobs_counts_enqueued "a"
           [(job_j1, 5, 6); (job_j1, 7, 8); (job_j3, 9, 10)] smallScheduler
           smallScheduler_wf).
  vm_compute. reflexivity.
Defined.

Lemma SubmitJob_after_Shutdown_witness :
  ∃ s', jobscheduler.SubmitJob (jobscheduler.Shutdown exampleScheduler None).1
          job_j1 5 6 = Some (s', None)
        ∧ (jobscheduler.Shutdown exampleScheduler None).1.(
             jobscheduler.cancelled) = true
        ∧ s'.(jobscheduler.cancelled) = true
        ∧ jobscheduler.queue_of s' "a"
          = jobscheduler.queue_of exampleScheduler "a"
            ++ [jobscheduler.pending_job job_j1 5]
        ∧ jobscheduler.TotalJobs_of s' "a"
          = jobscheduler.int64_incr
              (jobscheduler.TotalJobs_of exampleScheduler "a").
Proof.
  apply (SubmitJob_after_Shutdown exampleScheduler None job_j1 5 6
           exampleScheduler_wf eq_refl).
  vm_compute. reflexivity.
Defined.

(** A job without ID is refused. *)
Lemma Validate_accepts_exactly_witness :
  ∃ msg,
    jobscheduler.SubmitJob exampleScheduler
      (jobscheduler.JobPayload.mk "" "d" 0 0 [] None "" "" 0 0) 5 6
    = Some (exampleScheduler,
            Some (errorString ("invalid job payload: " +:+ msg))).
Proof.
  apply (Validate_accepts_exactly
           (jobscheduler.JobPayload.mk "" "d" 0 0 [] None "" "" 0 0)).
  vm_compute. discriminate.
Defined.

(** The history submit, receive, process, shut down from the default
    configuration. *)
Lemma scheduler_invariants_witness :
  (foldl (jobscheduler.run_op (lib := exampleLib)) exampleScheduler
     [jobscheduler.OpSubmitJob job_j1 5 6;
      jobscheduler.OpReceive "a";
      jobscheduler.OpProcessJob "a" (jobscheduler.pending_job job_j1 5)
        (jobEnv (Some jobscheduler.DeadlineFired) (env_exits None));
      jobscheduler.OpShutdown None]).(jobscheduler.config)
  = jobscheduler.DefaultConfig.
Proof.
  apply (scheduler_invariants (lib := exampleLib)
           jobscheduler.DefaultConfig None None None [] exampleScheduler
           _ eq_refl).
Defined.

Lemma GetChannelStats_reachable_witness :
  let s := foldl (jobscheduler.run_op (lib := exampleLib)) exampleScheduler
             [jobscheduler.OpSubmitJob job_j1 5 6;
              jobscheduler.OpReceive "a";
              jobscheduler.OpProcessJob "a" (jobscheduler.pending_job job_j1 5)
                (jobEnv (Some jobscheduler.DeadlineFired) (env_exits None));
              jobscheduler.OpShutdown None] in
  ∃ rep, jobscheduler.GetChannelStats s = Some rep
         ∧ (∀ name, is_Some (rep !! name)
                    ↔ is_Some (s.(jobscheduler.channels) !! name)).
Proof.
  intros s.
  destruct (GetChannelStats_reachable (lib := exampleLib)
                jobscheduler.DefaultConfig None None None [] exampleScheduler
                [jobscheduler.OpSubmitJob job_j1 5 6;
                 jobscheduler.OpReceive "a";
                 jobscheduler.OpProcessJob "a"
                   (jobscheduler.pending_job job_j1 5)
                   (jobEnv (Some jobscheduler.DeadlineFired) (env_exits None));
                 jobscheduler.OpShutdown None] eq_refl) as (rep & Hrep & Hdom & _).
  exists rep. split; assumption.
Defined.

(** The report after that history: one worker, no active jobs, no
    failed jobs, one job in total, for a job that ended [timed_out]. *)
Example GetChannelStats_after_timed_out_job :
  jobscheduler.GetChannelStats
    (foldl (jobscheduler.run_op (lib := exampleLib)) exampleScheduler
       [jobscheduler.OpSubmitJob job_j1 5 6;
        jobscheduler.OpReceive "a";
        jobscheduler.OpProcessJob "a" (jobscheduler.pending_job job_j1 5)
          (jobEnv (Some jobscheduler.DeadlineFired) (env_exits None))])
  = Some {["a" := jobscheduler.ChannelStats.mk 1 [] 1 0 6]}.
Proof. vm_compute. reflexivity. Qed.

(** ** Active jobs and the dispatch loop *)

Section LanesMore.
Import jobscheduler.
Context `{lib : GoLib}.

Lemma elem_of_GetActiveJobs (p : Processor.t) (j : JobPayload.t) :
  j ∈ GetActiveJobs p ↔ ∃ k, p.(Processor.activeJobs) !! k = Some j.
Proof.
  unfold GetActiveJobs. rewrite list_elem_of_fmap. split.
  - intros ([k j'] & -> & Hin). apply elem_of_map_to_list in Hin. eauto.
  - intros [k Hk]. exists (k, j). split; [reflexivity|].
    now apply elem_of_map_to_list.
Qed.

(** X16.  While a job is inside [processJob] the active-job map holds
    the copy stored on entry, that is the job as it was received, with
    the status it had in the queue and not [running].  When
    [processJob] returns, the map has lost every entry under the
    job's ID, also one stored by another job with the same ID, and
    has kept the entries under other IDs. *)
Theorem active_jobs_snapshot (ch : Channel.t) (ex : executor.Executor)
    (log : File.t) (job : JobPayload.t) (env : JobEnv) :
  job ∈ GetActiveJobs (enter ch job).(Channel.processor)
  ∧ (enter ch job).(Channel.processor).(Processor.activeJobs)
      !! job.(JobPayload.ID) = Some job
  ∧ ∀ j, j ∈ GetActiveJobs (processJob ch ex log job env).1.1.1.(
                 Channel.processor)
         ↔ ∃ k, k ≠ job.(JobPayload.ID)
                ∧ ch.(Channel.processor).(Processor.activeJobs) !! k = Some j.
Proof.
  split; [|split].
  - apply elem_of_GetActiveJobs. exists (JobPayload.ID job).
    unfold enter. simpl. apply lookup_insert_eq.
  - unfold enter. simpl. apply lookup_insert_eq.
  - intros j. rewrite elem_of_GetActiveJobs.
    destruct (processJob_processor ch ex log job env)
      as (_ & _ & _ & _ & _ & ->).
    split.
    + intros [k Hk]. exists k. apply lookup_delete_Some in Hk as [Hne Hk].
      split; [congruence | assumption].
    + intros (k & Hne & Hk). exists k. apply lookup_delete_Some.
      split; [congruence | assumption].
Qed.

(** A step of a lane whose dispatch loop has stopped. *)
Lemma stopped_step (l l' : Lane) :
  l.(lane_stopped) = true → step l l' →
  l'.(lane_stopped) = true
  ∧ l'.(lane_held) = l.(lane_held)
  ∧ l.(lane_channel).(Channel.Jobs) `prefix_of` l'.(lane_channel).(Channel.Jobs)
  ∧ (length l'.(lane_tasks) ≤ length l.(lane_tasks))%nat.
Proof.
  intros Hstop.
  destruct 1 as [ch held tasks stopped job ch' Hsend | | |
                 ch job tasks ch' Hacq | |
                 ch held stopped t1 t2 job ex log env |
                 ch held stopped t1 t2 job ch' Hrel]; simpl in *;
    try discriminate.
  - unfold try_send in Hsend.
    destruct (_ <? _) in Hsend; inversion Hsend; subst. simpl.
    repeat split; first [assumption | reflexivity | lia | now eexists].
  - rewrite !length_app. simpl. repeat split; first [assumption | reflexivity | lia].
  - destruct (processJob_processor ch ex log job env)
      as (_ & _ & -> & _).
    rewrite !length_app. simpl. repeat split; first [assumption | reflexivity | lia].
  - unfold release in Hrel.
    destruct (_ <? _) in Hrel; inversion Hrel; subst. simpl.
    rewrite !length_app. simpl. repeat split; first [assumption | reflexivity | lia].
Qed.

(** X17.  Once the dispatch loop of a channel has stopped it never
    receives again: from then on the queue only grows at the back
    (jobs queued at shutdown, and jobs submitted later, stay there),
    no goroutine is spawned, and the goroutines that exist can only
    finish. *)
Theorem stopped_lane_never_receives (l l' : Lane) :
  l.(lane_stopped) = true → rtc step l l' →
  l'.(lane_stopped) = true
  ∧ l'.(lane_held) = l.(lane_held)
  ∧ l.(lane_channel).(Channel.Jobs) `prefix_of` l'.(lane_channel).(Channel.Jobs)
  ∧ (length l'.(lane_tasks) ≤ length l.(lane_tasks))%nat.
Proof.
  intros Hstop Hreach. revert l' Hreach.
  apply (rtc_ind_r
           (λ l', l'.(lane_stopped) = true
                  ∧ l'.(lane_held) = l.(lane_held)
                  ∧ l.(lane_channel).(Channel.Jobs)
                      `prefix_of` l'.(lane_channel).(Channel.Jobs)
                  ∧ (length l'.(lane_tasks) ≤ length l.(lane_tasks))%nat)).
  - repeat split; [assumption | done | lia].
  - intros l1 l2 _ Hstep (Hs1 & Hh1 & Hp1 & Hl1).
    destruct (stopped_step l1 l2 Hs1 Hstep) as (Hs2 & Hh2 & Hp2 & Hl2).
    repeat split; [assumption | congruence | by etrans | lia].
Qed.

(** X18.  In every state that a processor reaches from its start, the
    deferred receive from [workerPool] can be taken whenever a
    goroutine exists, so a finished job always gives its slot back;
    and a slot can be acquired exactly when fewer goroutines than the
    pool's capacity exist. *)
Theorem worker_slots_never_stuck (ch : Channel.t) (l : Lane) :
  ch.(Channel.processor).(Processor.workerPool) = 0 →
  0 ≤ ch.(Channel.processor).(Processor.workerPool_cap) →
  rtc step (mkLane ch None [] false) l →
  (l.(lane_tasks) ≠ [] → is_Some (release l.(lane_channel)))
  ∧ (is_Some (acquire l.(lane_channel))
     ↔ Z.of_nat (length l.(lane_tasks))
       < ch.(Channel.processor).(Processor.workerPool_cap)).
Proof.
  intros Hzero Hcap0 Hreach.
  assert (H0 : lane_inv (mkLane ch None [] false)).
  { unfold lane_inv. simpl. rewrite Hzero. split; [reflexivity | assumption]. }
  destruct (reachable_inv _ l H0 Hreach) as [[Hpool Hcap] Hset].
  unfold lane_settings in Hset. simpl in Hset.
  injection Hset as _ _ Hpoolcap. split.
  - intros Htasks. unfold release.
    destruct (0 <? _) eqn:E; [eauto|].
    destruct (lane_tasks l); [done|]. simpl in Hpool. lia.
  - unfold acquire. rewrite <- Hpoolcap, <- Hpool.
    destruct (_ <? _) eqn:E; split; intros H; eauto; try lia.
    now destruct H.
Qed.

End LanesMore.

(** A stopped loop of channel "c" and one later submission. *)
Lemma stopped_lane_never_receives_witness :
  let l := jobscheduler.mkLane ch_c None [] true in
  let l' := jobscheduler.mkLane
              (jobscheduler.Channel.set_Jobs ch_c
                 [jobscheduler.pending_job job_j3 5]) None [] true in
  l'.(jobscheduler.lane_stopped) = true
  ∧ l'.(jobscheduler.lane_held) = l.(jobscheduler.lane_held)
  ∧ l.(jobscheduler.lane_channel).(jobscheduler.Channel.Jobs)
      `prefix_of` l'.(jobscheduler.lane_channel).(jobscheduler.Channel.Jobs)
  ∧ (length l'.(jobscheduler.lane_tasks)
     ≤ length l.(jobscheduler.lane_tasks))%nat.
Proof.
  intros l l'.
  apply (stopped_lane_never_receives (lib := exampleLib) l l' eq_refl).
  apply rtc_once.
  apply (jobscheduler.step_send _ _ _ _ (jobscheduler.pending_job job_j3 5)).
  reflexivity.
Defined.

(** The fresh processor of channel "c": a slot can be acquired. *)
Lemma worker_slots_never_stuck_witness :
  is_Some (jobscheduler.acquire ch_c)
  ↔ Z.of_nat (length (@nil (jobscheduler.Phase * jobscheduler.JobPayload.t)))
    < ch_c.(jobscheduler.Channel.processor).(
        jobscheduler.Processor.workerPool_cap).
Proof.
  apply (worker_slots_never_stuck (lib := exampleLib) ch_c
           (jobscheduler.mkLane ch_c None [] false));
    [reflexivity | vm_compute; discriminate | apply rtc_refl].
Defined.

(** ** Configuration of the web server and of the two mains *)

Section ServerConfig.
Import webserver_config.

Lemma or_default_idem (x d : Z) :
  d ≠ 0 → or_default (or_default x d) d = or_default x d.
Proof.
  intros Hd. unfold or_default. destruct (x =? 0) eqn:E.
  - destruct (d =? 0) eqn:E'; [lia | reflexivity].
  - now rewrite E.
Qed.

Lemma or_default_string_idem (x d : string) :
  d ≠ "" → or_default_string (or_default_string x d) d = or_default_string x d.
Proof.
  intros Hd. unfold or_default_string.
  destruct (String.eqb_spec x "") as [Hx|Hx].
  - destruct (String.eqb_spec d ""); [contradiction | reflexivity].
  - destruct (String.eqb_spec x ""); [contradiction | reflexivity].
Qed.

(** X19.  [setDefaults] is idempotent, and it only fills fields that
    are zero or empty: a field that is set, also to a negative value,
    is left as it is. *)
Theorem setDefaults_idempotent (c : Config) :
  setDefaults (setDefaults c) = setDefaults c
  ∧ (c.(Scheduler).(SchedulerConfig.DefaultWorkers) ≠ 0 →
     (setDefaults c).(Scheduler).(SchedulerConfig.DefaultWorkers)
     = c.(Scheduler).(SchedulerConfig.DefaultWorkers))
  ∧ (c.(Server).(ServerConfig.Port) ≠ 0 →
     (setDefaults c).(Server).(ServerConfig.Port)
     = c.(Server).(ServerConfig.Port)).
Proof.
  split; [|split].
  - unfold setDefaults. simpl.
    rewrite !or_default_idem by (vm_compute; discriminate).
    now rewrite !or_default_string_idem by discriminate.
  - intros Hw. simpl. unfold or_default.
    destruct (_ =? 0) eqn:E; [lia | reflexivity].
  - intros Hp. simpl. unfold or_default.
    destruct (_ =? 0) eqn:E; [lia | reflexivity].
Qed.

(** X20.  [Load], once the file is read and parsed, accepts a
    configuration exactly when the port is in 0..65535, the default
    worker count and the maximal queue size are not negative, TLS is
    off or has both a certificate and a key, and rate limiting is off
    or its requests per minute are not negative; what it returns is
    the parsed configuration with the defaults filled in.  The two
    timeouts of the scheduler are not checked. *)
Theorem Load_accepts_exactly (c c' : Config) :
  Load None (inr c) = inr c'
  ↔ c' = setDefaults c
    ∧ 0 ≤ c.(Server).(ServerConfig.Port) ≤ 65535
    ∧ 0 ≤ c.(Scheduler).(SchedulerConfig.DefaultWorkers)
    ∧ 0 ≤ c.(Scheduler).(SchedulerConfig.MaxQueueSize)
    ∧ (c.(Security).(SecurityConfig.EnableTLS) = true →
       c.(Security).(SecurityConfig.TLSCert) ≠ ""
       ∧ c.(Security).(SecurityConfig.TLSKey) ≠ "")
    ∧ (c.(Security).(SecurityConfig.RateLimit).(RateLimitConfig.Enabled) = true →
       0 ≤ c.(Security).(SecurityConfig.RateLimit).(
             RateLimitConfig.RequestsPerMin)).
Proof.
  unfold Load, validate. simpl. unfold or_default.
  destruct c as [sv sc se lg]. simpl.
  destruct sv as [host port rt wt it mh ao], sc as [lp dw dt mq wd mo st rp],
    se as [key te tls cert tkey [en rpm bs] ips]. simpl.
  destruct (port =? 0) eqn:Ep, (dw =? 0) eqn:Ew, (mq =? 0) eqn:Eq,
    (rpm =? 0) eqn:Er;
  repeat match goal with
         | |- context [?a <? ?b] => destruct (a <? b) eqn:?
         | |- context [?a >? ?b] => destruct (a >? b) eqn:?
         end; simpl;
  destruct tls, en; simpl;
  destruct (String.eqb_spec cert ""), (String.eqb_spec tkey ""); simpl;
  (split;
   [ intros Heq; try discriminate Heq; injection Heq as <-;
     repeat split; try lia; try assumption; try discriminate; reflexivity
   | intros (-> & Hp & Hw & Hq & Htls & Hrl);
     try lia;
     try (destruct (Htls eq_refl) as [? ?]; contradiction);
     try (specialize (Hrl eq_refl); lia);
     reflexivity ]).
Qed.

End ServerConfig.

Section Mains.
Import jobscheduler.

(** X21.  The scheduler configuration that the server's [main] builds
    from the loaded configuration never sets [ChannelBufferSize], so
    [NewScheduler] rejects it for every loaded configuration, before
    touching the file system; when the loaded values pass the other
    checks the error is "channel buffer size must be at least 1". *)
Theorem server_main_scheduler_rejected (cfg : webserver_config.Config)
    (mkdir open mkdir_exec : option error) (old_lines : list string) :
  (∃ msg,
     NewScheduler (server_main_Config cfg) mkdir open mkdir_exec old_lines
     = inl (errorString ("invalid configuration: " +:+ msg)))
  ∧ (let sc := cfg.(webserver_config.Scheduler) in
     sc.(webserver_config.SchedulerConfig.LogPath) ≠ "" →
     1 ≤ sc.(webserver_config.SchedulerConfig.DefaultWorkers) →
     Second ≤ sc.(webserver_config.SchedulerConfig.DefaultTimeout) →
     1 ≤ sc.(webserver_config.SchedulerConfig.MaxQueueSize) →
     sc.(webserver_config.SchedulerConfig.WorkDir) ≠ "" →
     Second ≤ sc.(webserver_config.SchedulerConfig.ShutdownTimeout) →
     NewScheduler (server_main_Config cfg) mkdir open mkdir_exec old_lines
     = inl (errorString
              "invalid configuration: channel buffer size must be at least 1")).
Proof.
  unfold NewScheduler, server_main_Config, Config.Validate. simpl. split.
  - repeat match goal with
           | |- context [if ?b then _ else _] => destruct b
           end; eexists; reflexivity.
  - intros Hlp Hw Ht Hq Hwd Hst.
    destruct (String.eqb_spec
                (webserver_config.SchedulerConfig.LogPath
                   (webserver_config.Scheduler cfg)) ""); [contradiction|].
    destruct (String.eqb_spec
                (webserver_config.SchedulerConfig.WorkDir
                   (webserver_config.Scheduler cfg)) ""); [contradiction|].
    repeat match goal with
           | |- context [?a <? ?b] =>
               destruct (a <? b) eqn:?; try lia
           end.
    reflexivity.
Qed.

(** X22.  The configuration that the example [main] builds from its
    three flags leaves the queue size, the work directory, the
    shutdown timeout and the channel buffer size at zero:
    [NewScheduler] rejects it whatever the flags are; with a log
    path, at least one worker and a timeout of a second or more, the
    error is "max queue size must be at least 1". *)
Theorem example_main_scheduler_rejected (processingLog : string)
    (workers timeout : Z) (mkdir open mkdir_exec : option error)
    (old_lines : list string) :
  (∃ msg,
     NewScheduler (example_main_Config processingLog workers timeout)
       mkdir open mkdir_exec old_lines
     = inl (errorString ("invalid configuration: " +:+ msg)))
  ∧ (processingLog ≠ "" → 1 ≤ workers → Second ≤ timeout →
     NewScheduler (example_main_Config processingLog workers timeout)
       mkdir open mkdir_exec old_lines
     = inl (errorString
              "invalid configuration: max queue size must be at least 1")).
Proof.
  unfold NewScheduler, example_main_Config, Config.Validate. simpl. split.
  - repeat match goal with
           | |- context [if ?b then _ else _] => destruct b
           end; eexists; reflexivity.
  - intros Hlp Hw Ht.
    destruct (String.eqb_spec processingLog ""); [contradiction|].
    repeat match goal with
           | |- context [?a <? ?b] =>
               destruct (a <? b) eqn:?; try lia
           end.
    reflexivity.
Qed.

End Mains.

(** The flag defaults of the example: "processing.log", 2 workers,
    5 minutes. *)
Lemma example_main_scheduler_rejected_witness :
  jobscheduler.NewScheduler
    (example_main_Config "processing.log" 2 (5 * jobscheduler.Minute))
    None None None []
  = inl (errorString
           "invalid configuration: max queue size must be at least 1").
Proof.
  apply (example_main_scheduler_rejected "processing.log" 2
           (5 * jobscheduler.Minute) None None None []);
    [discriminate | lia | vm_compute; discriminate].
Defined.

(** ** The web server: handlers *)

Section Handlers.
Import jobscheduler handlers.

(** A request that passes the checks of the API converts to a job
    that passes those of the scheduler. *)
Lemma job_of_request_valid (req : api.SubmitJobRequest.t) :
  api.SubmitJobRequest.Validate req = None →
  JobPayload.Validate (job_of_request req) = None.
Proof.
  unfold api.SubmitJobRequest.Validate, JobPayload.Validate, job_of_request.
  intros Hv.
  repeat match type of Hv with
         | (if ?b then _ else _) = None =>
             destruct b eqn:?; [discriminate Hv|]
         end.
  destruct (api.SubmitJobRequest.Application req) as [app|]; simpl in *.
  - rewrite Heqb, Heqb0, Heqb1, Heqb3. reflexivity.
  - rewrite Heqb, Heqb0, Heqb1. reflexivity.
Qed.

Lemma job_of_request_Channel (req : api.SubmitJobRequest.t) :
  (job_of_request req).(JobPayload.Channel) = req.(api.SubmitJobRequest.Channel).
Proof. unfold job_of_request. now destruct (api.SubmitJobRequest.Application req). Qed.

(** X23.  On a well-formed scheduler [handleSubmitJob] answers a
    request that passes [SubmitJobRequest.Validate] in one of two
    ways: 202 with the converted job at the back of its channel's
    queue when the queue has room, and otherwise 500 "channel ... is
    full" with the scheduler unchanged.  The scheduler's own
    validation never rejects what the API's validation accepted. *)
Theorem handleSubmitJob_valid_request
    (json_Encode : api.SubmitJobResponse.t → string) (s : Scheduler)
    (w : http.ResponseWriter) (req : api.SubmitJobRequest.t)
    (now_pending now_stats now : Z) :
  wf s →
  api.SubmitJobRequest.Validate req = None →
  handleSubmitJob json_Encode s w (inr req) now_pending now_stats now
  = Some
      (if Z.of_nat (length (queue_of s req.(api.SubmitJobRequest.Channel)))
          <? s.(config).(Config.ChannelBufferSize)
       then (enqueued s (job_of_request req) now_pending now_stats,
             accepted json_Encode w (job_of_request req) now)
       else (s, http.Error w
                  ("Failed to submit job: channel "
                   +:+ req.(api.SubmitJobRequest.Channel) +:+ " is full")
                  http.StatusInternalServerError)).
Proof.
  intros Hwf Hv. unfold handleSubmitJob. rewrite Hv.
  pose proof (job_of_request_valid req Hv) as Hj.
  rewrite <- (job_of_request_Channel req).
  destruct (Z.ltb_spec
              (Z.of_nat (length (queue_of s (JobPayload.Channel (job_of_request req)))))
              (Config.ChannelBufferSize (config s))) as [Hroom|Hfull].
  - destruct (SubmitJob_enqueued s _ now_pending now_stats Hwf Hj Hroom) as [-> _].
    reflexivity.
  - rewrite (SubmitJob_queue_full_unchanged s _ now_pending now_stats Hwf Hj Hfull).
    reflexivity.
Qed.

End Handlers.

Section HandlersMore.
Import jobscheduler handlers.

(** The product with [time.Second] is exact up to 9223372036 seconds
    and negative from there up to 18446744073 seconds. *)
Lemma int64_mul_Second (x : Z) :
  0 ≤ x ≤ 18446744073 →
  (x ≤ 9223372036 → int64_mul x Second = x * Second)
  ∧ (9223372036 < x → int64_mul x Second < 0).
Proof.
  intros Hx. unfold int64_mul, Second. split; intros Hb.
  - rewrite Z.mod_small by lia. lia.
  - replace (x * 1000000000 + 2 ^ 63)
      with ((x * 1000000000 - 2 ^ 63) + 1 * 2 ^ 64) by lia.
    rewrite Z.mod_add by lia. rewrite Z.mod_small by lia. lia.
Qed.

(** X24.  The first accepted request for a channel fixes the
    channel's settings from the request: the worker count, or the
    default for 0; and [timeout_seconds] as a duration, or the default
    timeout for 0 and also for every value from 9223372037 to
    18446744073, whose product with [time.Second] wraps to a negative
    [int64].  Priority, tags, notification settings and the
    application's own timeout have no effect on the channel. *)
Theorem handleSubmitJob_first_request
    (json_Encode : api.SubmitJobResponse.t → string) (s : Scheduler)
    (w : http.ResponseWriter) (req : api.SubmitJobRequest.t)
    (now_pending now_stats now : Z) :
  wf s →
  api.SubmitJobRequest.Validate req = None →
  s.(channels) !! req.(api.SubmitJobRequest.Channel) = None →
  req.(api.SubmitJobRequest.TimeoutSeconds) ≤ 18446744073 →
  ∃ s' w' ch,
    handleSubmitJob json_Encode s w (inr req) now_pending now_stats now
    = Some (s', w')
    ∧ w'.(http.Status) = Some (default http.StatusAccepted w.(http.Status))
    ∧ s'.(channels) !! req.(api.SubmitJobRequest.Channel) = Some ch
    ∧ ch.(Channel.Workers)
      = (if req.(api.SubmitJobRequest.Workers) =? 0
         then s.(config).(Config.DefaultWorkers)
         else req.(api.SubmitJobRequest.Workers))
    ∧ ch.(Channel.Timeout)
      = (if (req.(api.SubmitJobRequest.TimeoutSeconds) =? 0)
            || (9223372036 <? req.(api.SubmitJobRequest.TimeoutSeconds))
         then s.(config).(Config.DefaultTimeout)
         else req.(api.SubmitJobRequest.TimeoutSeconds) * Second)
    ∧ ch.(Channel.Jobs_cap) = s.(config).(Config.ChannelBufferSize)
    ∧ ch.(Channel.Jobs) = [pending_job (job_of_request req) now_pending].
Proof.
  intros Hwf Hv Hch Hmax. unfold handleSubmitJob. rewrite Hv.
  pose proof (job_of_request_valid req Hv) as Hj.
  pose proof (job_of_request_Channel req) as Hc.
  rewrite (SubmitJob_new s (job_of_request req) now_pending now_stats
             (wf_config s Hwf) Hj) by now rewrite Hc.
  simpl. do 3 eexists. split; [reflexivity|].
  cbn [channels]. rewrite Hc, lookup_insert_eq.
  split; [|split; [reflexivity|]].
  { unfold accepted, http.Write, http.WriteHeader, http.Header_Set. simpl.
    now destruct (http.Status w). }
  assert (Hw : 0 ≤ api.SubmitJobRequest.Workers req
               ∧ 0 ≤ api.SubmitJobRequest.TimeoutSeconds req).
  { unfold api.SubmitJobRequest.Validate in Hv.
    repeat match type of Hv with
           | (if ?b then _ else _) = None =>
               destruct b eqn:?; [discriminate Hv|]
           end. lia. }
  destruct Hw as [Hw Ht].
  assert (Hjw : JobPayload.Workers (job_of_request req)
                = api.SubmitJobRequest.Workers req).
  { unfold job_of_request. now destruct (api.SubmitJobRequest.Application req). }
  assert (Hjt : JobPayload.Timeout (job_of_request req)
                = int64_mul (api.SubmitJobRequest.TimeoutSeconds req) Second).
  { unfold job_of_request. now destruct (api.SubmitJobRequest.Application req). }
  unfold created_channel. simpl. rewrite Hjw, Hjt.
  destruct (int64_mul_Second (api.SubmitJobRequest.TimeoutSeconds req))
    as [Hexact Hwrap]; [lia|].
  split; [|split; [|split; reflexivity]].
  - destruct (Z.eqb_spec (api.SubmitJobRequest.Workers req) 0) as [->|Hne].
    + reflexivity.
    + destruct (Z.ltb_spec 0 (api.SubmitJobRequest.Workers req)); [reflexivity|lia].
  - destruct (Z.eqb_spec (api.SubmitJobRequest.TimeoutSeconds req) 0) as [H0|H0];
      simpl.
    + rewrite H0. reflexivity.
    + destruct (Z.ltb_spec 9223372036 (api.SubmitJobRequest.TimeoutSeconds req))
        as [Hbig|Hsmall].
      * specialize (Hwrap Hbig).
        destruct (Z.ltb_spec 0 (int64_mul (api.SubmitJobRequest.TimeoutSeconds req)
                                  Second)); [lia|reflexivity].
      * rewrite (Hexact Hsmall).
        destruct (Z.ltb_spec 0 (api.SubmitJobRequest.TimeoutSeconds req * Second));
          [reflexivity | unfold Second in *; lia].
Qed.

End HandlersMore.

Section StatsHandler.
Import jobscheduler handlers.
Context `{lib : GoLib}.

(** The copy that [handleChannelStats] builds without a filter is the
    conversion of every record. *)
Lemma convert_all (stats : gmap string ChannelStats.t) :
  map_fold (λ ch stat response, <[ch := convertToAPIStats stat]> response)
    (∅ : gmap string api.ChannelStats.t) stats
  = convertToAPIStats <$> stats.
Proof.
  apply (map_fold_weak_ind
           (λ (r : gmap string api.ChannelStats.t)
              (m : gmap string ChannelStats.t), r = convertToAPIStats <$> m)).
  - now rewrite fmap_empty.
  - intros i x m r Hi ->. now rewrite fmap_insert.
Qed.

(** On a well-formed scheduler with inert statistics the report has
    one record per channel. *)
Lemma GetChannelStats_wf (s : Scheduler) :
  wf s → stats_inert s →
  ∃ rep,
    GetChannelStats s = Some rep
    ∧ ∀ name,
        rep !! name
        = (ch ← s.(channels) !! name;
           Some (ChannelStats.mk ch.(Channel.Workers) []
                   (TotalJobs_of s name) 0 (LastJobTime_of s name))).
Proof.
  intros Hwf Hin.
  pose proof (GetChannelStats_fold s) as Hfold. unfold report_ok in Hfold.
  destruct (GetChannelStats s) as [rep|].
  - destruct Hfold as [Hdom Hrep]. exists rep. split; [reflexivity|].
    intros name. rewrite Hrep. unfold TotalJobs_of, LastJobTime_of.
    destruct (channels s !! name) as [ch|] eqn:Hch; simpl.
    + destruct (wf_channels s Hwf _ _ Hch) as [_ _ _ _ [st Hst]].
      rewrite Hst. simpl.
      destruct (Hin name st Hst) as (_ & -> & ->). reflexivity.
    + now rewrite (wf_stats s Hwf _ Hch).
  - destruct Hfold as (k & Hk & Hnone).
    rewrite (wf_stats s Hwf _ Hnone) in Hk. now destruct Hk.
Qed.

(** X25.  In every state that a new scheduler reaches,
    [handleChannelStats] answers without panic.  With a channel
    filter the response holds that channel alone, or nothing when the
    name is unknown; without one it holds every channel.  Each record
    shows the channel's worker count, [TotalJobs] and [LastJobTime];
    its active jobs, failed jobs, queue size, uptime and throughput
    are always empty or zero, whatever the queue holds. *)
Theorem handleChannelStats_reachable (cfg : Config.t)
    (mkdir open mkdir_exec : option error) (old_lines : list string)
    (s0 : Scheduler) (ops : list op) (channel : string) :
  NewScheduler cfg mkdir open mkdir_exec old_lines = inr s0 →
  let s := foldl run_op s0 ops in
  ∃ response,
    handleChannelStats s channel = Some response
    ∧ ∀ name,
        response !! name
        = (if bool_decide (channel = "" ∨ name = channel)
           then ch ← s.(channels) !! name;
                Some (api.ChannelStats.mk ch.(Channel.Workers) []
                        (TotalJobs_of s name) 0 (LastJobTime_of s name)
                        "" 0 0)
           else None).
Proof.
  intros Hnew s.
  destruct (reachable_invariants cfg mkdir open mkdir_exec old_lines s0 ops
              Hnew) as (Hwf & Hin & _ & _).
  fold s in Hwf, Hin.
  destruct (GetChannelStats_wf s Hwf Hin) as (rep & Hrep & Hlook).
  unfold handleChannelStats. rewrite Hrep. simpl.
  destruct (String.eqb_spec channel "") as [->|Hne]; simpl.
  - eexists. split; [reflexivity|]. intros name.
    rewrite convert_all, lookup_fmap, Hlook.
    now destruct (channels s !! name).
  - destruct (rep !! channel) as [st|] eqn:Hst.
    + eexists. split; [reflexivity|]. intros name.
      destruct (decide (name = channel)) as [->|Hn].
      * rewrite bool_decide_eq_true_2 by now right.
        rewrite lookup_singleton_eq. rewrite Hlook in Hst.
        destruct (channels s !! channel); simpl in *; [|done].
        now injection Hst as <-.
      * rewrite bool_decide_eq_false_2 by (intros [?|?]; done).
        now rewrite lookup_singleton_ne.
    + eexists. split; [reflexivity|]. intros name. rewrite lookup_empty.
      destruct (decide (name = channel)) as [->|Hn].
      * rewrite bool_decide_eq_true_2 by now right.
        rewrite Hlook in Hst. now destruct (channels s !! channel).
      * now rewrite bool_decide_eq_false_2 by (intros [?|?]; done).
Qed.

End StatsHandler.

(** ** The web server: middleware *)

Section Split.
Variable sep : Ascii.ascii.

Lemma Split_nonempty (s : string) : strings_Split s sep ≠ [].
Proof.
  destruct s as [|c s]; simpl; [discriminate|].
  destruct (Ascii.eqb c sep); [discriminate|].
  destruct (strings_Split s sep); discriminate.
Qed.

Lemma Split_no_sep (s : string) :
  has_byte sep s = false → strings_Split s sep = [s].
Proof.
  induction s as [|c s IH]; simpl; [reflexivity|].
  intros H. apply orb_false_iff in H as [Hc Hs].
  rewrite Hc, (IH Hs). reflexivity.
Qed.

Lemma Split_one (s p : string) :
  strings_Split s sep = [p] → s = p ∧ has_byte sep s = false.
Proof.
  revert p. induction s as [|c s IH]; simpl; intros p H.
  - now injection H as <-.
  - destruct (Ascii.eqb c sep) eqn:Hc.
    + injection H as _ H. now apply Split_nonempty in H.
    + destruct (strings_Split s sep) as [|x xs] eqn:Hs.
      * now apply Split_nonempty in Hs.
      * injection H as <- ->. destruct (IH x eq_refl) as [-> Hn].
        now rewrite Hn.
Qed.

Lemma Split_two (s p0 p1 : string) :
  strings_Split s sep = [p0; p1] →
  s = p0 +:+ String sep p1
  ∧ has_byte sep p0 = false ∧ has_byte sep p1 = false.
Proof.
  revert p0. induction s as [|c s IH]; simpl; intros p0 H; [discriminate|].
  destruct (Ascii.eqb_spec c sep) as [->|Hc].
  - injection H as <- H. apply Split_one in H as [-> Hn]. auto.
  - destruct (strings_Split s sep) as [|x xs] eqn:Hs; [discriminate|].
    injection H as <- ->. destruct (IH x eq_refl) as (-> & Hx & Hp1).
    simpl. apply Ascii.eqb_neq in Hc. rewrite Hc, Hx. auto.
Qed.

Lemma Split_app (a b : string) :
  has_byte sep a = false →
  strings_Split (a +:+ String sep b) sep = a :: strings_Split b sep.
Proof.
  induction a as [|c a IH]; simpl; intros H.
  - now rewrite Ascii.eqb_refl.
  - apply orb_false_iff in H as [Hc Ha]. rewrite Hc, (IH Ha). reflexivity.
Qed.

Lemma has_byte_app (a b : string) :
  has_byte sep (a +:+ b) = has_byte sep a || has_byte sep b.
Proof.
  induction a as [|c a IH]; simpl; [reflexivity|].
  now rewrite IH, orb_assoc.
Qed.

Lemma has_byte_head (s : string) : has_byte sep (String sep s) = true.
Proof. simpl. now rewrite Ascii.eqb_refl. Qed.

End Split.

Section AuthMiddleware.
Import middleware.

(** The token that [extractToken] finds is a given key without a
    space exactly for the key itself and for "Bearer " followed by
    the key; it is empty exactly for the empty header and for the
    header "Bearer ". *)
Lemma extractToken_key (header key : string) :
  has_byte space key = false → key ≠ "" →
  extractToken header = key ↔ header = key ∨ header = "Bearer " +:+ key.
Proof.
  intros Hk Hne. unfold extractToken.
  destruct (String.eqb_spec header "") as [->|Hh].
  { split; [intros <-; contradiction|].
    intros [<-|H]; [contradiction | discriminate H]. }
  destruct (strings_Split header space) as [|p0 [|p1 [|p2 ps]]] eqn:Hs.
  - now apply Split_nonempty in Hs.
  - apply Split_one in Hs as [<- Hn]. split; [auto|].
    intros [H|H]; [assumption|]. subst header.
    change ("Bearer " +:+ key) with ("Bearer" +:+ String space key) in Hn.
    rewrite has_byte_app, has_byte_head, orb_true_r in Hn. discriminate Hn.
  - apply Split_two in Hs as (-> & Hp0 & Hp1).
    destruct (String.eqb_spec p0 "Bearer") as [->|Hb].
    + split.
      * intros ->. now right.
      * intros [H|H].
        -- rewrite <- H, has_byte_app, has_byte_head, orb_true_r in Hk.
           discriminate Hk.
        -- change ("Bearer " +:+ key) with ("Bearer" +:+ String space key) in H.
           simpl in H. now injection H.
    + split; [auto|]. intros [H|H]; [assumption|].
      change ("Bearer " +:+ key) with ("Bearer" +:+ String space key) in H.
      exfalso. apply Hb.
      assert (Hsp : strings_Split (p0 +:+ String space p1) space
                    = strings_Split ("Bearer" +:+ String space key) space)
        by now rewrite H.
      rewrite (Split_app _ p0 p1 Hp0) in Hsp.
      rewrite (Split_app space "Bearer" key eq_refl) in Hsp. now injection Hsp.
  - split; [auto|]. intros [H|H]; [assumption|]. subst header.
    change ("Bearer " +:+ key) with ("Bearer" +:+ String space key) in Hs.
    rewrite (Split_app space "Bearer" key eq_refl), (Split_no_sep _ _ Hk) in Hs.
    discriminate Hs.
Qed.

Lemma extractToken_empty (header : string) :
  extractToken header = "" ↔ header = "" ∨ header = "Bearer ".
Proof.
  unfold extractToken.
  destruct (String.eqb_spec header "") as [->|Hh]; [split; auto|].
  destruct (strings_Split header space) as [|p0 [|p1 [|p2 ps]]] eqn:Hs.
  - now apply Split_nonempty in Hs.
  - apply Split_one in Hs as [<- Hn]. split; [auto|].
    intros [H|H]; [assumption|]. subst header. discriminate Hn.
  - apply Split_two in Hs as (-> & Hp0 & Hp1).
    destruct (String.eqb_spec p0 "Bearer") as [->|Hb].
    + split.
      * intros ->. now right.
      * intros [H|H]; [discriminate H|]. simpl in H. now injection H.
    + split; [auto|]. intros [H|H]; [assumption|]. exfalso. apply Hb.
      assert (Hsp : strings_Split (p0 +:+ String space p1) space
                    = strings_Split "Bearer " space) by now rewrite H.
      rewrite (Split_app _ p0 p1 Hp0) in Hsp. now injection Hsp.
  - split; [auto|]. intros [H|H]; [assumption|]. subst header.
    discriminate Hs.
Qed.

(** X26.  For an API key without a space and a path other than
    /health and /metrics, [Auth] hands the request to the next handler
    exactly when the key is not empty and the Authorization header is
    the key itself or "Bearer " followed by the key; the request then
    carries the key as its token.  Every other request is answered
    401 and does not reach the next handler: "Missing authentication
    token" for an absent header and for "Bearer ", "Invalid
    authentication token" otherwise.  With an empty key no request is
    let through. *)
Theorem Auth_accepts_exactly (apiKey : string) (now : Z) (next : Handler)
    (r : Request) (w : http.ResponseWriter) :
  has_byte space apiKey = false →
  r.(Path) ≠ "/health" → r.(Path) ≠ "/metrics" →
  let header := http.Header_Get r.(Header) "Authorization" in
  Auth apiKey now next r w
  = if bool_decide (apiKey ≠ ""
                    ∧ (header = apiKey ∨ header = "Bearer " +:+ apiKey))
    then next (WithValue r "auth_info" (mkAuthInfo apiKey now 0)) w
    else http.Error w
           (if bool_decide (header = "" ∨ header = "Bearer ")
            then "Missing authentication token"
            else "Invalid authentication token")
           http.StatusUnauthorized.
Proof.
  intros Hk Hp1 Hp2 header. unfold Auth, shouldSkipAuth. simpl.
  destruct (String.eqb_spec (Path r) "/health"); [contradiction|].
  destruct (String.eqb_spec (Path r) "/metrics"); [contradiction|].
  simpl. fold header.
  pose proof (extractToken_empty header) as Hempty.
  destruct (String.eqb_spec (extractToken header) "") as [He|He].
  - rewrite (bool_decide_eq_true_2 _ (proj1 Hempty He)).
    rewrite bool_decide_eq_false_2; [reflexivity|].
    intros [Hne Hh]. apply (extractToken_key header apiKey Hk Hne) in Hh.
    congruence.
  - rewrite (bool_decide_eq_false_2 (header = "" ∨ header = "Bearer "))
      by (intros H; apply He, Hempty, H).
    unfold validateToken, ConstantTimeCompare.
    destruct (String.eqb_spec (extractToken header) apiKey) as [Ht|Ht]; simpl.
    + assert (Hne : apiKey ≠ "") by congruence.
      rewrite bool_decide_eq_true_2
        by (split; [assumption | now apply extractToken_key]).
      now rewrite Ht.
    + rewrite bool_decide_eq_false_2; [reflexivity|].
      intros [Hne Hh]. now apply (extractToken_key header apiKey Hk Hne) in Hh.
Qed.

End AuthMiddleware.

Section CORSMiddleware.
Import middleware.

Lemma origin_allowed_spec (allowedOrigins : list string) (origin : string) :
  origin_allowed allowedOrigins origin = true
  ↔ "*" ∈ allowedOrigins ∨ origin ∈ allowedOrigins.
Proof.
  induction allowedOrigins as [|a l IH]; simpl.
  - split; [discriminate|]. intros [H|H]; inversion H.
  - destruct (String.eqb_spec a "*") as [->|Hs]; simpl.
    { split; [|reflexivity]. intros _. left. left. }
    destruct (String.eqb_spec a origin) as [->|Ho].
    { split; [|reflexivity]. intros _. right. left. }
    rewrite IH. split.
    + intros [H|H]; [left | right]; now right.
    + intros [H|H]; apply elem_of_cons in H as [H|H];
        try (symmetry in H; contradiction); auto.
Qed.

(** The response writer after the headers of an allowed origin. *)
Lemma set_CORS_headers_spec (cfg : CORSConfig) (origin : string)
    (w : http.ResponseWriter) :
  let w' := set_CORS_headers cfg origin w in
  w'.(http.Status) = w.(http.Status) ∧ w'.(http.Body) = w.(http.Body)
  ∧ w'.(http.Header) !! "Access-Control-Allow-Origin" = Some origin
  ∧ w'.(http.Header) !! "Access-Control-Max-Age"
    = Some (string_of_rune cfg.(MaxAge))
  ∧ (cfg.(AllowCredentials) = true →
     w'.(http.Header) !! "Access-Control-Allow-Credentials" = Some "true").
Proof.
  unfold set_CORS_headers. destruct (AllowCredentials cfg); simpl.
  - repeat split; try reflexivity.
    + now rewrite !lookup_insert_ne, lookup_insert_eq by discriminate.
    + now rewrite !lookup_insert_ne, lookup_insert_eq by discriminate.
    + intros _. now rewrite lookup_insert_eq.
  - repeat split; try reflexivity.
    + now rewrite !lookup_insert_ne, lookup_insert_eq by discriminate.
    + now rewrite lookup_insert_eq.
    + discriminate.
Qed.

Lemma CORS_allowed (allowedOrigins : list string) (origin : string) :
  allowedOrigins = [] ∨ "*" ∈ allowedOrigins ∨ origin ∈ allowedOrigins →
  ∃ cfg,
    cfg.(AllowCredentials) = true ∧ cfg.(MaxAge) = 86400
    ∧ ∀ next r w,
        http.Header_Get r.(Header) "Origin" = origin → origin ≠ "" →
        CORS allowedOrigins next r w
        = (if String.eqb r.(Method) http.MethodOptions
           then http.WriteHeader (set_CORS_headers cfg origin w)
                  http.StatusNoContent
           else next r (set_CORS_headers cfg origin w)).
Proof.
  intros Hal. unfold CORS.
  destruct allowedOrigins as [|a l].
  - change (0 <? length (@nil string))%nat with false. cbv iota.
    exists DefaultCORSConfig. split; [reflexivity|]. split; [reflexivity|].
    intros next r w -> Hne.
    destruct (String.eqb_spec origin ""); [contradiction|].
    reflexivity.
  - change (0 <? length (a :: l))%nat with true. cbv iota.
    eexists. split; [|split]; [| |intros next r w -> Hne].
    3: { destruct (String.eqb_spec origin ""); [contradiction|].
         cbn [AllowedOrigins].
         replace (origin_allowed (a :: l) origin) with true; [reflexivity|].
         symmetry. apply origin_allowed_spec.
         destruct Hal as [H|[H|H]]; [discriminate H | now left | now right]. }
    all: reflexivity.
Qed.

(** X27.  [CORS] answers a request with an Origin header in one of
    two ways.  When no origins are configured, or "*" or the origin
    itself is among them, the origin is echoed in
    Access-Control-Allow-Origin together with
    Access-Control-Allow-Credentials: true, and the request goes on to
    the next handler unless its method is OPTIONS.  Every other
    origin is answered 403 "Origin not allowed" and does not reach the
    next handler. *)
Theorem CORS_origin_check (allowedOrigins : list string) (next : Handler)
    (r : Request) (w : http.ResponseWriter) :
  let origin := http.Header_Get r.(Header) "Origin" in
  origin ≠ "" →
  (allowedOrigins = [] ∨ "*" ∈ allowedOrigins ∨ origin ∈ allowedOrigins →
   ∃ w',
     CORS allowedOrigins next r w
     = (if String.eqb r.(Method) "OPTIONS"
        then http.WriteHeader w' 204 else next r w')
     ∧ w'.(http.Status) = w.(http.Status)
     ∧ w'.(http.Body) = w.(http.Body)
     ∧ w'.(http.Header) !! "Access-Control-Allow-Origin" = Some origin
     ∧ w'.(http.Header) !! "Access-Control-Allow-Credentials" = Some "true")
  ∧ (allowedOrigins ≠ [] → "*" ∉ allowedOrigins → origin ∉ allowedOrigins →
     CORS allowedOrigins next r w = http.Error w "Origin not allowed" 403).
Proof.
  intros origin Hne. split.
  - intros Hal. destruct (CORS_allowed allowedOrigins origin Hal)
      as (cfg & Hcred & Hage & Heq).
    exists (set_CORS_headers cfg origin w).
    split; [now apply Heq|].
    destruct (set_CORS_headers_spec cfg origin w) as (Hs & Hb & Ho & _ & Hc).
    auto.
  - intros Hl Hstar Hin. unfold CORS.
    destruct allowedOrigins as [|a l]; [contradiction|].
    change (0 <? length (a :: l))%nat with true. cbv iota. fold origin.
    destruct (String.eqb_spec origin ""); [contradiction|].
    cbn [AllowedOrigins].
    destruct (origin_allowed (a :: l) origin) eqn:Ha; [|reflexivity].
    apply origin_allowed_spec in Ha as [H|H]; contradiction.
Qed.

(** X28.  A preflight request (method OPTIONS) from an allowed origin
    is answered 204 by [CORS] itself, with nothing added to the body:
    it reaches neither the next handler nor, behind [CORS] in a chain,
    the authentication.  Its Access-Control-Max-Age header is the
    conversion [string(86400)], the four bytes of the UTF-8 encoding
    of the code point 86400, and not the decimal text "86400". *)
Theorem CORS_preflight (allowedOrigins : list string) (next : Handler)
    (r : Request) (w : http.ResponseWriter) :
  let origin := http.Header_Get r.(Header) "Origin" in
  origin ≠ "" →
  allowedOrigins = [] ∨ "*" ∈ allowedOrigins ∨ origin ∈ allowedOrigins →
  r.(Method) = "OPTIONS" →
  w.(http.Status) = None →
  let w' := CORS allowedOrigins next r w in
  (∀ next', CORS allowedOrigins next' r w = w')
  ∧ w'.(http.Status) = Some 204
  ∧ w'.(http.Body) = w.(http.Body)
  ∧ w'.(http.Header) !! "Access-Control-Max-Age"
    = Some (string_of_bytes [240; 149; 134; 128])
  ∧ string_of_bytes [240; 149; 134; 128] ≠ "86400".
Proof.
  intros origin Hne Hal Hm Hst w'. subst w'.
  destruct (CORS_allowed allowedOrigins origin Hal)
    as (cfg & Hcred & Hage & Heq).
  assert (Hall : ∀ next', CORS allowedOrigins next' r w
                  = http.WriteHeader (set_CORS_headers cfg origin w)
                      http.StatusNoContent).
  { intros next'. rewrite (Heq next' r w eq_refl Hne), Hm. reflexivity. }
  destruct (set_CORS_headers_spec cfg origin w) as (Hs & Hb & _ & Ha & _).
  split; [intros next'; now rewrite !Hall|].
  rewrite Hall. unfold http.WriteHeader. rewrite Hs, Hst. simpl.
  split; [reflexivity|]. split; [assumption|].
  split; [|discriminate]. rewrite Ha, Hage. reflexivity.
Qed.

End CORSMiddleware.

Section RateLimitMiddleware.
Import middleware.



End RateLimitMiddleware.

Section ChainMiddleware.
Import middleware.

Lemma Chain_from_take {H : Type} (ms : list (H → H)) (n : nat) :
  (n ≤ length ms)%nat →
  ∀ h, Chain_from n h ms = foldr (λ m h, m h) h (take n ms).
Proof.
  induction n as [|i IH]; intros Hn h; simpl.
  - reflexivity.
  - destruct (lookup_lt_is_Some_2 ms i) as [m Hm]; [lia|].
    rewrite Hm, (take_S_r _ _ _ Hm), foldr_app. simpl.
    apply IH. lia.
Qed.

(** X30.  [Chain] applies the middleware from the last to the first,
    so that the first one listed is the outermost and sees a request
    first.  The chains of the server's [main], which list a logger,
    [CORS] and [Auth], are the logger around [CORS] around [Auth]
    around the handler. *)
Theorem Chain_order {H : Type} (h : H) (ms : list (H → H)) :
  Chain h ms = foldr (λ m h, m h) h ms
  ∧ ∀ (Logger cors auth : H → H),
      Chain h [Logger; cors; auth] = Logger (cors (auth h)).
Proof.
  split; [|reflexivity].
  unfold Chain. rewrite Chain_from_take by lia. now rewrite take_ge by lia.
Qed.

End ChainMiddleware.

(** ** Worked examples of the web server *)

(** The report after one submission to channel "a". *)
Lemma GetChannelStats_report_witness :
  ∃ rep, jobscheduler.GetChannelStats s_submitted = Some rep
         ∧ rep !! "a" = jobscheduler.report_of s_submitted "a".
Proof.
  destruct (jobscheduler.GetChannelStats s_submitted) as [rep|] eqn:E.
  - exists rep. split; [reflexivity|].
    apply (proj2 (GetChannelStats_report s_submitted) rep E).
  - vm_compute in E. discriminate E.
Defined.

(** A file that sets four workers keeps them. *)
Lemma setDefaults_idempotent_witness :
  webserver_config.SchedulerConfig.DefaultWorkers
    (webserver_config.Scheduler (webserver_config.setDefaults exampleServerConfig))
  = 4.
Proof.
  apply (proj1 (proj2 (setDefaults_idempotent exampleServerConfig))).
  vm_compute. discriminate.
Defined.

Lemma Load_accepts_exactly_witness :
  webserver_config.Load None (inr exampleServerConfig)
  = inr (webserver_config.setDefaults exampleServerConfig).
Proof.
  apply (proj2 (Load_accepts_exactly exampleServerConfig
                  (webserver_config.setDefaults exampleServerConfig))).
  split; [reflexivity|]. simpl.
  repeat split; try lia; intros H; discriminate H.
Defined.

(** The loaded sample passes every other check of the scheduler. *)
Lemma server_main_scheduler_rejected_witness :
  jobscheduler.NewScheduler
    (server_main_Config (webserver_config.setDefaults exampleServerConfig))
    None None None []
  = inl (errorString
           "invalid configuration: channel buffer size must be at least 1").
Proof.
  apply (proj2 (server_main_scheduler_rejected
                  (webserver_config.setDefaults exampleServerConfig)
                  None None None []));
    vm_compute; discriminate.
Defined.

(** A submission to a fresh scheduler is accepted. *)
Lemma handleSubmitJob_valid_request_witness :
  handlers.handleSubmitJob exampleEncode exampleScheduler http.newResponseWriter
    (inr (exampleRequest 30)) 1 2 3
  = Some (jobscheduler.enqueued exampleScheduler
            (handlers.job_of_request (exampleRequest 30)) 1 2,
          handlers.accepted exampleEncode http.newResponseWriter
            (handlers.job_of_request (exampleRequest 30)) 3).
Proof.
  apply (eq_trans
           (handleSubmitJob_valid_request exampleEncode exampleScheduler
              http.newResponseWriter (exampleRequest 30) 1 2 3
              exampleScheduler_wf eq_refl)).
  reflexivity.
Defined.

(** 9223372037 seconds wrap: the channel gets the default timeout. *)
Lemma handleSubmitJob_first_request_witness :
  ∃ s' w' ch,
    handlers.handleSubmitJob exampleEncode exampleScheduler
      http.newResponseWriter (inr (exampleRequest 9223372037)) 1 2 3
    = Some (s', w')
    ∧ jobscheduler.channels s' !! "web" = Some ch
    ∧ jobscheduler.Channel.Timeout ch = 5 * jobscheduler.Minute.
Proof.
  destruct (handleSubmitJob_first_request exampleEncode exampleScheduler
              http.newResponseWriter (exampleRequest 9223372037) 1 2 3
              exampleScheduler_wf eq_refl eq_refl)
    as (s' & w' & ch & H1 & _ & H3 & _ & H5 & _).
  - vm_compute. discriminate.
  - exists s', w', ch. split; [exact H1|]. split; [exact H3|]. exact H5.
Defined.

(** The statistics of channel "a" after one submission: one job, and
    a queue size of 0 although the job is still queued. *)
Lemma handleChannelStats_reachable_witness :
  ∃ response,
    handlers.handleChannelStats
      (foldl (jobscheduler.run_op (lib := exampleLib)) exampleScheduler
         [jobscheduler.OpSubmitJob job_j1 5 6]) "a"
    = Some response
    ∧ response !! "a" = Some (api.ChannelStats.mk 1 [] 1 0 6 "" 0 0).
Proof.
  destruct (handleChannelStats_reachable (lib := exampleLib)
              jobscheduler.DefaultConfig None None None [] exampleScheduler
              [jobscheduler.OpSubmitJob job_j1 5 6] "a" eq_refl)
    as (response & H1 & H2).
  exists response. split; [exact H1|].
  apply (eq_trans (H2 "a")). vm_compute. reflexivity.
Defined.

(** The bearer form of the key "s3cret". *)
Lemma Auth_accepts_exactly_witness :
  middleware.Auth "s3cret" 7 okHandler
    (exampleHTTPRequest "POST" [("Authorization", "Bearer s3cret")])
    http.newResponseWriter
  = okHandler
      (middleware.WithValue
         (exampleHTTPRequest "POST" [("Authorization", "Bearer s3cret")])
         "auth_info" (middleware.mkAuthInfo "s3cret" 7 0))
      http.newResponseWriter.
Proof.
  apply (eq_trans
           (Auth_accepts_exactly "s3cret" 7 okHandler
              (exampleHTTPRequest "POST" [("Authorization", "Bearer s3cret")])
              http.newResponseWriter eq_refl
              ltac:(discriminate) ltac:(discriminate))).
  vm_compute. reflexivity.
Defined.

(** An origin that is not on the list. *)
Lemma CORS_origin_check_witness :
  middleware.CORS ["https://a.example"] okHandler
    (exampleHTTPRequest "GET" [("Origin", "https://b.example")])
    http.newResponseWriter
  = http.Error http.newResponseWriter "Origin not allowed" 403.
Proof.
  apply (proj2 (CORS_origin_check ["https://a.example"] okHandler
                  (exampleHTTPRequest "GET" [("Origin", "https://b.example")])
                  http.newResponseWriter ltac:(vm_compute; discriminate))).
  - discriminate.
  - intros H. apply list_elem_of_singleton in H. discriminate H.
  - intros H. apply list_elem_of_singleton in H. vm_compute in H. discriminate H.
Defined.

(** A preflight request without configured origins. *)
Lemma CORS_preflight_witness :
  http.Status
    (middleware.CORS [] okHandler
       (exampleHTTPRequest "OPTIONS" [("Origin", "https://b.example")])
       http.newResponseWriter)
  = Some 204.
Proof.
  apply (proj1 (proj2 (CORS_preflight [] okHandler
                  (exampleHTTPRequest "OPTIONS" [("Origin", "https://b.example")])
                  http.newResponseWriter ltac:(vm_compute; discriminate)
                  (or_introl eq_refl) eq_refl eq_refl))).
Defined.

